(** * Stagehand agent core: execution loop, OAuth client retries, cache wiring

    A shallow embedding of
      - lib/v3/llm/CodeAssistClient.ts   (createChatCompletion and its retries),
      - lib/v3/handlers/v3AgentHandler.ts (prepareAgent, createStepHandler,
        execute, executeWithCodeAssist, consolidateMetricsAndResult, handleStop),
      - class V3, whose text follows the client's in
        lib/v3/llm/CodeAssistClient.ts     (agent(...).execute and the cache
        life cycle around it, act, close, updateMetrics),
      - lib/v3/llm/LLMProvider.ts          (getClient).

    Asynchronous code is sequential here: every [await] is a call whose
    outcome is either a value or a thrown JavaScript value.  Calls to
    collaborators the handler does not own (the provider, the tools, the
    page, the callbacks [onStep] and [checkPauseState], the agent cache) are
    answered by an explicit world record and written, in order, to an event
    log, so that statements about "what was called, and when" are statements
    about that log.  The callback [onStep], the page reads and the action
    mapping are taken to return; what the provider, the tools, the pause
    check, [JSON.parse] and the cache do may be a throw, and so may the reads
    the code makes of a value that is [null] or [undefined]. *)

From Stdlib Require Import ZArith Lia Bool.
From stdpp Require Import base option list strings gmap.

Local Open Scope string_scope.
Local Open Scope list_scope.
Local Open Scope Z_scope.

(** ** JavaScript values the code branches on *)

Module Js.

(** A thrown value.  [StagehandError] is the SDK's error class and
    [PlainError] any other [Error] instance (a [TypeError], a [SyntaxError]),
    each with its message.  The other shapes are values that are no [Error]:
    [MessageObject] one that has a [message] member, given by that member and
    by its [String(...)] rendering; [NonError] one that has none and is
    neither [null] nor [undefined], given by its rendering; [ThrownNull] and
    [ThrownUndefined] the two values no member of which can be read. *)
Inductive Thrown :=
| StagehandError (msg : string)
| PlainError (msg : string)
| NonError (rendering : string)
| MessageObject (message rendering : string)
| ThrownNull
| ThrownUndefined.

(** [error instanceof Error ? error.message : String(error)]. *)
Definition messageOf (e : Thrown) : string :=
  match e with
  | StagehandError m => m
  | PlainError m => m
  | NonError r => r
  | MessageObject _ r => r
  | ThrownNull => "null"
  | ThrownUndefined => "undefined"
  end.

(** [error?.message ?? String(error)]: the [message] member of whatever was
    thrown, when it has one. *)
Definition messageOrString (e : Thrown) : string :=
  match e with
  | StagehandError m => m
  | PlainError m => m
  | NonError r => r
  | MessageObject m _ => m
  | ThrownNull => "null"
  | ThrownUndefined => "undefined"
  end.

Definition instanceofStagehandError (e : Thrown) : bool :=
  match e with StagehandError _ => true | _ => false end.

(** The completion of an awaited call. *)
Inductive Outcome (A : Type) :=
| Returned (a : A)
| Threw (e : Thrown).
Arguments Returned {A} a.
Arguments Threw {A} e.

(** A [number] as far as the agent looks at it: [NaN] or an integer. *)
Inductive Number :=
| NaN
| Num (z : Z).

(** Truthiness of an optional number: [undefined], [0] and [NaN] are falsy. *)
Definition truthyNumber (v : option Number) : bool :=
  match v with
  | Some (Num z) => negb (z =? 0)
  | Some NaN => false
  | None => false
  end.

(** Truthiness of a string: only the empty string is falsy. *)
Definition truthy (s : string) : bool :=
  match s with EmptyString => false | _ => true end.

(** [s || d] on strings. *)
Definition orElse (s d : string) : string := if truthy s then s else d.

(** [v || d] for an optional string ([undefined] is falsy as well). *)
Definition optOrElse (v : option string) (d : string) : string :=
  match v with Some s => orElse s d | None => d end.

(** White space and line terminators removed by [String.prototype.trim],
    among the code units a string holds here, those below 256: TAB to CR,
    the space and the no-break space U+00A0. *)
Definition isSpace (c : Ascii.ascii) : bool :=
  let n := Ascii.nat_of_ascii c in
  ((9 <=? n) && (n <=? 13))%nat || (n =? 32)%nat || (n =? 160)%nat.

Fixpoint trimStart (s : string) : string :=
  match s with
  | String c r => if isSpace c then trimStart r else s
  | EmptyString => EmptyString
  end.

Fixpoint trimEnd (s : string) : string :=
  match s with
  | String c r =>
      match trimEnd r with
      | EmptyString => if isSpace c then EmptyString else String c EmptyString
      | r' => String c r'
      end
  | EmptyString => EmptyString
  end.

Definition trim (s : string) : string := trimEnd (trimStart s).

(** [xs.join(sep)]. *)
Fixpoint join (sep : string) (xs : list string) : string :=
  match xs with
  | [] => ""
  | [x] => x
  | x :: rest => x +:+ sep +:+ join sep rest
  end.

(** [xs.slice(-n)] for an integer [n >= 0].  [-0] is [0], so [slice(-0)] is
    the whole array; otherwise the last [n] elements (all of them when the
    array is shorter). *)
Definition sliceLast {A} (n : nat) (xs : list A) : list A :=
  match n with
  | O => xs
  | _ => drop (length xs - n)%nat xs
  end.

(** [xs.slice(-1)[0]]: the last element, [undefined] on an empty array. *)
Definition lastOf {A} (xs : list A) : option A := last xs.

(** The line feed and the double quote, for templates and patterns. *)
Definition newline : string := String (Ascii.ascii_of_nat 10) "".
Definition quote : string := String (Ascii.ascii_of_nat 34) "".

(** [s] without its prefix [p], when [s] starts with [p]. *)
Fixpoint afterPrefix (p s : string) : option string :=
  match p, s with
  | EmptyString, _ => Some s
  | String a p', String b s' =>
      if Ascii.eqb a b then afterPrefix p' s' else None
  | String _ _, EmptyString => None
  end.

(** [s] without its suffix [p], when [s] ends with [p]. *)
Definition beforeSuffix (p s : string) : option string :=
  String.rev <$> afterPrefix (String.rev p) (String.rev s).

(** An object literal as the tool declarations use them: strings, booleans,
    a JSON schema kept as text, and objects given by their own members in
    insertion order. *)
#[warnings="-register-all"]
Inductive Value :=
| Str (s : string)
| Bool (b : bool)
| Opaque (json : string)
| Obj (members : list (string * Value)).

Fixpoint lookupMember (key : string) (members : list (string * Value))
  : option Value :=
  match members with
  | [] => None
  | (k, v) :: rest => if String.eqb k key then Some v else lookupMember key rest
  end.

(** [v.key]: [undefined] when [v] has no such member. *)
Definition member (key : string) (v : Value) : option Value :=
  match v with
  | Obj members => lookupMember key members
  | _ => None
  end.

(** [{...members, key: v}]: the member keeps its place when it is there
    already, and is added at the end otherwise. *)
Fixpoint setMember (key : string) (v : Value) (members : list (string * Value))
  : list (string * Value) :=
  match members with
  | [] => [(key, v)]
  | (k, old) :: rest =>
      if String.eqb k key then (k, v) :: rest
      else (k, old) :: setMember key v rest
  end.

(** The [TypeError] of reading property [prop] of [null] or of [undefined],
    with the message Node gives it. *)
Definition typeErrorReadingOf (nullish prop : string) : Thrown :=
  PlainError ("Cannot read properties of " +:+ nullish +:+ " (reading '"
              +:+ prop +:+ "')").

Definition typeErrorReading (prop : string) : Thrown :=
  typeErrorReadingOf "undefined" prop.

(** Evaluating [error.message] in a [catch]: what it throws, if it throws.
    Only [null] and [undefined] have no members to read. *)
Definition readingMessage (e : Thrown) : option Thrown :=
  match e with
  | ThrownNull => Some (typeErrorReadingOf "null" "message")
  | ThrownUndefined => Some (typeErrorReading "message")
  | _ => None
  end.

(** The names every object literal inherits from [Object.prototype].  A
    lookup [obj[key]] with one of them finds a function (for [__proto__] the
    prototype itself), which is truthy, when [obj] has no member of its own
    under that name. *)
Definition objectPrototypeKeys : list string :=
  ["constructor"; "__defineGetter__"; "__defineSetter__"; "hasOwnProperty";
   "__lookupGetter__"; "__lookupSetter__"; "isPrototypeOf";
   "propertyIsEnumerable"; "toString"; "valueOf"; "__proto__";
   "toLocaleString"].

Definition inherited (key : string) : bool :=
  existsb (String.eqb key) objectPrototypeKeys.

(** The argument of [JSON.parse] as the string it is converted to:
    [undefined] becomes the text "undefined". *)
Definition textOfOptional (v : option string) : string :=
  match v with Some s => s | None => "undefined" end.

End Js.

Export Js.

(** ** Chat-completion data shared by the client and the handler
    (llm/LLMClient.ts: [ChatMessage], [LLMResponse]) *)

(** The parsed arguments of a tool call.  The handler reads [taskComplete]
    and [reasoning]; everything else a tool receives is kept as one opaque
    field.  A field the model left out is [None] ([undefined]). *)
Record ToolArgs := mkToolArgs {
  taskComplete : option bool;
  reasoning : option string;
  otherFields : string
}.

(** A tool call: the name of the tool and the arguments in the form [A].
    An entry of [message.tool_calls] has [function.name] and
    [function.arguments], the text the client made with [JSON.stringify] and
    the handler reads back with [JSON.parse]; that text is [undefined]
    ([None]) when the provider sent no [args].  A tool call of a step the SDK
    reports has [toolName] and [input], the arguments as an object. *)
Record ToolCall (A : Type) := mkToolCall {
  toolName : string;
  toolArgs : A
}.
Arguments mkToolCall {A} toolName toolArgs.
Arguments toolName {A} t.
Arguments toolArgs {A} t.

(** An entry of [message.tool_calls]. *)
Definition ChatToolCall : Type := ToolCall (option string).

Record Usage := mkUsage {
  prompt_tokens : Z;
  completion_tokens : Z;
  total_tokens : Z
}.

Record Choice := mkChoice {
  content : option string;
  tool_calls : list ChatToolCall;
  finish_reason : string
}.

Record LLMResponse := mkLLMResponse {
  choices : list Choice;
  usage : option Usage
}.

(** What a tool call hands to the action mapping as [toolResult]: the value
    the tool returned (kept as its JSON text), or the literal
    [{success: true, reasoning}] the OAuth loop builds for [close]. *)
Inductive ToolResult :=
| ToolOutput (json : string)
| CloseAck (closeReasoning : option string).

(** One entry of the [toolResults] array of the OAuth loop, before
    [JSON.stringify]: a tool's result, [{error: msg}], or [{success: true}]. *)
Inductive ToolFeedback :=
| ResultPayload (r : ToolResult)
| ErrorPayload (msg : string)
| SuccessPayload.

(** The entries of [chatMessages].  The last form is the user message whose
    content is [toolResults.join("\n")]. *)
Inductive ChatMessage :=
| SystemMessage (text : string)
| UserMessage (text : string)
| AssistantMessage (text : string) (calls : list ChatToolCall)
| ToolResultsMessage (results : list ToolFeedback).

(** ** CodeAssistClient.createChatCompletion (llm/CodeAssistClient.ts) *)

Module CodeAssist.

(** A part of a candidate's content.  The [args] of a [functionCall] are kept
    as the text [JSON.stringify] makes of them: [None] when the part has no
    [args], for which [JSON.stringify] gives [undefined]. *)
Inductive Part :=
| TextPart (t : string)
| FunctionCallPart (name : string) (args : option string)
| InlineDataPart.

Record Candidate := mkCandidate {
  parts : option (list Part);
  finishReason : option string
}.

Record UsageMetadata := mkUsageMetadata {
  promptTokenCount : option Z;
  candidatesTokenCount : option Z;
  totalTokenCount : option Z
}.

(** [response.data.response]. *)
Record InnerResponse := mkInnerResponse {
  candidates : list Candidate;
  usageMetadata : option UsageMetadata
}.

(** What the [k]-th call of [authClient.request] does: it throws, or it
    resolves with a response. *)
Inductive Reply :=
| TransportFails (e : Thrown)
| Responds (r : InnerResponse).

(** Calls made to the outside, in order. *)
Inductive Event :=
| Requested (attempt : nat)
| Slept (ms : Z).

(** What the caller gets back: the [LLMResponse], or with a response model
    the extraction result [{data, usage}]. *)
Inductive Completion :=
| ChatResponse (r : LLMResponse)
| Extraction (data : string) (u : Usage).

(** [parts.filter(p => p.text).map(p => p.text).join("")]. *)
Fixpoint textOf (ps : list Part) : string :=
  match ps with
  | TextPart t :: rest => (if Js.truthy t then t else "") +:+ textOf rest
  | _ :: rest => textOf rest
  | [] => ""
  end.

(** The [functionCall] parts, in order, as tool calls with
    [arguments: JSON.stringify(p.functionCall.args)]. *)
Fixpoint toolCallsOf (ps : list Part) : list ChatToolCall :=
  match ps with
  | FunctionCallPart n a :: rest => mkToolCall n a :: toolCallsOf rest
  | _ :: rest => toolCallsOf rest
  | [] => []
  end.

(** [n || 0] on an optional count. *)
Definition orZero (n : option Z) : Z := default 0 n.

(** The [content] of the response: the text of the first candidate's parts,
    [null] when there are none. *)
Definition contentOf (r : InnerResponse) : option string :=
  textOf <$> (head (candidates r) ≫= parts).

(** The [llmResponse] literal: always exactly one choice, built from the
    first candidate. *)
Definition buildResponse (r : InnerResponse) : LLMResponse :=
  let candidate := head (candidates r) in
  {| choices :=
       [ {| content := contentOf r;
            tool_calls := default [] (toolCallsOf <$> (candidate ≫= parts));
            finish_reason :=
              Js.optOrElse (candidate ≫= finishReason) "unknown" |} ];
     usage :=
       Some {| prompt_tokens := orZero (usageMetadata r ≫= promptTokenCount);
               completion_tokens :=
                 orZero (usageMetadata r ≫= candidatesTokenCount);
               total_tokens := orZero (usageMetadata r ≫= totalTokenCount) |}
  |}.

(** [s.replace(/^```json\n?|\n?```$/g, "")]: an opening fence with an
    optional line feed is removed from the start, a closing fence with an
    optional line feed before it from the end. *)
Definition stripFences (s : string) : string :=
  let opened :=
    match Js.afterPrefix "```json" s with
    | Some rest => default rest (Js.afterPrefix Js.newline rest)
    | None => s
    end in
  match Js.beforeSuffix "```" opened with
  | Some rest => default rest (Js.beforeSuffix Js.newline rest)
  | None => opened
  end.

(** [content?.trim().replace(...) || "{}"], the text handed to
    [JSON.parse]. *)
Definition potentialJson (content : option string) : string :=
  match content with
  | Some c => Js.orElse (stripFences (Js.trim c)) "{}"
  | None => "{}"
  end.

Definition usageOf (r : LLMResponse) : Usage :=
  default (mkUsage 0 0 0) (usage r).

Section Client.

(** [JSON.parse]: the parsed data (kept as text), or the message of the
    [SyntaxError] it throws; [authClient.request], by attempt number; whether
    the options carry a [response_model]; and what the statements before the
    [try] throw while they build the request from the options, [None] when
    they build it. *)
Variable JSON_parse : string -> string + string.
Variable request : nat -> Reply.
Variable response_model : bool.
Variable building : option Thrown.

(** What parsing the reply against a response model gives. *)
Definition parsed (r : InnerResponse) : string + string :=
  JSON_parse (potentialJson (contentOf r)).

(** The body of [createChatCompletion] with [retries = S n] or [retries = 0],
    the attempt number counting the calls made so far.  The request is built
    first, outside the [try]: what that throws leaves the method as it is,
    with no request made.  Each recursive call in the source is a
    [return this.createChatCompletion(...)] with the same options, which
    builds the request again, and is not awaited inside the [try], so what
    it throws is not caught again. *)
Fixpoint attemptFrom (retries : nat) (attempt : nat)
  : Outcome Completion * list Event :=
  match building with
  | Some e => (Threw e, [])
  | None =>
      match request attempt with
      | Responds r =>
          let llmResponse := buildResponse r in
          if response_model then
            match parsed r with
            | inr data =>
                (Returned (Extraction data (usageOf llmResponse)),
                 [Requested attempt])
            | inl syntaxError =>
                match retries with
                | S n =>
                    let '(res, evs) := attemptFrom n (S attempt) in
                    (res, Requested attempt :: evs)
                | O =>
                    (* thrown inside the outer [try], caught by the outer
                       [catch], which rethrows it as it is a StagehandError *)
                    (Threw (StagehandError
                              ("Failed to parse JSON response: "
                               +:+ syntaxError)),
                     [Requested attempt])
                end
            end
          else (Returned (ChatResponse llmResponse), [Requested attempt])
      | TransportFails e =>
          match retries with
          | S n =>
              let '(res, evs) := attemptFrom n (S attempt) in
              (res,
               Requested attempt :: Slept (1000 * (4 - Z.of_nat retries)) :: evs)
          | O =>
              (Threw (if Js.instanceofStagehandError e then e
                      else StagehandError
                             ("Code Assist API request failed: "
                              +:+ Js.messageOf e)),
               [Requested attempt])
          end
      end
  end.

(** The default of the [retries] parameter. *)
Definition defaultRetries : Z := 3.

(** Whether attempt [k] fails: the request throws, or a requested response
    model cannot be parsed. *)
Definition failed (k : nat) : bool :=
  match request k with
  | TransportFails _ => true
  | Responds r =>
      match parsed r with
      | inl _ => response_model
      | inr _ => false
      end
  end.

Definition transportFailed (k : nat) : bool :=
  match request k with TransportFails _ => true | _ => false end.

End Client.

Fixpoint requestCount (evs : list Event) : nat :=
  match evs with
  | Requested _ :: rest => S (requestCount rest)
  | _ :: rest => requestCount rest
  | [] => O
  end.

Fixpoint sleepCount (evs : list Event) : nat :=
  match evs with
  | Slept _ :: rest => S (sleepCount rest)
  | _ :: rest => sleepCount rest
  | [] => O
  end.

(** How many of the attempts [from, from + n) fail in transport. *)
Fixpoint transportFailures (request : nat -> Reply) (from n : nat) : nat :=
  match n with
  | O => O
  | S m =>
      ((if transportFailed request from then 1 else 0)
       + transportFailures request (S from) m)%nat
  end.

(** The delays slept, in order. *)
Fixpoint sleeps (evs : list Event) : list Z :=
  match evs with
  | Slept ms :: rest => ms :: sleeps rest
  | _ :: rest => sleeps rest
  | [] => []
  end.

(** The time spent sleeping. *)
Definition sleptMs (evs : list Event) : Z := foldr Z.add 0 (sleeps evs).

(** *** formatMessages: from chat messages to the contents of a request *)

(** [msg.role]; [OtherRole] is any other string. *)
Inductive MessageRole :=
| SystemRole
| UserRole
| AssistantRole
| OtherRole (name : string).

(** What a lookup in [roleMap] gives when it gives something: one of the
    role names the object holds, or, the object being a plain literal, a
    member it inherits from [Object.prototype], which is no string. *)
Inductive ContentRole :=
| RoleName (name : string)
| InheritedMember (key : string).

(** [roleMap[msg.role]]. *)
Definition roleMap (r : MessageRole) : option ContentRole :=
  match r with
  | UserRole => Some (RoleName "user")
  | AssistantRole => Some (RoleName "model")
  | SystemRole => Some (RoleName "user")
  | OtherRole name =>
      if Js.inherited name then Some (InheritedMember name) else None
  end.

(** [role === "user"]. *)
Definition isUser (role : ContentRole) : bool :=
  match role with
  | RoleName name => String.eqb name "user"
  | InheritedMember _ => false
  end.

(** An element of an array content: a text, an image with its
    [image_url?.url], or an element of another type. *)
Inductive ContentItem :=
| TextItem (itemText : string)
| ImageUrlItem (url : option string)
| OtherItem.

(** [msg.content]: a string, an array, or neither. *)
Inductive MessageContent :=
| StringContent (s : string)
| ArrayContent (items : list ContentItem)
| OtherContent.

(** A chat message as the client reads it; [msgToolCalls] is
    [(msg as any).tool_calls]. *)
Record Message := mkMessage {
  msgRole : MessageRole;
  msgContent : MessageContent;
  msgToolCalls : option (list ChatToolCall)
}.

(** [options.image]: the optional description and the buffer in base64. *)
Record Image := mkImage {
  imageDescription : option string;
  imageBase64 : string
}.

(** A part of a request content: [{text}], [{inlineData: {mimeType, data}}]
    or [{functionCall: {name, args}}], the [args] being the value [JSON.parse]
    returned, kept as text. *)
Inductive RequestPart :=
| TextOf (partText : string)
| InlineData (mimeType data : string)
| FunctionCall (name : string) (callArgs : string).

Record CodeAssistContent := mkContent {
  contentRole : ContentRole;
  contentParts : list RequestPart
}.

(** [\w]. *)
Definition isWordChar (c : Ascii.ascii) : bool :=
  let n := Ascii.nat_of_ascii c in
  ((48 <=? n) && (n <=? 57) || (65 <=? n) && (n <=? 90)
   || (97 <=? n) && (n <=? 122) || (n =? 95))%nat.

(** The longest run of word characters at the start of [s], and the rest. *)
Fixpoint wordRun (s : string) : string * string :=
  match s with
  | String c r =>
      if isWordChar c
      then let '(w, rest) := wordRun r in (String c w, rest)
      else ("", s)
  | EmptyString => ("", "")
  end.

(** [url.match(/^data:(image\/\w+);base64,/)]: the captured mime type.  The
    character after the run of word characters has to be the semicolon, so
    the longest run is the only one that can match. *)
Definition mimeTypeMatch (url : string) : option string :=
  match Js.afterPrefix "data:image/" url with
  | Some rest =>
      let '(w, after) := wordRun rest in
      if Js.truthy w then
        match Js.afterPrefix ";base64," after with
        | Some _ => Some ("image/" +:+ w)
        | None => None
        end
      else None
  | None => None
  end.

Definition comma : Ascii.ascii := Ascii.ascii_of_nat 44.

Fixpoint afterComma (s : string) : option string :=
  match s with
  | String c r => if Ascii.eqb c comma then Some r else afterComma r
  | EmptyString => None
  end.

Fixpoint beforeComma (s : string) : string :=
  match s with
  | String c r => if Ascii.eqb c comma then "" else String c (beforeComma r)
  | EmptyString => ""
  end.

(** [url.split(",")[1]]: the text between the first comma and the next. *)
Definition secondField (url : string) : option string :=
  beforeComma <$> afterComma url.

(** The parts one element of an array content gives. *)
Definition itemParts (item : ContentItem) : list RequestPart :=
  match item with
  | TextItem t => [TextOf t]
  | ImageUrlItem (Some url) =>
      if Js.truthy url then
        match secondField url, mimeTypeMatch url with
        | Some base64Data, Some mime =>
            if Js.truthy base64Data then [InlineData mime base64Data] else []
        | _, _ => []
        end
      else []
  | ImageUrlItem None => []
  | OtherItem => []
  end.

(** [parts.find(p => "text" in p && p.text)] and the assignment to its
    [text], when there is such a part. *)
Fixpoint prependToFirstText (instruction : string) (ps : list RequestPart)
  : option (list RequestPart) :=
  match ps with
  | [] => None
  | TextOf t :: rest =>
      if Js.truthy t
      then Some (TextOf (instruction +:+ Js.newline +:+ Js.newline +:+ t) :: rest)
      else cons (TextOf t) <$> prependToFirstText instruction rest
  | p :: rest => cons p <$> prependToFirstText instruction rest
  end.

(** The system instruction goes into the first part with text, or becomes a
    part in front ([parts.unshift]). *)
Definition applySystemInstruction (instruction : string)
    (ps : list RequestPart) : list RequestPart :=
  default (TextOf instruction :: ps) (prependToFirstText instruction ps).

(** The two variables the [forEach] callback updates. *)
Record Formatting := mkFormatting {
  contents : list CodeAssistContent;
  systemInstruction : option string
}.

(** Truthiness of [systemInstruction]: [null] and the empty string are
    falsy. *)
Definition pending (f : Formatting) : option string :=
  match systemInstruction f with
  | Some s => if Js.truthy s then Some s else None
  | None => None
  end.

Section Format.

(** [AnnotatedScreenshotText], a constant of llm/LLMClient.ts; [JSON.parse],
    as for the client; and the [image] option of the call. *)
Variable AnnotatedScreenshotText : string.
Variable JSON_parse : string -> string + string.
Variable image : option Image.

(** [for (const toolCall of toolCalls) parts.push({functionCall: {name,
    args: JSON.parse(toolCall.function.arguments)}})]: the first text that
    does not parse ends the loop, and [formatMessages], by the [SyntaxError]
    of [JSON.parse]. *)
Fixpoint callParts (toolCalls : list ChatToolCall)
  : Outcome (list RequestPart) :=
  match toolCalls with
  | [] => Returned []
  | toolCall :: rest =>
      match JSON_parse (Js.textOfOptional (toolArgs toolCall)) with
      | inl syntaxError => Threw (PlainError syntaxError)
      | inr args =>
          match callParts rest with
          | Threw e => Threw e
          | Returned ps => Returned (FunctionCall (toolName toolCall) args :: ps)
          end
      end
  end.

(** The parts of a message that is not a system message; [isLast] is
    [index === messages.length - 1]. *)
Definition partsOf (isLast : bool) (msg : Message)
  : Outcome (list RequestPart) :=
  let fromContent :=
    match msgContent msg with
    | ArrayContent items => flat_map itemParts items
    | StringContent s => if Js.truthy (Js.trim s) then [TextOf s] else []
    | OtherContent => []
    end in
  let fromToolCalls :=
    match msgRole msg, msgToolCalls msg with
    | AssistantRole, Some toolCalls => callParts toolCalls
    | _, _ => Returned []
    end in
  let fromImage :=
    match image, msgRole msg with
    | Some img, UserRole =>
        if isLast then
          [TextOf (Js.optOrElse (imageDescription img) AnnotatedScreenshotText);
           InlineData "image/jpeg" (imageBase64 img)]
        else []
    | _, _ => []
    end in
  match fromToolCalls with
  | Threw e => Threw e
  | Returned calls => Returned (fromContent ++ calls ++ fromImage)
  end.

(** The end of the callback, from [Apply system instruction to the first
    non-system message] on, for the parts [ps] of a message whose role maps
    to [role]. *)
Definition place (role : ContentRole) (ps : list RequestPart) (f : Formatting)
  : Formatting :=
  let applies :=
    match pending f, contents f with
    | Some _, [] => isUser role
    | _, _ => false
    end in
  let ps' :=
    match pending f with
    | Some instruction =>
        if applies then applySystemInstruction instruction ps else ps
    | None => ps
    end in
  {| contents :=
       match ps' with
       | [] => contents f
       | _ :: _ => contents f ++ [mkContent role ps']
       end;
     systemInstruction :=
       if applies then None else systemInstruction f |}.

(** The callback of [messages.forEach]. *)
Definition formatMessage (isLast : bool) (msg : Message) (f : Formatting)
  : Outcome Formatting :=
  match roleMap (msgRole msg) with
  | None => Returned f
  | Some role =>
      match msgRole msg with
      | SystemRole =>
          Returned
            match msgContent msg with
            | StringContent s =>
                {| contents := contents f;
                   systemInstruction :=
                     Some (match pending f with
                           | Some instruction =>
                               instruction +:+ Js.newline +:+ Js.newline
                           | None => ""
                           end +:+ s) |}
            | _ => f
            end
      | _ =>
          match partsOf isLast msg with
          | Threw e => Threw e
          | Returned ps => Returned (place role ps f)
          end
      end
  end.

Fixpoint formatEach (messages : list Message) (f : Formatting)
  : Outcome Formatting :=
  match messages with
  | [] => Returned f
  | msg :: rest =>
      match formatMessage (match rest with [] => true | _ => false end) msg f
      with
      | Threw e => Threw e
      | Returned f' => formatEach rest f'
      end
  end.

(** [formatMessages(messages, image)]. *)
Definition formatMessages (messages : list Message)
  : Outcome (list CodeAssistContent) :=
  match formatEach messages (mkFormatting [] None) with
  | Threw e => Threw e
  | Returned f =>
      Returned
        match pending f with
        | Some instruction =>
            mkContent (RoleName "user") [TextOf instruction] :: contents f
        | None => contents f
        end
  end.

End Format.

(** *** Readings of the formatted contents *)

(** A content the API accepts: one of its two roles, and not without
    parts. *)
Definition wellFormed (c : CodeAssistContent) : Prop :=
  (contentRole c = RoleName "user" \/ contentRole c = RoleName "model")
  /\ contentParts c <> [].

(** The role of a message names a member of [Object.prototype]. *)
Definition inheritedRole (msg : Message) : bool :=
  match msgRole msg with
  | OtherRole name => Js.inherited name
  | _ => false
  end.

(** A content made from a message of such a role: its role is the inherited
    member, and it has parts. *)
Definition misrouted (msgs : list Message) (c : CodeAssistContent) : Prop :=
  (exists key,
      contentRole c = InheritedMember key
      /\ Js.inherited key = true
      /\ exists msg, In msg msgs /\ msgRole msg = OtherRole key)
  /\ contentParts c <> [].

(** A content is one the API accepts, or comes from a message of an
    inherited role. *)
Definition accepted (msgs : list Message) (c : CodeAssistContent) : Prop :=
  wellFormed c \/ misrouted msgs c.

(** [s] occurs in [t]. *)
Definition occursIn (s t : string) : Prop :=
  exists before after, t = before +:+ s +:+ after.

(** The text of a system message whose content is a string. *)
Definition systemText (msg : Message) : option string :=
  match msgRole msg, msgContent msg with
  | SystemRole, StringContent s => Some s
  | _, _ => None
  end.

(** A user content with a text part in which [s] occurs. *)
Definition carries (s : string) (c : CodeAssistContent) : Prop :=
  contentRole c = RoleName "user"
  /\ exists t, In (TextOf t) (contentParts c) /\ occursIn s t.

(** The system text [s] is waiting in [systemInstruction], or is in a
    content already. *)
Definition kept (s : string) (f : Formatting) : Prop :=
  (exists x, systemInstruction f = Some x /\ occursIn s x)
  \/ Exists (carries s) (contents f).

(** The delays of [retries] transport failures in a row:
    [1000 * (4 - r)] ms for [r = retries, ..., 1]. *)
Fixpoint backoffSchedule (retries : nat) : list Z :=
  match retries with
  | O => []
  | S n => 1000 * (4 - Z.of_nat retries) :: backoffSchedule n
  end.

(** *** The request payload: tool declarations *)

(** One entry of [functionDeclarations]; a member read from an object that
    lacks it is [undefined]. *)
Record FunctionDeclaration := mkDeclaration {
  declName : option Js.Value;
  declDescription : option Js.Value;
  declParameters : option Js.Value
}.

(** [({name: t.function.name, description: t.function.description,
      parameters: t.function.parameters})]: reading [name] throws when [t]
    has no member [function]. *)
Definition declarationOf (t : Js.Value) : Outcome FunctionDeclaration :=
  match Js.member "function" t with
  | Some f =>
      Returned {| declName := Js.member "name" f;
                  declDescription := Js.member "description" f;
                  declParameters := Js.member "parameters" f |}
  | None => Threw (Js.typeErrorReading "name")
  end.

(** [tools.map(t => ...)]: the first throw ends the mapping. *)
Fixpoint declarationsOf (tools : list Js.Value)
  : Outcome (list FunctionDeclaration) :=
  match tools with
  | [] => Returned []
  | t :: rest =>
      match declarationOf t with
      | Threw e => Threw e
      | Returned d =>
          match declarationsOf rest with
          | Threw e => Threw e
          | Returned ds => Returned (d :: ds)
          end
      end
  end.

(** The [tools] member of the request:
    [tools ? [{functionDeclarations: tools.map(...)}] : undefined]; an empty
    array is truthy. *)
Definition functionDeclarations (tools : option (list Js.Value))
  : Outcome (option (list FunctionDeclaration)) :=
  match tools with
  | None => Returned None
  | Some ts =>
      match declarationsOf ts with
      | Threw e => Threw e
      | Returned ds => Returned (Some ds)
      end
  end.

(** *** createChatCompletion as a whole *)

(** The options [createChatCompletion] reads: the messages, the image,
    whether there is a [response_model], and the tool declarations. *)
Record ChatCompletionOptions := mkChatOptions {
  optMessages : list Message;
  optImage : option Image;
  optResponseModel : bool;
  optTools : option (list Js.Value)
}.

Section Whole.

(** [AnnotatedScreenshotText]; [JSON.parse]; what
    [toGeminiSchema(response_model.schema)] (utils, not among the sources)
    throws, [None] when it returns; and [authClient.request], by attempt
    number. *)
Variable AnnotatedScreenshotText : string.
Variable JSON_parse : string -> string + string.
Variable toGeminiSchema : option Thrown.
Variable request : nat -> Reply.

(** The statements of [createChatCompletion] before its [try], in their
    order: [formatMessages], the schema of the response model when there is
    one, and the [tools] member of the payload.  The first of them that
    throws ends the method. *)
Definition building (options : ChatCompletionOptions) : option Thrown :=
  match formatMessages AnnotatedScreenshotText JSON_parse (optImage options)
          (optMessages options) with
  | Threw e => Some e
  | Returned _ =>
      match (if optResponseModel options then toGeminiSchema else None) with
      | Some e => Some e
      | None =>
          match functionDeclarations (optTools options) with
          | Threw e => Some e
          | Returned _ => None
          end
      end
  end.

(** [createChatCompletion({options, logger, retries})]; [retries > 0] fails
    for every non-positive count. *)
Definition createChatCompletion (options : ChatCompletionOptions)
    (retries : Z) : Outcome Completion * list Event :=
  attemptFrom JSON_parse request (optResponseModel options) (building options)
    (Z.to_nat retries) 0.

End Whole.

End CodeAssist.

(** ** Agent data (types/public/agent.ts) *)

Module AgentAction.
(** [type], the optional [reasoning] and [taskCompleted], the tool-specific
    fields as one opaque value, and the stamp the loop adds. *)
Record t := mk {
  type : string;
  reasoning : option string;
  taskCompleted : option bool;
  fields : string;
  pageUrl : option string;
  timestamp : option Z
}.

(** [action.pageUrl = url; action.timestamp = time]. *)
Definition stamp (url : string) (time : Z) (a : t) : t :=
  {| type := type a; reasoning := reasoning a;
     taskCompleted := taskCompleted a; fields := fields a;
     pageUrl := Some url; timestamp := Some time |}.
End AgentAction.

Module AgentState.
Record t := mk {
  collectedReasoning : list string;
  actions : list AgentAction.t;
  finalMessage : string;
  completed : bool;
  currentPageUrl : string
}.

Definition initial (url : string) : t :=
  {| collectedReasoning := []; actions := []; finalMessage := "";
     completed := false; currentPageUrl := url |}.

Definition pushReasoning (txt : string) (s : t) : t :=
  {| collectedReasoning := collectedReasoning s ++ [txt];
     actions := actions s; finalMessage := finalMessage s;
     completed := completed s; currentPageUrl := currentPageUrl s |}.

Definition pushAction (a : AgentAction.t) (s : t) : t :=
  {| collectedReasoning := collectedReasoning s;
     actions := actions s ++ [a]; finalMessage := finalMessage s;
     completed := completed s; currentPageUrl := currentPageUrl s |}.

Definition setFinalMessage (m : string) (s : t) : t :=
  {| collectedReasoning := collectedReasoning s; actions := actions s;
     finalMessage := m; completed := completed s;
     currentPageUrl := currentPageUrl s |}.

Definition setCompleted (s : t) : t :=
  {| collectedReasoning := collectedReasoning s; actions := actions s;
     finalMessage := finalMessage s; completed := true;
     currentPageUrl := currentPageUrl s |}.

Definition setCurrentPageUrl (url : string) (s : t) : t :=
  {| collectedReasoning := collectedReasoning s; actions := actions s;
     finalMessage := finalMessage s; completed := completed s;
     currentPageUrl := url |}.
End AgentState.

Module AgentStepUpdate.
Record t := mk {
  stepNumber : nat;
  actions : list AgentAction.t;
  message : string;
  completed : bool;
  currentUrl : string
}.
End AgentStepUpdate.

Module AgentResult.
Record UsageSummary := mkUsageSummary {
  input_tokens : Z;
  output_tokens : Z;
  reasoning_tokens : Z;
  cached_input_tokens : Z;
  inference_time_ms : Z
}.

Record t := mk {
  success : bool;
  message : string;
  actions : list AgentAction.t;
  completed : bool;
  usage : option UsageSummary
}.
End AgentResult.

(** [AgentExecuteOptions].  [onStep] records whether the callback is given;
    what it receives is in the event log.  [checkPauseState], when given,
    answers its [k]-th call at a step boundary: [None] resolves, [Some e]
    rejects with [e]. *)
Record AgentExecuteOptions := mkOptions {
  instruction : string;
  maxSteps : option Js.Number;
  onStep : bool;
  checkPauseState : option (nat -> option Thrown)
}.

(** ** V3AgentHandler (handlers/v3AgentHandler.ts) *)

Module Handler.

(** A tool of the merged tool set.  [execute] is [tool.execute(toolArgs, {})]
    for the call at position [pos] of step [step]; it returns the result as
    JSON text or throws.  The arguments are what [JSON.parse] returned:
    [None] is [null]. *)
Module Tool.
Record t := mk {
  description : string;
  execute : nat -> nat -> option ToolArgs -> Outcome string
}.
End Tool.

(** The argument object of [mapToolResultToActions]; [args] is [None] when
    the arguments parsed to [null]. *)
Record Mapping := mkMapping {
  toolCallName : string;
  toolResult : option ToolResult;
  args : option ToolArgs;
  mapReasoning : option string
}.

(** One step as the SDK reports it to [onStepFinish]. *)
Record StepResult := mkStepResult {
  finishReason : string;
  text : string;
  toolCalls : list (ToolCall ToolArgs);
  toolResults : list ToolResult
}.

(** What one round of the SDK's generation does: the provider call fails, or
    a step is produced. *)
Inductive Generated :=
| ProviderFails (e : Thrown)
| Produces (event : StepResult).

Record LanguageModelUsage := mkLanguageModelUsage {
  inputTokens : option Z;
  outputTokens : option Z;
  reasoningTokens : option Z;
  cachedInputTokens : option Z
}.

(** Everything the handler asks of its surroundings.
    - [oauthMode]: [llmClient.type === "google-oauth"];
    - [hasLanguageModel]: [llmClient.getLanguageModel] is defined;
    - [builtinTools]: the result of [createAgentTools]; [mcpTools]: the
      constructor's tool set;
    - [mapToolResultToActions]: the imported action mapping
      (agent/utils/actionMapping);
    - [JSON_parse]: [JSON.parse] on the text of a tool call's arguments: the
      value it returns, as far as the handler reads it ([None] for [null]),
      or the [SyntaxError] it throws;
    - [createChatCompletion]: the client's answer at a step to the messages
      sent (OAuth backend);
    - [generation], [generatedText], [generatedUsage]: the steps the SDK's
      model produces, in order, and the text and usage of its final result;
    - [activePageUrl]: [(await awaitActivePage()).url()], read after the tool
      call at a position of a step; [initialPageUrl] the read of prepareAgent;
    - [now]: [Date.now()] when the [k]-th action is stamped; [startTime],
      [endTime]: the two reads around the run;
    - [missingLLMConfiguration]: the value of
      [new MissingLLMConfigurationError()] (types/public/sdkErrors). *)
Record World := mkWorld {
  oauthMode : bool;
  hasLanguageModel : bool;
  missingLLMConfiguration : Thrown;
  systemInstructions : option string;
  builtinTools : gmap string Tool.t;
  mcpTools : option (gmap string Tool.t);
  mapToolResultToActions : Mapping -> list AgentAction.t;
  JSON_parse : string -> Outcome (option ToolArgs);
  createChatCompletion : nat -> list ChatMessage -> Outcome LLMResponse;
  generation : list Generated;
  generatedText : string;
  generatedUsage : option LanguageModelUsage;
  initialPageUrl : string;
  activePageUrl : nat -> nat -> string;
  now : nat -> Z;
  startTime : Z;
  endTime : Z
}.

(** Calls to collaborators, in the order they are made.  Logger calls are
    left out: they never influence control flow. *)
Inductive Event :=
| CheckedPause (step : nat)
| OnStep (update : AgentStepUpdate.t)
| CalledModel (step : nat) (messages : list ChatMessage)
| GeneratedStep (step : nat)
| ExecutedTool (step pos : nat) (name : string).

(** The mutable data of one run: the [AgentState] object, the [stepNumber]
    counter of the loop (or of the step handler's closure), and the log. *)
Record Run := mkRun {
  state : AgentState.t;
  stepNumber : nat;
  log : list Event
}.

Definition onState (f : AgentState.t -> AgentState.t) (r : Run) : Run :=
  {| state := f (state r); stepNumber := stepNumber r; log := log r |}.

Definition logged (e : Event) (r : Run) : Run :=
  {| state := state r; stepNumber := stepNumber r; log := log r ++ [e] |}.

Definition nextStep (r : Run) : Run :=
  {| state := state r; stepNumber := S (stepNumber r); log := log r |}.

(** [AgentContext], the result of [prepareAgent]. *)
Record AgentContext := mkContext {
  options : AgentExecuteOptions;
  ctxMaxSteps : Z;
  systemPrompt : string;
  allTools : gmap string Tool.t;
  messages : list ChatMessage;
  ctxInitialPageUrl : string
}.


(** The fixed guidance of the default system prompt, after the task line. *)
Definition defaultGuidance : string :=
  newline +:+ newline
  +:+ "You have access to various browser automation tools. Use them step by step to complete the task."
  +:+ newline +:+ newline +:+ "IMPORTANT GUIDELINES:" +:+ newline
  +:+ "1. Always start by understanding the current page state" +:+ newline
  +:+ "2. Use the screenshot tool to verify page state when needed" +:+ newline
  +:+ "3. Use appropriate tools for each action" +:+ newline
  +:+ "4. When the task is complete, use the " +:+ quote +:+ "close" +:+ quote
  +:+ " tool with taskComplete: true" +:+ newline
  +:+ "5. If the task cannot be completed, use " +:+ quote +:+ "close" +:+ quote
  +:+ " with taskComplete: false" +:+ newline +:+ newline
  +:+ "TOOLS OVERVIEW:" +:+ newline
  +:+ "- screenshot: Take a PNG screenshot for quick visual context (use sparingly)" +:+ newline
  +:+ "- ariaTree: Get an accessibility (ARIA) hybrid tree for full page context" +:+ newline
  +:+ "- act: Perform a specific atomic action (click, type, etc.)" +:+ newline
  +:+ "- extract: Extract structured data" +:+ newline
  +:+ "- goto: Navigate to a URL" +:+ newline
  +:+ "- wait/navback/refresh: Control timing and navigation" +:+ newline
  +:+ "- scroll: Scroll the page x pixels up or down" +:+ newline +:+ newline
  +:+ "STRATEGY:" +:+ newline
  +:+ "- Prefer ariaTree to understand the page before acting; use screenshot for confirmation."
  +:+ newline
  +:+ "- Keep actions atomic and verify outcomes before proceeding.".

Definition buildSystemPrompt (executionInstruction : string)
    (systemInstructions : option string) : string :=
  match systemInstructions with
  | Some custom =>
      if Js.truthy custom then
        custom +:+ newline +:+ "Your current goal: " +:+ executionInstruction
        +:+ " when the task is complete, use the " +:+ quote +:+ "close"
        +:+ quote +:+ " tool with taskComplete: true"
      else
        "You are a web automation assistant using browser automation tools to accomplish the user's goal."
        +:+ newline +:+ newline +:+ "Your task: " +:+ executionInstruction
        +:+ defaultGuidance
  | None =>
      "You are a web automation assistant using browser automation tools to accomplish the user's goal."
      +:+ newline +:+ newline +:+ "Your task: " +:+ executionInstruction
      +:+ defaultGuidance
  end.

(** [options.maxSteps || 20]. *)
Definition effectiveMaxSteps (requested : option Js.Number) : Z :=
  match requested with
  | Some (Js.Num z) => if z =? 0 then 20 else z
  | Some Js.NaN => 20
  | None => 20
  end.

(** [{ ...tools, ...this.mcpTools }]: the later spread wins on a shared
    name. *)
Definition mergeTools (tools : gmap string Tool.t)
    (mcp : option (gmap string Tool.t)) : gmap string Tool.t :=
  match mcp with
  | Some extra => extra ∪ tools
  | None => tools
  end.

(** [prepareAgent], for an options object (a bare instruction string is the
    object [{instruction}]).  It throws when the SDK backend has no language
    model; the error is logged and rethrown. *)
Definition prepareAgent (w : World) (opts : AgentExecuteOptions)
  : Outcome AgentContext :=
  if negb (oauthMode w) && negb (hasLanguageModel w) then
    Threw (missingLLMConfiguration w)
  else
    Returned
      {| options := opts;
         ctxMaxSteps := effectiveMaxSteps (maxSteps opts);
         systemPrompt :=
           buildSystemPrompt (instruction opts) (systemInstructions w);
         allTools := mergeTools (builtinTools w) (mcpTools w);
         messages := [UserMessage (instruction opts)];
         ctxInitialPageUrl := initialPageUrl w |}.

(** [onStep(update)] when the callback is given. *)
Definition emit (opts : AgentExecuteOptions) (u : AgentStepUpdate.t)
    (r : Run) : Run :=
  if onStep opts then logged (OnStep u) r else r.

(** The loop [for (const action of mappedActions) { action.pageUrl = ...;
    action.timestamp = Date.now(); state.actions.push(action) }]. *)
Fixpoint pushStamped (w : World) (mapped : list AgentAction.t)
    (s : AgentState.t) : AgentState.t :=
  match mapped with
  | [] => s
  | a :: rest =>
      pushStamped w rest
        (AgentState.pushAction
           (AgentAction.stamp (AgentState.currentPageUrl s)
              (now w (length (AgentState.actions s))) a)
           s)
  end.

(** The final message a [close] call with a truthy [taskComplete] sets. *)
Definition closeMessage (collected : list string)
    (closeReasoning : option string) : string :=
  let reasoningText := Js.optOrElse closeReasoning "" in
  let allReasoning := Js.join " " collected in
  if Js.truthy reasoningText
  then Js.trim (allReasoning +:+ " " +:+ reasoningText)
  else Js.orElse allReasoning "Task completed successfully".

(** [args?.taskComplete] as a condition. *)
Definition taskCompleteTruthy (a : ToolArgs) : bool :=
  match taskComplete a with Some true => true | _ => false end.

(** [textContent || state.collectedReasoning.slice(-1)[0] || ""]. *)
Definition updateMessage (txt : string) (s : AgentState.t) : string :=
  Js.orElse txt
    (Js.optOrElse (Js.lastOf (AgentState.collectedReasoning s)) "").

(** [x || undefined] on a string. *)
Definition orUndefined (s : string) : option string :=
  if Js.truthy s then Some s else None.

Definition isClose (name : string) : bool := String.eqb name "close".

(** How a piece of the run ends: normally, or by a throw that leaves the
    mutated state behind. *)
Inductive Flow :=
| Continues (r : Run)
| Throws (e : Thrown) (r : Run).

(** [stepNumber++] and the step-started update, sent before anything else
    happens in the step. *)
Definition startStep (opts : AgentExecuteOptions) (r : Run) : Run :=
  let r1 := nextStep r in
  emit opts
    {| AgentStepUpdate.stepNumber := stepNumber r1;
       AgentStepUpdate.actions := [];
       AgentStepUpdate.message := "";
       AgentStepUpdate.completed := false;
       AgentStepUpdate.currentUrl := AgentState.currentPageUrl (state r1) |}
    r1.

(** [if (checkPauseState) { try { await checkPauseState() } catch ... }] up
    to the [catch]: what the check answered at step index [step], if it was
    asked. *)
Definition checkPause (opts : AgentExecuteOptions) (step : nat) (r : Run)
  : option Thrown * Run :=
  match checkPauseState opts with
  | Some check => (check step, logged (CheckedPause step) r)
  | None => (None, r)
  end.

(** [if (textContent) state.collectedReasoning.push(textContent)]. *)
Definition collectReasoning (textContent : string) (r : Run) : Run :=
  if Js.truthy textContent
  then onState (AgentState.pushReasoning textContent) r
  else r.

(** *** The step handler of the SDK backend ([createStepHandler]) *)

(** [mapToolResultToActions({toolCallName, toolResult, args, reasoning})]
    as the step handler calls it for the tool call at index [i], with
    [toolResult = event.toolResults?.[i]]. *)
Definition mappedBySdk (w : World) (event : StepResult) (i : nat)
    (toolCall : ToolCall ToolArgs) : list AgentAction.t :=
  mapToolResultToActions w
    {| toolCallName := toolName toolCall;
       toolResult := toolResults event !! i;
       args := Some (toolArgs toolCall);
       mapReasoning := orUndefined (text event) |}.

(** The body of the handler's [for] loop for the tool call at index [i]. *)
Definition handleToolCall (w : World) (event : StepResult) (i : nat)
    (toolCall : ToolCall ToolArgs) (s : AgentState.t) : AgentState.t :=
  let s1 :=
    if Js.truthy (text event)
    then AgentState.pushReasoning (text event) s else s in
  let s2 :=
    if isClose (toolName toolCall) then
      let s' := AgentState.setCompleted s1 in
      if taskCompleteTruthy (toolArgs toolCall)
      then AgentState.setFinalMessage
             (closeMessage (AgentState.collectedReasoning s')
                (reasoning (toolArgs toolCall))) s'
      else s'
    else s1 in
  pushStamped w (mappedBySdk w event i toolCall) s2.

Fixpoint handleToolCalls (w : World) (event : StepResult) (i : nat)
    (calls : list (ToolCall ToolArgs)) (s : AgentState.t) : AgentState.t :=
  match calls with
  | [] => s
  | toolCall :: rest =>
      handleToolCalls w event (S i) rest (handleToolCall w event i toolCall s)
  end.

(** What the handler does once the pause check has passed. *)
Definition handleStepBody (w : World) (opts : AgentExecuteOptions)
    (stepIndex : nat) (event : StepResult) (r : Run) : Run :=
  match toolCalls event with
  | [] => r
  | _ :: _ =>
      let r1 := onState (handleToolCalls w event 0 (toolCalls event)) r in
      let r2 :=
        onState (AgentState.setCurrentPageUrl (activePageUrl w stepIndex 0)) r1 in
      emit opts
        {| AgentStepUpdate.stepNumber := stepNumber r2;
           AgentStepUpdate.actions :=
             Js.sliceLast (length (toolCalls event))
               (AgentState.actions (state r2));
           AgentStepUpdate.message := updateMessage (text event) (state r2);
           AgentStepUpdate.completed := true;
           AgentStepUpdate.currentUrl := AgentState.currentPageUrl (state r2) |}
        r2
  end.

(** What leaves the [catch] of a pause check that rethrows: the rejection,
    unless the log line of the [catch], which reads [error.message], throws
    first. *)
Definition rethrown (error : Thrown) : Thrown :=
  match Js.readingMessage error with
  | Some typeError => typeError
  | None => error
  end.

(** The function [createStepHandler] returns, applied to one event.  The
    closure's counter is [stepNumber]; its value before the increment is the
    index of the step, which also numbers the pause checks. *)
Definition stepHandler (w : World) (opts : AgentExecuteOptions)
    (event : StepResult) (r : Run) : Flow :=
  let stepIndex := stepNumber r in
  match checkPause opts stepIndex (startStep opts r) with
  | (Some error, r') => Throws (rethrown error) r'
  | (None, r') => Continues (handleStepBody w opts stepIndex event r')
  end.

(** Modelled from the spec: [stepCountIs(n)], which the handler imports from
    the SDK (package "ai", not among the sources).  It is the stop condition
    "a configured maximum step count is reached" of 4.2: the number of steps
    taken so far equals [n]. *)
Definition stepCountIs (n : Z) (steps : list StepResult) : bool :=
  Z.of_nat (length steps) =? n.

(** [handleStop(result, maxSteps)]. *)
Definition handleStop (steps : list StepResult) (maxSteps : Z) : bool :=
  match last steps with
  | Some lastStep =>
      if existsb (fun tc => isClose (toolName tc)) (toolCalls lastStep)
      then true
      else stepCountIs maxSteps steps
  | None => stepCountIs maxSteps steps
  end.

(** Modelled from the spec: [llmClient.generateText] (llm/LLMClient.ts over the
    SDK's generation loop), the "iterate-until-stop mechanism" of 4.1 and 4.2:
    one model invocation per step, the step callback fired once per step, the
    stop predicate evaluated after every step on the steps so far; an error
    of the provider or of the callback ends the call by a throw.  The model's
    own steps are [script]; generation also ends when the model produces no
    further step. *)
Fixpoint generateText (stopWhen : list StepResult -> bool)
    (onStepFinish : StepResult -> Run -> Flow)
    (script : list Generated) (steps : list StepResult) (r : Run) : Flow :=
  match script with
  | [] => Continues r
  | g :: rest =>
      let r1 := logged (GeneratedStep (length steps)) r in
      match g with
      | ProviderFails e => Throws e r1
      | Produces event =>
          match onStepFinish event r1 with
          | Throws e r2 => Throws e r2
          | Continues r2 =>
              if stopWhen (steps ++ [event]) then Continues r2
              else generateText stopWhen onStepFinish rest (steps ++ [event]) r2
          end
      end
  end.

(** [consolidateMetricsAndResult]; the metrics update goes to the metrics
    sink and is not part of the result. *)
Definition consolidateMetricsAndResult (w : World) (s : AgentState.t)
  : AgentResult.t :=
  let finalMessage :=
    if Js.truthy (AgentState.finalMessage s) then AgentState.finalMessage s
    else
      Js.orElse (Js.trim (Js.join " " (AgentState.collectedReasoning s)))
        (Js.orElse (generatedText w) "") in
  let inferenceTimeMs := endTime w - startTime w in
  {| AgentResult.success := AgentState.completed s;
     AgentResult.message := Js.orElse finalMessage "Task execution completed";
     AgentResult.actions := AgentState.actions s;
     AgentResult.completed := AgentState.completed s;
     AgentResult.usage :=
       match generatedUsage w with
       | Some u =>
           Some {| AgentResult.input_tokens := default 0 (inputTokens u);
                   AgentResult.output_tokens := default 0 (outputTokens u);
                   AgentResult.reasoning_tokens := default 0 (reasoningTokens u);
                   AgentResult.cached_input_tokens :=
                     default 0 (cachedInputTokens u);
                   AgentResult.inference_time_ms := inferenceTimeMs |}
       | None => None
       end |}.

(** *** The OAuth backend ([executeWithCodeAssist]) *)

(** [JSON.parse(toolCall.function.arguments)]. *)
Definition parsedArguments (w : World) (toolCall : ChatToolCall)
  : Outcome (option ToolArgs) :=
  JSON_parse w (Js.textOfOptional (toolArgs toolCall)).

(** [mapToolResultToActions({toolCallName, toolResult, args, reasoning})]
    as the OAuth loop calls it, with [reasoning = textContent || undefined]. *)
Definition mappedByLoop (w : World) (textContent : string)
    (toolCall : ChatToolCall) (toolArgs : option ToolArgs)
    (result : ToolResult) : list AgentAction.t :=
  mapToolResultToActions w
    {| toolCallName := toolName toolCall;
       toolResult := Some result;
       args := toolArgs;
       mapReasoning := orUndefined textContent |}.

(** The [close] branch of the tool loop, up to its [break], for arguments
    that are not [null]. *)
Definition closeToolCall (w : World) (opts : AgentExecuteOptions)
    (textContent : string) (toolCall : ChatToolCall) (toolArgs : ToolArgs)
    (r : Run) : Run :=
  let r1 := onState AgentState.setCompleted r in
  let r2 :=
    onState
      (fun s =>
         AgentState.setFinalMessage
           (if taskCompleteTruthy toolArgs
            then closeMessage (AgentState.collectedReasoning s)
                   (reasoning toolArgs)
            else "Task could not be completed") s) r1 in
  let mappedActions :=
    mappedByLoop w textContent toolCall (Some toolArgs)
      (CloseAck (reasoning toolArgs)) in
  let r3 := onState (pushStamped w mappedActions) r2 in
  emit opts
    {| AgentStepUpdate.stepNumber := stepNumber r3;
       AgentStepUpdate.actions :=
         Js.sliceLast (length mappedActions) (AgentState.actions (state r3));
       AgentStepUpdate.message := updateMessage textContent (state r3);
       AgentStepUpdate.completed := true;
       AgentStepUpdate.currentUrl := AgentState.currentPageUrl (state r3) |}
    r3.

(** The [close] branch for arguments that parsed to [null]:
    [toolArgs?.taskComplete] is [undefined], so the state is completed and
    the final message is the one of a task given up; then the read of
    [toolArgs.reasoning] for the action mapping throws. *)
Definition closeWithNull (r : Run) : Run :=
  onState (AgentState.setFinalMessage "Task could not be completed")
    (onState AgentState.setCompleted r).

(** The [try] block for a tool that was found and whose [execute] returned
    [output]. *)
Definition toolReturned (w : World) (opts : AgentExecuteOptions)
    (step pos : nat) (textContent : string) (toolCall : ChatToolCall)
    (toolArgs : option ToolArgs) (output : string) (r : Run) : Run :=
  let mappedActions :=
    mappedByLoop w textContent toolCall toolArgs (ToolOutput output) in
  let r1 := onState (pushStamped w mappedActions) r in
  let r2 :=
    onState (AgentState.setCurrentPageUrl (activePageUrl w step pos)) r1 in
  emit opts
    {| AgentStepUpdate.stepNumber := stepNumber r2;
       AgentStepUpdate.actions :=
         Js.sliceLast (length mappedActions) (AgentState.actions (state r2));
       AgentStepUpdate.message := updateMessage textContent (state r2);
       AgentStepUpdate.completed := true;
       AgentStepUpdate.currentUrl := AgentState.currentPageUrl (state r2) |}
    r2.

(** The error payload for a name [allTools] has no tool of its own under.
    [allTools[toolName]] is then [undefined], and the loop reports an unknown
    tool, unless the name is one the object inherits from its prototype: then
    the lookup finds a function, and the call of its missing [execute] throws
    a [TypeError] inside the [try]. *)
Definition missingToolMessage (name : string) : string :=
  if Js.inherited name then "tool.execute is not a function"
  else "Unknown tool: " +:+ name.

(** How the tool loop of a step ends: it is left with the [toolResults]
    built, or a throw outside its [try] leaves it. *)
Inductive ToolsEnd :=
| Finished (r : Run) (toolResults : list ToolFeedback)
| Aborted (e : Thrown) (r : Run).

Definition toolsRun (t : ToolsEnd) : Run :=
  match t with Finished r _ => r | Aborted _ r => r end.

(** [for (const toolCall of toolCalls) { ... }]: the calls from position
    [pos] on, with the [toolResults] array built so far.  The arguments are
    parsed first, outside the [try]. *)
Fixpoint runToolCalls (w : World) (opts : AgentExecuteOptions)
    (tools : gmap string Tool.t) (step pos : nat) (textContent : string)
    (calls : list ChatToolCall) (r : Run) (results : list ToolFeedback)
  : ToolsEnd :=
  match calls with
  | [] => Finished r results
  | toolCall :: rest =>
      match parsedArguments w toolCall with
      | Threw syntaxError => Aborted syntaxError r
      | Returned toolArgs =>
          if isClose (toolName toolCall) then
            match toolArgs with
            | Some closeArgs =>
                Finished (closeToolCall w opts textContent toolCall closeArgs r)
                  (results ++ [SuccessPayload])
            | None =>
                Aborted (Js.typeErrorReadingOf "null" "reasoning")
                  (closeWithNull r)
            end
          else
            match tools !! toolName toolCall with
            | None =>
                runToolCalls w opts tools step (S pos) textContent rest r
                  (results
                     ++ [ErrorPayload (missingToolMessage (toolName toolCall))])
            | Some tool =>
                let r1 := logged (ExecutedTool step pos (toolName toolCall)) r in
                match Tool.execute tool step pos toolArgs with
                | Threw error =>
                    runToolCalls w opts tools step (S pos) textContent rest r1
                      (results ++ [ErrorPayload (Js.messageOf error)])
                | Returned output =>
                    runToolCalls w opts tools step (S pos) textContent rest
                      (toolReturned w opts step pos textContent toolCall
                         toolArgs output r1)
                      (results ++ [ResultPayload (ToolOutput output)])
                end
            end
      end
  end.

(** [totalUsage.x += response.usage.x || 0] for the three counters. *)
Definition addUsage (total : Usage) (u : option Usage) : Usage :=
  match u with
  | Some u =>
      {| prompt_tokens := prompt_tokens total + prompt_tokens u;
         completion_tokens := completion_tokens total + completion_tokens u;
         total_tokens := total_tokens total + total_tokens u |}
  | None => total
  end.

(** How the agent loop ends: it is left (by its condition or a [break]), or
    a throw leaves it: of the provider call, of the tool loop, or of the
    [catch] of the pause check. *)
Inductive LoopEnd :=
| Exited (r : Run) (chatMessages : list ChatMessage) (totalUsage : Usage)
| Failed (e : Thrown) (r : Run).

(** [for (let step = 0; step < maxSteps && !state.completed; step++)], seen
    from iteration [step] with [remaining = maxSteps - step] iterations to
    go. *)
Fixpoint agentLoop (w : World) (opts : AgentExecuteOptions)
    (tools : gmap string Tool.t) (remaining step : nat)
    (chatMessages : list ChatMessage) (totalUsage : Usage) (r : Run)
  : LoopEnd :=
  match remaining with
  | O => Exited r chatMessages totalUsage
  | S remaining' =>
      if AgentState.completed (state r) then Exited r chatMessages totalUsage
      else
        match checkPause opts step r with
        | (Some error, r0) =>
            (* the [catch] logs [error.message], then breaks *)
            match Js.readingMessage error with
            | Some typeError => Failed typeError r0
            | None => Exited r0 chatMessages totalUsage
            end
        | (None, r0) =>
            let r3 := logged (CalledModel step chatMessages) (startStep opts r0) in
            match createChatCompletion w step chatMessages with
            | Threw error => Failed error r3
            | Returned response =>
                let totalUsage' := addUsage totalUsage (usage response) in
                match head (choices response) with
                | None => Exited r3 chatMessages totalUsage'
                | Some choice =>
                    let toolCalls := tool_calls choice in
                    let textContent := Js.optOrElse (content choice) "" in
                    let r4 := collectReasoning textContent r3 in
                    match toolCalls with
                    | [] => Exited r4 chatMessages totalUsage'
                    | _ :: _ =>
                        let chat1 :=
                          chatMessages
                            ++ [AssistantMessage textContent toolCalls] in
                        match runToolCalls w opts tools step 0 textContent
                                toolCalls r4 [] with
                        | Aborted error r5 => Failed error r5
                        | Finished r5 toolResults =>
                            let chat2 :=
                              chat1 ++ [ToolResultsMessage toolResults] in
                            if AgentState.completed (state r5)
                            then Exited r5 chat2 totalUsage'
                            else agentLoop w opts tools remaining' (S step)
                                   chat2 totalUsage' r5
                        end
                    end
                end
            end
        end
  end.

(** [executeWithCodeAssist]: the loop, then the final result. *)
Definition executeWithCodeAssist (w : World) (ctx : AgentContext) (r : Run)
  : Outcome AgentResult.t * Run :=
  let chatMessages := SystemMessage (systemPrompt ctx) :: messages ctx in
  match agentLoop w (options ctx) (allTools ctx)
          (Z.to_nat (ctxMaxSteps ctx)) 0 chatMessages (mkUsage 0 0 0) r with
  | Failed e r' => (Threw e, r')
  | Exited r' _ totalUsage =>
      let s := state r' in
      let finalMessage :=
        if Js.truthy (AgentState.finalMessage s) then AgentState.finalMessage s
        else
          Js.orElse (Js.trim (Js.join " " (AgentState.collectedReasoning s)))
            "Task execution completed" in
      (Returned
         {| AgentResult.success := AgentState.completed s;
            AgentResult.message := finalMessage;
            AgentResult.actions := AgentState.actions s;
            AgentResult.completed := AgentState.completed s;
            AgentResult.usage :=
              Some {| AgentResult.input_tokens := prompt_tokens totalUsage;
                      AgentResult.output_tokens := completion_tokens totalUsage;
                      AgentResult.reasoning_tokens := 0;
                      AgentResult.cached_input_tokens := 0;
                      AgentResult.inference_time_ms := endTime w - startTime w |} |},
       r')
  end.

(** The call [execute] makes:
    [generateText({stopWhen: r => handleStop(r, maxSteps),
                   onStepFinish: createStepHandler(...), ...})]. *)
Definition generate (w : World) (opts : AgentExecuteOptions) (maxSteps : Z)
    (script : list Generated) (steps : list StepResult) (r : Run) : Flow :=
  generateText (fun steps => handleStop steps maxSteps) (stepHandler w opts)
    script steps r.

(** The fresh [state] object and counter [execute] starts from. *)
Definition initialRun (ctx : AgentContext) : Run :=
  {| state := AgentState.initial (ctxInitialPageUrl ctx);
     stepNumber := O; log := [] |}.

(** The body of the [try] block of [execute]. *)
Definition runAgent (w : World) (ctx : AgentContext) (r : Run)
  : Outcome AgentResult.t * Run :=
  if oauthMode w then executeWithCodeAssist w ctx r
  else
    match generate w (options ctx) (ctxMaxSteps ctx) (generation w) [] r with
    | Continues r' => (Returned (consolidateMetricsAndResult w (state r')), r')
    | Throws e r' => (Threw e, r')
    end.

(** [execute]: what it returns or throws, and the calls it made.  Only
    [prepareAgent] runs outside the [try]. *)
Definition execute (w : World) (opts : AgentExecuteOptions)
  : Outcome AgentResult.t * list Event :=
  match prepareAgent w opts with
  | Threw e => (Threw e, [])
  | Returned ctx =>
      match runAgent w ctx (initialRun ctx) with
      | (Returned result, r) => (Returned result, log r)
      | (Threw error, r) =>
          (Returned
             {| AgentResult.success := false;
                AgentResult.actions := AgentState.actions (state r);
                AgentResult.message :=
                  "Failed to execute task: " +:+ Js.messageOrString error;
                AgentResult.completed := false;
                AgentResult.usage := None |},
           log r)
      end
  end.

(** *** Readings of a run used to state its properties *)

(** The actions [pushStamped] appends: each mapped action stamped with the
    page URL and the clock read of its position in [state.actions]. *)
Fixpoint stampAll (w : World) (url : string) (k : nat)
    (mapped : list AgentAction.t) : list AgentAction.t :=
  match mapped with
  | [] => []
  | a :: rest =>
      AgentAction.stamp url (now w k) a :: stampAll w url (S k) rest
  end.

(** The number of model invocations in a log: provider calls of the OAuth
    loop and steps generated by the SDK. *)
Fixpoint modelCalls (evs : list Event) : nat :=
  match evs with
  | CalledModel _ _ :: rest => S (modelCalls rest)
  | GeneratedStep _ :: rest => S (modelCalls rest)
  | _ :: rest => modelCalls rest
  | [] => O
  end.

(** The updates delivered to [onStep], in order. *)
Fixpoint updates (evs : list Event) : list AgentStepUpdate.t :=
  match evs with
  | OnStep u :: rest => u :: updates rest
  | _ :: rest => updates rest
  | [] => []
  end.

(** The action lists carried by the completed updates of step [n]. *)
Definition completedUpdatesOf (n : nat) (evs : list Event)
  : list (list AgentAction.t) :=
  AgentStepUpdate.actions
    <$> filter (fun u => AgentStepUpdate.completed u = true
                         /\ AgentStepUpdate.stepNumber u = n)
          (updates evs).

Definition hasClose {A} (calls : list (ToolCall A)) : bool :=
  existsb (fun tc => isClose (toolName tc)) calls.

(** Whether the provider's answer at [step] to [messages] carries a [close]
    call. *)
Definition answersClose (w : World) (step : nat) (messages : list ChatMessage)
  : bool :=
  match createChatCompletion w step messages with
  | Returned response =>
      match head (choices response) with
      | Some choice => hasClose (tool_calls choice)
      | None => false
      end
  | Threw _ => false
  end.

(** Whether the tool loop gets to the [close] call of an answer and through
    it: the arguments of every call before it parse, and those of the
    [close] call parse to a value that is not [null]. *)
Fixpoint reachesClose (w : World) (calls : list ChatToolCall) : bool :=
  match calls with
  | [] => false
  | toolCall :: rest =>
      match parsedArguments w toolCall with
      | Threw _ => false
      | Returned toolArgs =>
          if isClose (toolName toolCall)
          then match toolArgs with Some _ => true | None => false end
          else reachesClose w rest
      end
  end.

(** Whether the provider's answer at [step] to [messages] carries a [close]
    call that the tool loop reaches. *)
Definition closeReached (w : World) (step : nat) (messages : list ChatMessage)
  : bool :=
  match createChatCompletion w step messages with
  | Returned response =>
      match head (choices response) with
      | Some choice => reachesClose w (tool_calls choice)
      | None => false
      end
  | Threw _ => false
  end.

(** Whether the pause check, if there is one, rejects at step index [k]. *)
Definition pauseRejects (opts : AgentExecuteOptions) (k : nat) : option Thrown :=
  match checkPauseState opts with
  | Some check => check k
  | None => None
  end.

(** Events that are neither a model invocation nor a pause check: updates
    sent to [onStep] and tool executions. *)
Definition quiet (e : Event) : Prop :=
  match e with
  | OnStep _ | ExecutedTool _ _ _ => True
  | _ => False
  end.

(** [r'] has the log of [r] followed by events that all satisfy [P]. *)
Definition extendsBy (P : Event -> Prop) (r r' : Run) : Prop :=
  exists evs, log r' = log r ++ evs /\ Forall P evs.

Definition runOf (e : LoopEnd) : Run :=
  match e with Exited r _ _ => r | Failed _ r => r end.


(** The events one iteration at [step] with messages [chat] can add. *)
Definition ofIteration (step : nat) (chat : list ChatMessage) (e : Event)
  : Prop :=
  quiet e \/ e = CheckedPause step \/ e = CalledModel step chat.

(** The events the step handler can add at step index [k]. *)
Definition ofHandler (k : nat) (e : Event) : Prop :=
  quiet e \/ e = CheckedPause k.



Definition flowRun (f : Flow) : Run :=
  match f with Continues r => r | Throws _ r => r end.

(** The agent state once the first [k] steps of a run have finished: the
    OAuth loop bounded to [k] iterations, or the SDK generation cut after
    [k] steps. *)
Definition stateAfterSteps (w : World) (ctx : AgentContext) (k : nat)
  : AgentState.t :=
  if oauthMode w then
    state (runOf (agentLoop w (options ctx) (allTools ctx) k 0
                    (SystemMessage (systemPrompt ctx) :: messages ctx)
                    (mkUsage 0 0 0) (initialRun ctx)))
  else
    state (flowRun (generate w (options ctx) (ctxMaxSteps ctx)
                      (take k (generation w)) [] (initialRun ctx))).

(** *** convertToolsToLLMFormat *)

(** The schema of a tool without [inputSchema]:
    [{type: 'object', properties: {}, additionalProperties: false}]. *)
Definition emptyObjectSchema : list (string * Js.Value) :=
  [("type", Js.Str "object"); ("properties", Js.Obj []);
   ("additionalProperties", Js.Bool false)].

Section Convert.

(** [zodToJsonSchema(tool.inputSchema, {target: 'openApi3'})] as the members
    of the object it returns, for the tool of a given name; [None] when the
    tool has no [inputSchema]. *)
Variable jsonSchemaOf : string -> Tool.t -> option (list (string * Js.Value)).

(** The callback of the [map]: one [LLMTool] literal. *)
Definition convertTool (name : string) (tool : Tool.t) : Js.Value :=
  let jsonSchema := default emptyObjectSchema (jsonSchemaOf name tool) in
  let finalParameters := Js.setMember "type" (Js.Str "object") jsonSchema in
  Js.Obj [("type", Js.Str "function");
          ("name", Js.Str name);
          ("description", Js.Str (Js.orElse (Tool.description tool) ""));
          ("parameters", Js.Obj finalParameters)].

(** [Object.entries(tools).map(...)]; the entries come in the order of the
    map, which no statement below depends on. *)
Definition convertToolsToLLMFormat (tools : gmap string Tool.t)
  : list Js.Value :=
  (fun entry => convertTool (fst entry) (snd entry)) <$> map_to_list tools.

End Convert.

(** *** Single effects of a run

    What the loops do to a [Run], one effect at a time, with what is known
    at the point where it happens.  [tools] is the merged tool set. *)

Inductive Effect (w : World) (opts : AgentExecuteOptions)
    (tools : gmap string Tool.t) (r : Run) : Run -> Prop :=
| effect_check (k : nat) : Effect w opts tools r (logged (CheckedPause k) r)
| effect_start : Effect w opts tools r (startStep opts r)
| effect_called (step : nat) (chat : list ChatMessage) :
    Effect w opts tools r (logged (CalledModel step chat) r)
| effect_generated (k : nat) :
    Effect w opts tools r (logged (GeneratedStep k) r)
| effect_executed (step pos : nat) (name : string) :
    isClose name = false ->
    is_Some (tools !! name) ->
    Effect w opts tools r (logged (ExecutedTool step pos name) r)
| effect_reasoning (txt : string) :
    Effect w opts tools r (onState (AgentState.pushReasoning txt) r)
| effect_completed :
    Effect w opts tools r (onState AgentState.setCompleted r)
| effect_final (m : string) :
    Effect w opts tools r (onState (AgentState.setFinalMessage m) r)
| effect_url (url : string) :
    Effect w opts tools r (onState (AgentState.setCurrentPageUrl url) r)
| effect_push (mapped : list AgentAction.t) :
    Effect w opts tools r (onState (pushStamped w mapped) r)
| effect_update (u : AgentStepUpdate.t) (n : nat) :
    AgentStepUpdate.stepNumber u = stepNumber r ->
    AgentStepUpdate.completed u = true ->
    AgentStepUpdate.actions u
    = Js.sliceLast n (AgentState.actions (state r)) ->
    Effect w opts tools r (emit opts u r).

(** [r'] is reached from [r] by a sequence of effects. *)
Definition reaches (w : World) (opts : AgentExecuteOptions)
    (tools : gmap string Tool.t) : Run -> Run -> Prop :=
  rtc (Effect w opts tools).

(** *** Further readings of a run *)

(** An action carries the stamp of the loop: a page URL and a time. *)
Definition stamped (a : AgentAction.t) : Prop :=
  is_Some (AgentAction.pageUrl a) /\ is_Some (AgentAction.timestamp a).

(** The actions the updates sent so far carry are actions of the state. *)
Definition updatesWithin (r : Run) : Prop :=
  forall u a, In (OnStep u) (log r) -> In a (AgentStepUpdate.actions u) ->
              In a (AgentState.actions (state r)).

(** The numbering of a sequence of updates when [n] steps were started
    before it: a step-started update carries [n + 1] and starts that step, a
    step-completed update carries the number of the step started last. *)
Fixpoint numberedFrom (n : nat) (us : list AgentStepUpdate.t) : bool :=
  match us with
  | [] => true
  | u :: rest =>
      if AgentStepUpdate.completed u
      then (AgentStepUpdate.stepNumber u =? n)%nat && numberedFrom n rest
      else (AgentStepUpdate.stepNumber u =? S n)%nat
           && numberedFrom (S n) rest
  end.

(** How many of the updates are step-started updates. *)
Definition startedCount (us : list AgentStepUpdate.t) : nat :=
  length (filter (fun u => AgentStepUpdate.completed u = false) us).

(** The updates sent so far are numbered as above, and the step counter is
    the number of steps started. *)
Definition numbered (opts : AgentExecuteOptions) (r : Run) : Prop :=
  numberedFrom 0 (updates (log r)) = true
  /\ if onStep opts then stepNumber r = startedCount (updates (log r))
     else updates (log r) = [].

(** An executed tool is a tool of the set, and is not [close]. *)
Definition executesKnownTool (tools : gmap string Tool.t) (e : Event) : Prop :=
  match e with
  | ExecutedTool _ _ name => isClose name = false /\ is_Some (tools !! name)
  | _ => True
  end.

(** Events other than a model call of the OAuth loop. *)
Definition silent (e : Event) : Prop :=
  match e with CalledModel _ _ => False | _ => True end.








(** The usage the provider reported in its answers to the model calls of a
    log, added to [total]. *)
Definition callsUsage (w : World) (evs : list Event) (total : Usage) : Usage :=
  fold_left
    (fun t e =>
       match e with
       | CalledModel k msgs =>
           match createChatCompletion w k msgs with
           | Returned response => addUsage t (usage response)
           | Threw _ => t
           end
       | _ => t
       end)
    evs total.

End Handler.

(** ** V3.agent(...).execute: the cache life cycle around a run *)

Module V3.

(** [AgentCacheContext] and [AgentReplayStep] are opaque here. *)
Record AgentCacheContext := mkCacheContext { cacheKey : string }.
Record AgentReplayStep := mkReplayStep { replayStep : string }.

(** The [AgentConfig] fields [execute] branches on. *)
Record AgentConfig := mkConfig {
  cua : bool;
  stream : bool;
  integrations : bool;
  tools : bool
}.

(** The agent cache (cache/AgentCache.ts) as [execute] sees it: what each of
    its methods answers.  [endRecording] is the list of steps recorded during
    the run; [store] answers [None] when it resolves. *)
Record AgentCache := mkAgentCache {
  shouldAttemptCache : string -> bool;
  prepareContext : string -> Outcome (option AgentCacheContext);
  tryReplay : AgentCacheContext -> Outcome (option AgentResult.t);
  tryReplayAsStream : AgentCacheContext -> Outcome bool;
  endRecording : list AgentReplayStep;
  store : AgentCacheContext -> list AgentReplayStep -> AgentResult.t
          -> option Thrown
}.

(** The orchestrator instance: its flags, its cache, the world of the tools
    handler, the answers of the two runners whose code lives elsewhere (the
    hosted API client and the CUA handler), whether [resolveModel] (modelUtils,
    not among the sources) finds the model of a configuration, or else that
    of the instance, to be a CUA model, and the errors [agent] throws. *)
Record Instance := mkInstance {
  experimental : bool;
  apiClient : bool;
  agentCache : AgentCache;
  handlerWorld : Handler.World;
  agentExecute : Outcome AgentResult.t;
  cuaExecute : Outcome AgentResult.t;
  isCua : AgentConfig -> bool;
  experimentalNotConfigured : string -> Thrown;
  invalidArgument : string -> Thrown;
  cuaModelRequired : Thrown
}.

Inductive Event :=
| TriedReplay (c : AgentCacheContext)
| TriedReplayAsStream (c : AgentCacheContext)
| BeganRecording
| EndedRecording
| DiscardedRecording
| Stored (c : AgentCacheContext) (steps : list AgentReplayStep)
    (result : AgentResult.t)
| CalledApi
| CalledCuaHandler
| CalledHandlerStream
| WrappedStreamForCaching (c : AgentCacheContext)
| InHandler (e : Handler.Event).

(** What [execute] resolves to: a result, or a stream (replayed from the
    cache or live). *)
Inductive Resolved :=
| Result (r : AgentResult.t)
| Streaming (replayed : bool).

(** The cache context both paths compute before running: [null] unless
    [shouldAttemptCache] accepts the trimmed instruction. *)
Definition cacheContextFor (v : Instance) (opts : AgentExecuteOptions)
  : Outcome (option AgentCacheContext) :=
  let instruction := Js.trim (instruction opts) in
  if shouldAttemptCache (agentCache v) instruction
  then prepareContext (agentCache v) instruction
  else Returned None.

(** The message of the error for a CUA agent that is asked to stream. *)
Definition streamingWithCua : string :=
  "Streaming is not supported with CUA (Computer Use Agent) mode. Remove either 'stream: true' or 'cua: true' from your agent config.".

(** The guards a configuration passes before a run starts.  For CUA:
    those of [agent(config)] itself, in their order (no streaming; no
    integrations and no custom tools without the experimental flag; a CUA
    model), then the inline check of its [execute].  For the tools agent:
    that of [prepareAgentExecution]. *)
Definition experimentalGuard (v : Instance) (config : AgentConfig)
  : option Thrown :=
  if cua config then
    if stream config then Some (invalidArgument v streamingWithCua)
    else if (integrations config || tools config) && negb (experimental v)
    then Some (experimentalNotConfigured v "MCP integrations and custom tools")
    else if negb (isCua v config) then Some (cuaModelRequired v)
    else if integrations config && negb (experimental v)
    then Some (experimentalNotConfigured v "MCP integrations")
    else None
  else
    if (integrations config || tools config) && negb (experimental v)
    then Some (experimentalNotConfigured v "MCP integrations and custom tools")
    else None.

(** The runner inside the [try]: the API client when there is one and the
    instance is not experimental, else the handler of the chosen kind. *)
Definition runHandler (v : Instance) (config : AgentConfig)
    (opts : AgentExecuteOptions) : Outcome AgentResult.t * list Event :=
  if apiClient v && negb (experimental v) then (agentExecute v, [CalledApi])
  else if cua config then (cuaExecute v, [CalledCuaHandler])
  else
    let '(res, evs) := Handler.execute (handlerWorld v) opts in
    (res, InHandler <$> evs).

(** From [let agentSteps = []] to the end of [execute], for a cache miss or
    no cache context. *)
Definition recordAndRun (v : Instance) (config : AgentConfig)
    (opts : AgentExecuteOptions) (cacheContext : option AgentCacheContext)
  : Outcome Resolved * list Event :=
  let recording := bool_decide (is_Some cacheContext) in
  let begun := if recording then [BeganRecording] else [] in
  let discard := if recording then [DiscardedRecording] else [] in
  match runHandler v config opts with
  | (Threw err, evs) =>
      (* catch: discard, rethrow; finally: discard *)
      (Threw err, begun ++ evs ++ discard ++ discard)
  | (Returned result, evs) =>
      let agentSteps := if recording then endRecording (agentCache v) else [] in
      let ended := if recording then [EndedRecording] else [] in
      match cacheContext with
      | Some c =>
          if AgentResult.success result && negb (length agentSteps =? 0)%nat
          then
            match store (agentCache v) c agentSteps result with
            | None =>
                (Returned (Result result),
                 begun ++ evs ++ ended ++ [Stored c agentSteps result]
                   ++ discard)
            | Some err =>
                (Threw err,
                 begun ++ evs ++ ended ++ [Stored c agentSteps result]
                   ++ discard ++ discard)
            end
          else (Returned (Result result), begun ++ evs ++ ended ++ discard)
      | None => (Returned (Result result), begun ++ evs ++ ended ++ discard)
      end
  end.

(** The non-streaming [execute] of both agents, behind the guards of the
    configuration. *)
Definition executeNonStreaming (v : Instance) (config : AgentConfig)
    (opts : AgentExecuteOptions) : Outcome Resolved * list Event :=
  match experimentalGuard v config with
  | Some err => (Threw err, [])
  | None =>
      match cacheContextFor v opts with
      | Threw err => (Threw err, [])
      | Returned None => recordAndRun v config opts None
      | Returned (Some c) =>
          match tryReplay (agentCache v) c with
          | Threw err => (Threw err, [TriedReplay c])
          | Returned (Some replayed) =>
              (Returned (Result replayed), [TriedReplay c])
          | Returned None =>
              let '(res, evs) := recordAndRun v config opts (Some c) in
              (res, TriedReplay c :: evs)
          end
      end
  end.

(** The streaming [execute] of the tools agent.  The stream itself and the
    wrapper that caches it belong to the handler and to the agent cache. *)
Definition executeStreaming (v : Instance) (config : AgentConfig)
    (opts : AgentExecuteOptions) : Outcome Resolved * list Event :=
  if negb (experimental v)
  then (Threw (experimentalNotConfigured v "Agent streaming"), [])
  else
    match experimentalGuard v config with
    | Some err => (Threw err, [])
    | None =>
        match cacheContextFor v opts with
        | Threw err => (Threw err, [])
        | Returned None => (Returned (Streaming false), [CalledHandlerStream])
        | Returned (Some c) =>
            match tryReplayAsStream (agentCache v) c with
            | Threw err => (Threw err, [TriedReplayAsStream c])
            | Returned true =>
                (Returned (Streaming true), [TriedReplayAsStream c])
            | Returned false =>
                (Returned (Streaming false),
                 [TriedReplayAsStream c; CalledHandlerStream;
                  WrappedStreamForCaching c])
            end
        end
    end.

(** [agent(config).execute(instructionOrOptions)].  A CUA agent never
    streams: [agent] itself rejects that configuration, which is the first
    of the guards of [executeNonStreaming]. *)
Definition execute (v : Instance) (config : AgentConfig)
    (opts : AgentExecuteOptions) : Outcome Resolved * list Event :=
  if negb (cua config) && stream config
  then executeStreaming v config opts
  else executeNonStreaming v config opts.

(** The events that start work beyond a cache lookup. *)
Definition startsRun (e : Event) : bool :=
  match e with
  | TriedReplay _ | TriedReplayAsStream _ => false
  | _ => true
  end.

(** *** Further readings of an execution *)

(** The events of the runner: the API client, the CUA handler, or the tools
    handler at work. *)
Definition ofRunner (e : Event) : bool :=
  match e with
  | CalledApi | CalledCuaHandler | InHandler _ => true
  | _ => false
  end.

(** What [execute] makes of the runner's outcome when it hands it on. *)
Definition resolved (o : Outcome AgentResult.t) : Outcome Resolved :=
  match o with
  | Returned result => Returned (Result result)
  | Threw err => Threw err
  end.

End V3.

(** ** V3.act and V3.close *)

Module V3Methods.

(** [ActResult] as far as [act] reads it: [success], and [actions] when it
    is an array. *)
Record ActResult := mkActResult {
  success : bool;
  actions : option (list string);
  actionDescription : string
}.

(** What [act] is called with: an instruction string, an object with a
    [selector] member (an observe result), or anything else. *)
Inductive ActInput :=
| Instruction (text : string)
| ObserveResultInput (selector : string)
| OtherInput.

(** [isObserveResult(v)]: an object with a [selector] member. *)
Definition isObserveResult (input : ActInput) : bool :=
  match input with ObserveResultInput _ => true | _ => false end.

Record ActCacheContext := mkActCacheContext { actCacheKey : string }.

(** The [parameters] of a history entry of [act]: [{observeResult}], or
    [{instruction, variables, timeout}] with [cacheHit: true] on a replay. *)
Inductive HistoryParameters :=
| FromObserveResult (selector : string)
| FromInstruction (instruction : string) (cacheHit : bool).

Record HistoryEntry := mkHistoryEntry {
  method : string;
  parameters : HistoryParameters;
  result : option ActResult;
  timestamp : string
}.

(** What [act] asks of the instance and of its collaborators.
    - [hasActHandler]: [init] has set the handlers;
    - [resolvePage]: [this.resolvePage(options?.page)];
    - [isAgentReplayRecording], [actCacheEnabled], [prepareContext],
      [tryReplay], [store]: the agent cache's recording flag and the act
      cache (cache/ActCache.ts); [store] answers [None] when it resolves;
    - [apiAct]: [apiClient.act]; [handlerAct] and
      [handlerActFromObserveResult]: the two calls of the act handler; each
      of the three includes the evaluation of its arguments
      ([mainFrameId()], [resolveLlmClient(...)]);
    - [isoNow]: [new Date().toISOString()] when the history has a given
      length;
    - [notInitialized], [invalidArgument]: the values of
      [new StagehandNotInitializedError(...)] and
      [new StagehandInvalidArgumentError(...)]. *)
Record World := mkWorld {
  hasActHandler : bool;
  hasApiClient : bool;
  resolvePage : Outcome unit;
  isAgentReplayRecording : bool;
  actCacheEnabled : bool;
  prepareContext : string -> Outcome (option ActCacheContext);
  tryReplay : ActCacheContext -> Outcome (option ActResult);
  store : ActCacheContext -> ActResult -> option Thrown;
  apiAct : ActInput -> Outcome ActResult;
  handlerAct : string -> Outcome ActResult;
  handlerActFromObserveResult : string -> Outcome ActResult;
  isoNow : nat -> string;
  notInitialized : string -> Thrown;
  invalidArgument : string -> Thrown
}.

(** Calls to collaborators, in order. *)
Inductive Event :=
| ResolvedPage
| PreparedContext (instruction : string)
| TriedReplay (c : ActCacheContext)
| CalledApi (input : ActInput)
| CalledHandler (instruction : string)
| CalledHandlerFromObserveResult (selector : string)
| Stored (c : ActCacheContext) (r : ActResult).

(** [addToHistory(method, parameters, result)]. *)
Definition addToHistory (w : World) (method : string)
    (parameters : HistoryParameters) (result : ActResult)
    (history : list HistoryEntry) : list HistoryEntry :=
  history ++ [mkHistoryEntry method parameters (Some result)
                (isoNow w (length history))].

(** How the cache prelude of [act] ends: with a replayed result, with the
    cache context to store under (or none), or by a throw. *)
Inductive Lookup :=
| Hit (cached : ActResult)
| Miss (actCacheContext : option ActCacheContext)
| LookupThrew (e : Thrown).

(** From [const canUseCache = ...] to the end of [if (canUseCache)], for an
    instruction string. *)
Definition lookupCache (w : World) (input : string) : Lookup * list Event :=
  if negb (isAgentReplayRecording w) && actCacheEnabled w then
    match prepareContext w input with
    | Threw e => (LookupThrew e, [PreparedContext input])
    | Returned None => (Miss None, [PreparedContext input])
    | Returned (Some c) =>
        match tryReplay w c with
        | Threw e => (LookupThrew e, [PreparedContext input; TriedReplay c])
        | Returned (Some cachedResult) =>
            (Hit cachedResult, [PreparedContext input; TriedReplay c])
        | Returned None =>
            (Miss (Some c), [PreparedContext input; TriedReplay c])
        end
    end
  else (Miss None, []).

(** [actResult.success && Array.isArray(actResult.actions)
     && actResult.actions.length > 0]. *)
Definition worthStoring (r : ActResult) : bool :=
  success r
  && match actions r with
     | Some (_ :: _) => true
     | _ => false
     end.

Definition instructionRequired : string :=
  "act(): instruction string is required unless passing an Action".

(** [act(input, options)]: what it returns or throws, the history after it,
    and the calls made. *)
Definition act (w : World) (input : ActInput) (history : list HistoryEntry)
  : Outcome ActResult * list HistoryEntry * list Event :=
  if negb (hasActHandler w) then
    (Threw (notInitialized w "act()"), history, [])
  else
    match input with
    | ObserveResultInput selector =>
        match resolvePage w with
        | Threw e => (Threw e, history, [ResolvedPage])
        | Returned _ =>
            let '(answer, call) :=
              if hasApiClient w then (apiAct w input, CalledApi input)
              else (handlerActFromObserveResult w selector,
                    CalledHandlerFromObserveResult selector) in
            match answer with
            | Threw e => (Threw e, history, [ResolvedPage; call])
            | Returned actResult =>
                (Returned actResult,
                 addToHistory w "act" (FromObserveResult selector) actResult
                   history,
                 [ResolvedPage; call])
            end
        end
    | OtherInput => (Threw (invalidArgument w instructionRequired), history, [])
    | Instruction text =>
        if negb (Js.truthy (Js.trim text)) then
          (Threw (invalidArgument w instructionRequired), history, [])
        else
          match resolvePage w with
          | Threw e => (Threw e, history, [ResolvedPage])
          | Returned _ =>
              match lookupCache w text with
              | (LookupThrew e, evs) => (Threw e, history, ResolvedPage :: evs)
              | (Hit cachedResult, evs) =>
                  (Returned cachedResult,
                   addToHistory w "act" (FromInstruction text true)
                     cachedResult history,
                   ResolvedPage :: evs)
              | (Miss actCacheContext, evs) =>
                  let '(answer, call) :=
                    if hasApiClient w then (apiAct w input, CalledApi input)
                    else (handlerAct w text, CalledHandler text) in
                  match answer with
                  | Threw e => (Threw e, history, ResolvedPage :: evs ++ [call])
                  | Returned actResult =>
                      let history' :=
                        addToHistory w "act" (FromInstruction text false)
                          actResult history in
                      match actCacheContext with
                      | Some c =>
                          if worthStoring actResult then
                            match store w c actResult with
                            | Some e =>
                                (Threw e, history',
                                 ResolvedPage
                                   :: evs ++ [call; Stored c actResult])
                            | None =>
                                (Returned actResult, history',
                                 ResolvedPage
                                   :: evs ++ [call; Stored c actResult])
                            end
                          else
                            (Returned actResult, history',
                             ResolvedPage :: evs ++ [call])
                      | None =>
                          (Returned actResult, history',
                           ResolvedPage :: evs ++ [call])
                      end
                  end
              end
          end
    end.

(** *** close *)

(** [InitState]: its [kind], and for a local browser what [close] reads of
    the profile directory. *)
Inductive InitState :=
| UNINITIALIZED
| LOCAL (createdTempProfile preserveUserDataDir : bool)
    (userDataDir : option string)
| BROWSERBASE.

(** The fields of the instance [close] reads and writes: [state], whether
    [ctx] is set, [_isClosing], and whether the instance is in
    [V3._instances]. *)
Record Instance := mkInstance {
  state : InitState;
  hasContext : bool;
  isClosing : bool;
  registered : bool
}.

(** What the resources answer when [close] lets go of them; [None] is a
    call that returns.  [offTransportClosed] stands for the optional call
    [conn.offTransportClosed?.(...)], which returns when the connection has
    no such method. *)
Record Resources := mkResources {
  apiClient : bool;
  apiEnd : option Thrown;
  offTransportClosed : option Thrown;
  ctxClose : option Thrown;
  chromeKill : option Thrown;
  rmSync : option Thrown;
  unbindInstanceLogger : option Thrown
}.

(** Whether a call threw. *)
Definition failed (answer : option Thrown) : bool :=
  match answer with Some _ => true | None => false end.

(** The steps of the cleanup, each with whether its call threw. *)
Inductive Cleanup :=
| EndedApi
| UnhookedTransport (threw : bool)
| ClosedContext (threw : bool)
| KilledChrome (threw : bool)
| RemovedProfile (dir : string) (threw : bool)
| UnboundLogger (threw : bool).

(** The cleanup of a local browser: [chrome.kill()], then [fs.rmSync] of
    the profile directory when it was a temporary one that is not to be
    kept; each in a [try] with an empty [catch]. *)
Definition localCleanup (res : Resources) (s : InitState) : list Cleanup :=
  match s with
  | LOCAL createdTempProfile preserveUserDataDir userDataDir =>
      KilledChrome (failed (chromeKill res))
        :: match userDataDir with
           | Some dir =>
               if createdTempProfile && negb preserveUserDataDir
                  && Js.truthy dir
               then [RemovedProfile dir (failed (rmSync res))] else []
           | None => []
           end
  | _ => []
  end.

(** [close(opts)].  [apiClient.end()] is awaited first, outside of any
    [try]; then, unless a close is under way and this one is not forced,
    the transport handler is unhooked and the context closed when there is
    a context, a local browser is cleaned up, and the [finally] block
    resets the instance.  Every call after the first is in a [try] with an
    empty [catch]. *)
Definition close (res : Resources) (force : bool) (v : Instance)
  : Outcome unit * Instance * list Cleanup :=
  let ended := if apiClient res then [EndedApi] else [] in
  match (if apiClient res then apiEnd res else None) with
  | Some e => (Threw e, v, ended)
  | None =>
      if isClosing v && negb force then (Returned tt, v, ended)
      else
        (Returned tt,
         {| state := UNINITIALIZED; hasContext := false; isClosing := false;
            registered := false |},
         ended
           ++ (if hasContext v
               then [UnhookedTransport (failed (offTransportClosed res));
                     ClosedContext (failed (ctxClose res))]
               else [])
           ++ localCleanup res (state v)
           ++ [UnboundLogger (failed (unbindInstanceLogger res))])
  end.

(** [_immediateShutdown(reason)]: a forced [close] whose throw is
    swallowed. *)
Definition immediateShutdown (res : Resources) (v : Instance)
  : Instance * list Cleanup :=
  let '(_, v', evs) := close res true v in (v', evs).

(** The cleanup steps that touch the browser or the disk. *)
Definition releases (c : Cleanup) : bool :=
  match c with
  | EndedApi | UnboundLogger _ => false
  | _ => true
  end.

(** The instance as [close] leaves it. *)
Definition closed : Instance :=
  {| state := UNINITIALIZED; hasContext := false; isClosing := false;
     registered := false |}.

(** No step of a cleanup touched the browser or the disk. *)
Definition releasesNothing (evs : list Cleanup) : Prop :=
  Forall (fun c => releases c = false) evs.

(** The two ways [close] ends before its [try]: [apiClient.end()] throws, or
    a close is under way and this one is not forced. *)
Definition refused (res : Resources) (force : bool) (v : Instance) : bool :=
  (apiClient res && failed (apiEnd res)) || (isClosing v && negb force).

(** [history'] is [history] with one more entry, an [act] entry holding
    [r]. *)
Definition recorded (w : World) (history : list HistoryEntry)
    (r : ActResult) (history' : list HistoryEntry) : Prop :=
  exists params,
    history' = history ++ [mkHistoryEntry "act" params (Some r)
                             (isoNow w (length history))].

End V3Methods.

(** ** V3.updateMetrics: the usage counters of an instance *)

Module Metrics.

(** The counters are numbers, that is doubles.  They count tokens and
    milliseconds, so the values here are the doubles that are integers, each
    given as the integer it is.  A double holds every integer up to 2^53 in
    absolute value; beyond that it has 53 significant bits, and a sum is
    rounded to the nearest such value, ties to the even significand.  (Sums
    that leave the range of the doubles, and fractions, are left out.) *)
Definition roundToDouble (z : Z) : Z :=
  let a := Z.abs z in
  if a <=? 2 ^ 53 then z
  else
    let e := Z.log2 a - 52 in
    let q := a / 2 ^ e in
    let r := a mod 2 ^ e in
    let half := 2 ^ (e - 1) in
    let q' :=
      if r <? half then q
      else if half <? r then q + 1
      else if Z.even q then q else q + 1 in
    Z.sgn z * (q' * 2 ^ e).

(** [x + y] on such numbers. *)
Definition plus (x y : Z) : Z := roundToDouble (x + y).

(** The five counters kept per function and in total.  The source keeps
    them as 25 flat fields of [StagehandMetrics]; [actPromptTokens] is
    [promptTokens (act m)], and so on. *)
Record Counters := mkCounters {
  promptTokens : Z;
  completionTokens : Z;
  reasoningTokens : Z;
  cachedInputTokens : Z;
  inferenceTimeMs : Z
}.

Record StagehandMetrics := mkMetrics {
  act : Counters;
  extract : Counters;
  observe : Counters;
  agent : Counters;
  total : Counters
}.

(** [V3FunctionName] as the [switch] of [updateMetrics] sees it: the four
    names it has a case for, and any other value, for which no case runs. *)
Inductive V3FunctionName :=
| ACT
| EXTRACT
| OBSERVE
| AGENT
| OtherFunction.

Definition zero : Counters := mkCounters 0 0 0 0 0.

(** The initial value of [stagehandMetrics]. *)
Definition initial : StagehandMetrics := mkMetrics zero zero zero zero zero.

(** The five [+=] of one case. *)
Definition add (c inc : Counters) : Counters :=
  {| promptTokens := plus (promptTokens c) (promptTokens inc);
     completionTokens := plus (completionTokens c) (completionTokens inc);
     reasoningTokens := plus (reasoningTokens c) (reasoningTokens inc);
     cachedInputTokens := plus (cachedInputTokens c) (cachedInputTokens inc);
     inferenceTimeMs := plus (inferenceTimeMs c) (inferenceTimeMs inc) |}.

Definition updateTotalMetrics (inc : Counters) (m : StagehandMetrics)
  : StagehandMetrics :=
  {| act := act m; extract := extract m; observe := observe m;
     agent := agent m; total := add (total m) inc |}.

Definition updateMetrics (functionName : V3FunctionName) (inc : Counters)
    (m : StagehandMetrics) : StagehandMetrics :=
  updateTotalMetrics inc
    match functionName with
    | ACT =>
        {| act := add (act m) inc; extract := extract m;
           observe := observe m; agent := agent m; total := total m |}
    | EXTRACT =>
        {| act := act m; extract := add (extract m) inc;
           observe := observe m; agent := agent m; total := total m |}
    | OBSERVE =>
        {| act := act m; extract := extract m;
           observe := add (observe m) inc; agent := agent m;
           total := total m |}
    | AGENT =>
        {| act := act m; extract := extract m; observe := observe m;
           agent := add (agent m) inc; total := total m |}
    | OtherFunction => m
    end.

(** The metrics after a sequence of [updateMetrics] calls, oldest first. *)
Definition after (calls : list (V3FunctionName * Counters))
    (m : StagehandMetrics) : StagehandMetrics :=
  fold_left (fun m call => updateMetrics (fst call) (snd call) m) calls m.

(** The per-function counters added up. *)
Definition breakdown (m : StagehandMetrics) : Counters :=
  add (add (add (act m) (extract m)) (observe m)) (agent m).

(** The five counters as a list. *)
Definition fields (c : Counters) : list Z :=
  [promptTokens c; completionTokens c; reasoningTokens c;
   cachedInputTokens c; inferenceTimeMs c].

(** What the calls add up to, counter by counter, as integers. *)
Definition sumOf (f : Counters -> Z)
    (calls : list (V3FunctionName * Counters)) : Z :=
  fold_right (fun call acc => f (snd call) + acc) 0 calls.

(** The counter [f] is balanced, with room for what is still to come: the
    four per-function values are natural numbers, the total is their sum as
    integers, and with [room] more it stays an integer a double holds. *)
Definition balanced (f : Counters -> Z) (room : Z) (m : StagehandMetrics)
  : Prop :=
  0 <= f (act m) /\ 0 <= f (extract m) /\ 0 <= f (observe m)
  /\ 0 <= f (agent m)
  /\ f (total m) = f (act m) + f (extract m) + f (observe m) + f (agent m)
  /\ f (total m) + room <= 2 ^ 53.

(** The calls count: every increment is a natural number, and what they add
    up to for each counter is an integer a double holds exactly. *)
Definition countsExactly (calls : list (V3FunctionName * Counters)) : Prop :=
  Forall (fun call => Forall (fun x => 0 <= x) (fields (snd call))) calls
  /\ Forall (fun f => sumOf f calls <= 2 ^ 53)
       [promptTokens; completionTokens; reasoningTokens; cachedInputTokens;
        inferenceTimeMs].

End Metrics.

(** ** LLMProvider (llm/LLMProvider.ts) *)

Module LLMProvider.

(** The keys of the two provider tables and the model table.  A lookup
    answers for the table's own keys; a name that a JavaScript object
    inherits from its prototype counts as absent. *)
Definition AISDKProviders : list string :=
  ["openai"; "anthropic"; "google"; "xai"; "azure"; "groq"; "cerebras";
   "togetherai"; "mistral"; "deepseek"; "perplexity"; "ollama"].

Definition AISDKProvidersWithAPIKey : list string :=
  ["openai"; "anthropic"; "google"; "xai"; "azure"; "groq"; "cerebras";
   "togetherai"; "mistral"; "deepseek"; "perplexity"].

Definition modelToProviderMap : list (string * string) :=
  [("gpt-4.1", "openai"); ("gpt-4.1-mini", "openai");
   ("gpt-4.1-nano", "openai"); ("o4-mini", "openai"); ("o3", "openai");
   ("o3-mini", "openai"); ("o1", "openai"); ("o1-mini", "openai");
   ("gpt-4o", "openai"); ("gpt-4o-mini", "openai");
   ("gpt-4o-2024-08-06", "openai"); ("gpt-4.5-preview", "openai");
   ("o1-preview", "openai");
   ("claude-3-5-sonnet-latest", "anthropic");
   ("claude-3-5-sonnet-20240620", "anthropic");
   ("claude-3-5-sonnet-20241022", "anthropic");
   ("claude-3-7-sonnet-20250219", "anthropic");
   ("claude-3-7-sonnet-latest", "anthropic");
   ("cerebras-llama-3.3-70b", "cerebras");
   ("cerebras-llama-3.1-8b", "cerebras");
   ("groq-llama-3.3-70b-versatile", "groq");
   ("groq-llama-3.3-70b-specdec", "groq");
   ("moonshotai/kimi-k2-instruct", "groq");
   ("gemini-1.5-flash", "google"); ("gemini-1.5-pro", "google");
   ("gemini-1.5-flash-8b", "google"); ("gemini-2.0-flash-lite", "google");
   ("gemini-2.0-flash", "google");
   ("gemini-2.5-flash-preview-04-17", "google");
   ("gemini-2.5-pro-preview-03-25", "google");
   ("gemini-2.5-flash", "google"); ("gemini-2.5-flash-lite", "google");
   ("gemini-2.5-pro", "google")].

(** [table[key]] on a table given by its keys. *)
Definition hasKey (table : list string) (key : string) : bool :=
  existsb (String.eqb key) table.

(** [modelToProviderMap[modelName]]. *)
Fixpoint providerOf (table : list (string * string)) (modelName : string)
  : option string :=
  match table with
  | [] => None
  | (name, provider) :: rest =>
      if String.eqb name modelName then Some provider
      else providerOf rest modelName
  end.

Definition slash : Ascii.ascii := Ascii.ascii_of_nat 47.

(** [modelName.includes("/")] with [substring(0, i)] and [substring(i + 1)]
    for [i] the index of the first slash. *)
Fixpoint splitAtSlash (modelName : string) : option (string * string) :=
  match modelName with
  | EmptyString => None
  | String c rest =>
      if Ascii.eqb c slash then Some ("", rest)
      else
        match splitAtSlash rest with
        | Some (subProvider, subModelName) =>
            Some (String c subProvider, subModelName)
        | None => None
        end
  end.

(** The fields of [ClientOptions] and [GoogleClientOptions] that
    [getClient] reads; [authClient] records whether one is given. *)
Record ClientOptions := mkClientOptions {
  apiKey : option string;
  baseURL : option string;
  authClient : bool;
  project : option string
}.

(** What [getAISDKLanguageModel] returns: the model of a provider, built
    with the provider's default instance or with one configured by an API
    key and, when given, a base URL. *)
Record LanguageModel := mkLanguageModel {
  subProvider : string;
  subModelName : string;
  providerConfig : option (string * option string)
}.

Inductive LLMClient :=
| AISdkClient (model : LanguageModel)
| OpenAIClient (modelName : string)
| AnthropicClient (modelName : string)
| CerebrasClient (modelName : string)
| GroqClient (modelName : string)
| GoogleClient (modelName : string)
| CodeAssistClient (modelName : string) (project : string).

(** The errors of types/public/sdkErrors the provider throws, with the
    lists they are built from. *)
Inductive Error :=
| UnsupportedAISDKModelProviderError (subProvider : string)
    (supported : list string)
| UnsupportedModelError (supported : list string)
| UnsupportedModelProviderError.

Definition truthyOption (v : option string) : option string :=
  match v with
  | Some s => if Js.truthy s then Some s else None
  | None => None
  end.

Definition getAISDKLanguageModel (subProvider subModelName : string)
    (apiKey baseURL : option string) : Error + LanguageModel :=
  match truthyOption apiKey with
  | Some key =>
      if hasKey AISDKProvidersWithAPIKey subProvider
      then inr (mkLanguageModel subProvider subModelName
                  (Some (key, truthyOption baseURL)))
      else inl (UnsupportedAISDKModelProviderError subProvider
                  AISDKProvidersWithAPIKey)
  | None =>
      if hasKey AISDKProviders subProvider
      then inr (mkLanguageModel subProvider subModelName None)
      else inl (UnsupportedAISDKModelProviderError subProvider AISDKProviders)
  end.

Definition getClient (modelName : string) (clientOptions : option ClientOptions)
  : Error + LLMClient :=
  match splitAtSlash modelName with
  | Some (subProvider, subModelName) =>
      match getAISDKLanguageModel subProvider subModelName
              (clientOptions ≫= apiKey) (clientOptions ≫= baseURL) with
      | inl e => inl e
      | inr languageModel => inr (AISdkClient languageModel)
      end
  | None =>
      match providerOf modelToProviderMap modelName with
      | None => inl (UnsupportedModelError (fst <$> modelToProviderMap))
      | Some provider =>
          if String.eqb provider "openai" then inr (OpenAIClient modelName)
          else if String.eqb provider "anthropic"
          then inr (AnthropicClient modelName)
          else if String.eqb provider "cerebras"
          then inr (CerebrasClient modelName)
          else if String.eqb provider "groq" then inr (GroqClient modelName)
          else if String.eqb provider "google" then
            match clientOptions with
            | Some googleOpts =>
                match authClient googleOpts, truthyOption (project googleOpts) with
                | true, Some p => inr (CodeAssistClient modelName p)
                | _, _ => inr (GoogleClient modelName)
                end
            | None => inr (GoogleClient modelName)
            end
          else inl UnsupportedModelProviderError
      end
  end.

(** The static [getModelProvider]; [None] is [undefined]. *)
Definition getModelProvider (modelName : string) : option string :=
  match splitAtSlash modelName with
  | Some (subProvider, _) =>
      if hasKey AISDKProviders subProvider then Some "aisdk"
      else providerOf modelToProviderMap modelName
  | None => providerOf modelToProviderMap modelName
  end.

(** The provider a client belongs to. *)
Definition clientProvider (c : LLMClient) : string :=
  match c with
  | AISdkClient _ => "aisdk"
  | OpenAIClient _ => "openai"
  | AnthropicClient _ => "anthropic"
  | CerebrasClient _ => "cerebras"
  | GroqClient _ => "groq"
  | GoogleClient _ | CodeAssistClient _ _ => "google"
  end.

End LLMProvider.

(** * Sample worlds

    Concrete providers, tools and runs on which the properties below are
    exercised. *)

Module Samples.
Import CodeAssist.

(** [JSON.parse] on the two texts the samples use: the empty object parses,
    anything else is taken for a syntax error. *)
Definition parseSample (text : string) : string + string :=
  if String.eqb text "{}" then inr text else inl "Unexpected token".

Definition textResponse (t : string) : InnerResponse :=
  {| candidates := [ {| parts := Some [TextPart t]; finishReason := None |} ];
     usageMetadata := None |}.

(** A provider whose first answer is prose and whose later answers are the
    empty object in a fence. *)
Definition unparsableOnce (attempt : nat) : Reply :=
  match attempt with
  | O => Responds (textResponse "Sorry, no JSON today")
  | _ => Responds
           (textResponse ("```json" +:+ Js.newline +:+ "{}" +:+ Js.newline
                          +:+ "```"))
  end.

(** A provider whose transport always fails. *)
Definition unreachable (attempt : nat) : Reply :=
  TransportFails (PlainError "ECONNRESET").

(** Modelled from the spec: [mapToolResultToActions]
    (agent/utils/actionMapping.ts), which 4.2 describes as mapping a tool
    call's raw result "into zero or more AgentAction records" and whose
    scenario A maps a [close] call to one action of type [close].  This
    instance yields one record per call: the tool's name as [type], the
    step's reasoning, the [taskComplete] flag of the arguments, and the
    remaining argument fields. *)
Definition standardMapping (m : Handler.Mapping) : list AgentAction.t :=
  [ {| AgentAction.type := Handler.toolCallName m;
       AgentAction.reasoning := Handler.mapReasoning m;
       AgentAction.taskCompleted := Handler.args m ≫= taskComplete;
       AgentAction.fields := default "" (otherFields <$> Handler.args m);
       AgentAction.pageUrl := None;
       AgentAction.timestamp := None |} ].

Definition okTool : Handler.Tool.t :=
  {| Handler.Tool.description := "always succeeds";
     Handler.Tool.execute := fun _ _ _ => Returned "{}" |}.

Definition brokenTool : Handler.Tool.t :=
  {| Handler.Tool.description := "always throws";
     Handler.Tool.execute := fun _ _ _ => Threw (PlainError "element not found") |}.

Definition sampleTools : gmap string Handler.Tool.t :=
  <["goto" := okTool]> (<["act" := okTool]> (<["click" := brokenTool]> ∅)).

(** A tool call of a chat message, with the empty object as arguments. *)
Definition call (name : string) : ChatToolCall :=
  mkToolCall name (Some "{}").

(** The text of the arguments of a [close] call: the [taskComplete] flag,
    when there is one, and the reasoning "done". *)
Definition closeArguments (flag : option bool) : string :=
  "{"
  +:+ match flag with
      | Some true => Js.quote +:+ "taskComplete" +:+ Js.quote +:+ ":true,"
      | Some false => Js.quote +:+ "taskComplete" +:+ Js.quote +:+ ":false,"
      | None => ""
      end
  +:+ Js.quote +:+ "reasoning" +:+ Js.quote +:+ ":" +:+ Js.quote +:+ "done"
  +:+ Js.quote +:+ "}".

Definition closeCall (flag : option bool) : ChatToolCall :=
  mkToolCall "close" (Some (closeArguments flag)).

(** The same two calls as the SDK reports them in a step. *)
Definition stepCall (name : string) : ToolCall ToolArgs :=
  mkToolCall name (mkToolArgs None None "").

Definition stepCloseCall (flag : option bool) : ToolCall ToolArgs :=
  mkToolCall "close" (mkToolArgs flag (Some "done") "").

(** [JSON.parse] on the texts the samples use: the empty object, the
    arguments of the [close] calls above and [null] parse; anything else,
    the text "undefined" of absent arguments included, is a syntax error. *)
Definition parseArguments (text : string) : Outcome (option ToolArgs) :=
  if String.eqb text "{}" then Returned (Some (mkToolArgs None None ""))
  else if String.eqb text (closeArguments (Some true))
  then Returned (Some (mkToolArgs (Some true) (Some "done") ""))
  else if String.eqb text (closeArguments (Some false))
  then Returned (Some (mkToolArgs (Some false) (Some "done") ""))
  else if String.eqb text (closeArguments None)
  then Returned (Some (mkToolArgs None (Some "done") ""))
  else if String.eqb text "null" then Returned None
  else Threw (PlainError ("Unexpected token in JSON: " +:+ text)).

Definition reply (calls : list ChatToolCall) : Outcome LLMResponse :=
  Returned {| choices := [ {| content := None; tool_calls := calls;
                              finish_reason := "STOP" |} ];
              usage := None |}.

Definition sdkStep (calls : list (ToolCall ToolArgs)) : Handler.Generated :=
  Handler.Produces
    {| Handler.finishReason := "tool-calls"; Handler.text := "";
       Handler.toolCalls := calls; Handler.toolResults := [] |}.

(** A world with the sample tools and the standard mapping, given its
    backend, the provider's answers and the SDK's steps. *)
Definition world (oauth : bool)
    (answers : nat -> list ChatMessage -> Outcome LLMResponse)
    (script : list Handler.Generated) : Handler.World :=
  {| Handler.oauthMode := oauth;
     Handler.hasLanguageModel := true;
     Handler.missingLLMConfiguration := StagehandError "no LLM configured";
     Handler.systemInstructions := None;
     Handler.builtinTools := sampleTools;
     Handler.mcpTools := None;
     Handler.mapToolResultToActions := standardMapping;
     Handler.JSON_parse := parseArguments;
     Handler.createChatCompletion := answers;
     Handler.generation := script;
     Handler.generatedText := "";
     Handler.generatedUsage := None;
     Handler.initialPageUrl := "about:blank";
     Handler.activePageUrl := fun _ _ => "https://example.com/";
     Handler.now := fun k => 1000 + Z.of_nat k;
     Handler.startTime := 0;
     Handler.endTime := 5 |}.

Definition task (requested : option Js.Number) (callback : bool)
    (check : option (nat -> option Thrown)) : AgentExecuteOptions :=
  {| instruction := "open example.com"; maxSteps := requested;
     onStep := callback; checkPauseState := check |}.

(** The model gives up: one [close] call with [taskComplete: false]. *)
Definition givesUp (oauth : bool) : Handler.World :=
  world oauth (fun _ _ => reply [closeCall (Some false)])
    [sdkStep [stepCloseCall (Some false)]].

(** The model navigates forever and never closes. *)
Definition navigatesForever : Handler.World :=
  world true (fun _ _ => reply [call "goto"]) [].

(** Twenty-five SDK steps of navigation, none closing. *)
Definition navigatesLong : Handler.World :=
  world false (fun _ _ => reply []) (repeat (sdkStep [stepCall "goto"]) 25).

(** A pause check that rejects at step index [k] with the error "stop". *)
Definition stopAt (k : nat) : option (nat -> option Thrown) :=
  Some (fun j => if (j =? k)%nat then Some (PlainError "stop") else None).

(** One step with two tool calls, then an answer without tool calls. *)
Definition twoCallsThenDone : Handler.World :=
  world true
    (fun k _ => match k with
                | O => reply [call "goto"; call "act"]
                | _ => reply []
                end) [].

(** A step that asks for a tool that does not exist, one that throws, and
    one that works. *)
Definition mixedCalls : list ChatToolCall :=
  [call "fly"; call "click"; call "goto"].

(** A mapping that is allowed by "zero or more": two records for every
    call, as a form-filling tool that reports each field would give. *)
Definition doublingMapping (m : Handler.Mapping) : list AgentAction.t :=
  standardMapping m ++ standardMapping m.

Definition doublingWorld : Handler.World :=
  {| Handler.oauthMode := false;
     Handler.hasLanguageModel := true;
     Handler.missingLLMConfiguration := StagehandError "no LLM configured";
     Handler.systemInstructions := None;
     Handler.builtinTools := sampleTools;
     Handler.mcpTools := None;
     Handler.mapToolResultToActions := doublingMapping;
     Handler.JSON_parse := parseArguments;
     Handler.createChatCompletion := fun _ _ => reply [];
     Handler.generation := [sdkStep [stepCall "goto"]];
     Handler.generatedText := "";
     Handler.generatedUsage := None;
     Handler.initialPageUrl := "about:blank";
     Handler.activePageUrl := fun _ _ => "https://example.com/";
     Handler.now := fun k => 1000 + Z.of_nat k;
     Handler.startTime := 0;
     Handler.endTime := 5 |}.

(** A cache that accepts every instruction, builds the context "k", and has
    the given answer to a replay and the given recorded steps. *)
Definition cache (replay : option AgentResult.t)
    (recorded : list V3.AgentReplayStep) : V3.AgentCache :=
  {| V3.shouldAttemptCache := fun _ => true;
     V3.prepareContext := fun _ => Returned (Some (V3.mkCacheContext "k"));
     V3.tryReplay := fun _ => Returned replay;
     V3.tryReplayAsStream := fun _ => Returned false;
     V3.endRecording := recorded;
     V3.store := fun _ _ _ => None |}.

Definition instance (c : V3.AgentCache) (hw : Handler.World) : V3.Instance :=
  {| V3.experimental := false;
     V3.apiClient := false;
     V3.agentCache := c;
     V3.handlerWorld := hw;
     V3.agentExecute := Threw (PlainError "no API client");
     V3.cuaExecute := Threw (PlainError "no CUA handler");
     V3.isCua := fun _ => false;
     V3.experimentalNotConfigured :=
       fun feature => StagehandError feature;
     V3.invalidArgument := StagehandError;
     V3.cuaModelRequired := StagehandError "a CUA model is required" |}.

Definition toolsAgent : V3.AgentConfig :=
  {| V3.cua := false; V3.stream := false; V3.integrations := false;
     V3.tools := false |}.

Definition storedResult : AgentResult.t :=
  {| AgentResult.success := true; AgentResult.message := "done";
     AgentResult.actions := []; AgentResult.completed := true;
     AgentResult.usage := None |}.

(** One step with the three calls of [mixedCalls], then an answer without
    tool calls. *)
Definition mixedThenDone : Handler.World :=
  world true
    (fun k _ => match k with
                | O => reply mixedCalls
                | _ => reply []
                end) [].





(** An answer that reports its usage. *)
Definition meteredReply (calls : list ChatToolCall) (input output : Z)
  : Outcome LLMResponse :=
  Returned {| choices := [ {| content := None; tool_calls := calls;
                              finish_reason := "STOP" |} ];
              usage := Some (mkUsage input output (input + output)) |}.

(** A navigation answered with 10 and 2 tokens, then a plain answer with 7
    and 1. *)
Definition metered : Handler.World :=
  world true
    (fun k _ => match k with
                | O => meteredReply [call "goto"] 10 2
                | _ => meteredReply [] 7 1
                end) [].

(** Tools without an [inputSchema]. *)
Definition noSchema (name : string) (tool : Handler.Tool.t)
  : option (list (string * Js.Value)) := None.

(** A cache that accepts every instruction and misses, and whose [store]
    fails. *)
Definition failingStore (recorded : list V3.AgentReplayStep) : V3.AgentCache :=
  {| V3.shouldAttemptCache := fun _ => true;
     V3.prepareContext := fun _ => Returned (Some (V3.mkCacheContext "k"));
     V3.tryReplay := fun _ => Returned None;
     V3.tryReplayAsStream := fun _ => Returned false;
     V3.endRecording := recorded;
     V3.store := fun _ _ _ => Some (PlainError "disk full") |}.

(** A cache that accepts no instruction. *)
Definition noCache : V3.AgentCache :=
  {| V3.shouldAttemptCache := fun _ => false;
     V3.prepareContext := fun _ => Returned None;
     V3.tryReplay := fun _ => Returned None;
     V3.tryReplayAsStream := fun _ => Returned false;
     V3.endRecording := [];
     V3.store := fun _ _ _ => None |}.

(** A tools agent with custom tools. *)
Definition customToolsAgent : V3.AgentConfig :=
  {| V3.cua := false; V3.stream := false; V3.integrations := false;
     V3.tools := true |}.

(** A conversation as the OAuth loop sends it after one step: the system
    prompt, the instruction, the assistant's turn with one tool call and the
    feedback to it. *)
Definition sampleMessages : list Message :=
  [ mkMessage SystemRole (StringContent "You are a web agent.") None;
    mkMessage UserRole (StringContent "open example.com") None;
    mkMessage AssistantRole (StringContent "") (Some [call "goto"]);
    mkMessage UserRole (StringContent "{}") None ].

(** The options of a call with that conversation, with or without a
    response model, and the given tool declarations. *)
Definition chatOptions (responseModel : bool)
    (declarations : option (list Js.Value)) : ChatCompletionOptions :=
  {| optMessages := sampleMessages; optImage := None;
     optResponseModel := responseModel; optTools := declarations |}.

(** A conversation whose assistant turn holds a tool call with arguments
    that are not JSON. *)
Definition brokenConversation : list Message :=
  [ mkMessage UserRole (StringContent "open example.com") None;
    mkMessage AssistantRole (StringContent "")
      (Some [mkToolCall "goto" (Some "{url:")]) ].

(** A conversation with a message whose role is "constructor", a name every
    object inherits, and one whose role is "tool", a name none has. *)
Definition strayConversation : list Message :=
  [ mkMessage UserRole (StringContent "open example.com") None;
    mkMessage (OtherRole "constructor") (StringContent "hello") None;
    mkMessage (OtherRole "tool") (StringContent "dropped") None ].

(** What the act handler answers in the samples: one click. *)
Definition clicked : V3Methods.ActResult :=
  V3Methods.mkActResult true (Some ["click"]) "clicked the button".

(** An initialised instance without API client, whose act cache is enabled
    and misses, whose handler clicks, and whose [store] answers as given. *)
Definition actWorld (storeAnswer : option Thrown) : V3Methods.World :=
  {| V3Methods.hasActHandler := true;
     V3Methods.hasApiClient := false;
     V3Methods.resolvePage := Returned tt;
     V3Methods.isAgentReplayRecording := false;
     V3Methods.actCacheEnabled := true;
     V3Methods.prepareContext :=
       fun _ => Returned (Some (V3Methods.mkActCacheContext "k"));
     V3Methods.tryReplay := fun _ => Returned None;
     V3Methods.store := fun _ _ => storeAnswer;
     V3Methods.apiAct := fun _ => Threw (PlainError "no api client");
     V3Methods.handlerAct := fun _ => Returned clicked;
     V3Methods.handlerActFromObserveResult := fun _ => Returned clicked;
     V3Methods.isoNow := fun _ => "2025-01-01T00:00:00.000Z";
     V3Methods.notInitialized := StagehandError;
     V3Methods.invalidArgument := StagehandError |}.

(** A running local browser with a temporary profile. *)
Definition localInstance : V3Methods.Instance :=
  {| V3Methods.state := V3Methods.LOCAL true false (Some "/tmp/profile");
     V3Methods.hasContext := true;
     V3Methods.isClosing := false;
     V3Methods.registered := true |}.

(** Resources every one of whose calls throws; with or without an API
    client. *)
Definition stubborn (withApiClient : bool) : V3Methods.Resources :=
  {| V3Methods.apiClient := withApiClient;
     V3Methods.apiEnd := Some (PlainError "socket hang up");
     V3Methods.offTransportClosed := Some (PlainError "no transport");
     V3Methods.ctxClose := Some (PlainError "target closed");
     V3Methods.chromeKill := Some (PlainError "ESRCH");
     V3Methods.rmSync := Some (PlainError "EBUSY");
     V3Methods.unbindInstanceLogger := Some (PlainError "unknown instance") |}.

End Samples.

(** * Properties *)

(** ** Retries of the OAuth client *)

Module CodeAssistFacts.
Import CodeAssist Samples.

Section Attempts.

Variable JSON_parse : string -> string + string.
Variable request : nat -> Reply.
Variable response_model : bool.

Local Abbreviation attempts :=
  (attemptFrom JSON_parse request response_model None).
Local Abbreviation fails := (failed JSON_parse request response_model).

(** A request that cannot be built: the error is thrown at once. *)
Lemma attemptFrom_unbuilt (e : Thrown) (n k : nat) :
  attemptFrom JSON_parse request response_model (Some e) n k = (Threw e, []).
Proof. destruct n; reflexivity. Qed.

(** One attempt: it succeeds and returns; or it fails and, when retries are
    left, the next attempt follows, after a sleep exactly when the failure
    was one of transport; or it fails for good with a StagehandError. *)
Lemma attemptFrom_step (n k : nat) :
  (fails k = false /\ exists v, attempts n k = (Returned v, [Requested k]))
  \/ (fails k = true
      /\ match n with
         | O =>
             exists e,
               Js.instanceofStagehandError e = true
               /\ attempts n k = (Threw e, [Requested k])
         | S n' =>
             attempts n k
             = (fst (attempts n' (S k)),
                Requested k
                  :: (if transportFailed request k
                      then [Slept (1000 * (4 - Z.of_nat n))] else [])
                  ++ snd (attempts n' (S k)))
         end).
Proof.
  unfold failed, transportFailed.
  destruct n as [|n']; cbn [attemptFrom];
    (destruct (request k) as [e|r];
     [|destruct (parsed JSON_parse r); destruct response_model]);
    try (left; split; [reflexivity|eexists; reflexivity]);
    right; (split; [reflexivity|]).
  - eexists. split; [|reflexivity]. destruct e; reflexivity.
  - eexists. split; [|reflexivity]. reflexivity.
  - destruct (attemptFrom _ _ _ _ n' (S k)). reflexivity.
  - destruct (attemptFrom _ _ _ _ n' (S k)). reflexivity.
Qed.

(** The calls number between one and [n + 1]. *)
Lemma attemptFrom_requests (n k : nat) :
  (1 <= requestCount (snd (attempts n k)) <= n + 1)%nat.
Proof.
  revert k. induction n as [|n IH]; intros k.
  - destruct (attemptFrom_step 0 k) as [[_ [v ->]]|[_ [e [_ ->]]]];
      simpl; lia.
  - destruct (attemptFrom_step (S n) k) as [[_ [v ->]]|[_ ->]];
      [simpl; lia|].
    specialize (IH (S k)). cbn [snd requestCount].
    destruct (transportFailed request k); simpl; lia.
Qed.

(** One sleep per transport failure that is retried, none for a parse
    failure. *)
Lemma attemptFrom_sleeps (n k : nat) :
  sleepCount (snd (attempts n k))
  = transportFailures request k (requestCount (snd (attempts n k)) - 1).
Proof.
  revert k. induction n as [|n IH]; intros k.
  - destruct (attemptFrom_step 0 k) as [[_ [v ->]]|[_ [e [_ ->]]]];
      reflexivity.
  - destruct (attemptFrom_step (S n) k) as [[_ [v ->]]|[_ ->]];
      [reflexivity|].
    specialize (IH (S k)).
    pose proof (attemptFrom_requests n (S k)) as Hc.
    cbn [snd].
    destruct (transportFailed request k) eqn:Ht; simpl; rewrite IH;
      (destruct (requestCount (snd (attempts n (S k)))) as [|c]; [lia|]);
      simpl; rewrite Ht, Nat.sub_0_r; reflexivity.
Qed.

(** Every sleep lasts [1000 * (4 - r)] ms for a retry count [r] still
    positive. *)
Lemma attemptFrom_delays (n k : nat) (ms : Z) :
  In (Slept ms) (snd (attempts n k)) ->
  exists r : nat, (1 <= r <= n)%nat /\ ms = 1000 * (4 - Z.of_nat r).
Proof.
  revert k. induction n as [|n IH]; intros k.
  - destruct (attemptFrom_step 0 k) as [[_ [v ->]]|[_ [e [_ ->]]]];
      simpl; intros [H|[]]; discriminate.
  - destruct (attemptFrom_step (S n) k) as [[_ [v ->]]|[_ ->]];
      [simpl; intros [H|[]]; discriminate|].
    cbn [snd]. intros [H|H]; [discriminate|].
    apply in_app_or in H. destruct H as [H|H].
    + destruct (transportFailed request k); [|destruct H].
      destruct H as [H|[]]. inversion H. exists (S n). split; [lia|reflexivity].
    + destruct (IH _ H) as [q [Hq Hms]]. exists q. split; [lia|exact Hms].
Qed.

(** A throw is a StagehandError, and comes only after [n + 1] failed
    attempts. *)
Lemma attemptFrom_throws (n k : nat) (e : Thrown) :
  fst (attempts n k) = Threw e ->
  Js.instanceofStagehandError e = true
  /\ requestCount (snd (attempts n k)) = (n + 1)%nat
  /\ forall j, (k <= j <= k + n)%nat -> fails j = true.
Proof.
  revert k. induction n as [|n IH]; intros k.
  - destruct (attemptFrom_step 0 k) as [[_ [v ->]]|[Hfail [e' [He' ->]]]];
      [discriminate|].
    simpl. intros H. inversion H; subst e'.
    split; [exact He'|]. split; [reflexivity|].
    intros j Hj. assert (j = k) by lia. subst j. exact Hfail.
  - destruct (attemptFrom_step (S n) k) as [[_ [v ->]]|[Hfail ->]];
      [discriminate|].
    cbn [fst snd]. intros H.
    destruct (IH _ H) as (H1 & H2 & H3).
    split; [exact H1|]. split.
    + cbn [requestCount]. destruct (transportFailed request k); simpl;
        rewrite H2; lia.
    + intros j Hj. destruct (Nat.eq_dec j k) as [->|Hne];
        [exact Hfail|apply H3; lia].
Qed.

End Attempts.

(** What [createChatCompletion] does once the request is built, and what it
    does when it is not. *)
Lemma createChatCompletion_built ast JSON_parse toGeminiSchema request options
    retries :
  building ast JSON_parse toGeminiSchema options = None ->
  createChatCompletion ast JSON_parse toGeminiSchema request options retries
  = attemptFrom JSON_parse request (optResponseModel options) None
      (Z.to_nat retries) 0.
Proof. intros H. unfold createChatCompletion. rewrite H. reflexivity. Qed.

Lemma createChatCompletion_unbuilt ast JSON_parse toGeminiSchema request
    options retries e :
  building ast JSON_parse toGeminiSchema options = Some e ->
  createChatCompletion ast JSON_parse toGeminiSchema request options retries
  = (Threw e, []).
Proof.
  intros H. unfold createChatCompletion. rewrite H. apply attemptFrom_unbuilt.
Qed.

(** C8, as amended.  [createChatCompletion] builds the request before its
    [try]: what that throws is thrown at once, as it is, with no request
    made.  Otherwise it makes between one and [retries + 1] requests (four by
    default).  A request that fails in transport and is retried is followed
    by one sleep of [1000 * (4 - r)] ms, [r] the retries left; a reply that
    does not parse against a requested response model is retried at once,
    without a sleep.  Once the request is built the call throws only after
    [retries + 1] failed attempts, and what it throws is a StagehandError. *)
Theorem createChatCompletion_retry_budget
    (ast : string) (JSON_parse : string -> string + string)
    (toGeminiSchema : option Thrown) (request : nat -> Reply)
    (options : ChatCompletionOptions) (retries : Z) :
  let built := building ast JSON_parse toGeminiSchema options in
  let out :=
    fst (createChatCompletion ast JSON_parse toGeminiSchema request options
           retries) in
  let evs :=
    snd (createChatCompletion ast JSON_parse toGeminiSchema request options
           retries) in
  (requestCount evs <= Z.to_nat retries + 1)%nat
  /\ (built = None -> (1 <= requestCount evs)%nat)
  /\ (forall e, built = Some e -> out = Threw e /\ evs = [])
  /\ sleepCount evs = transportFailures request 0 (requestCount evs - 1)
  /\ (forall ms, In (Slept ms) evs ->
        exists r : nat,
          (1 <= r <= Z.to_nat retries)%nat /\ ms = 1000 * (4 - Z.of_nat r))
  /\ (forall e, out = Threw e ->
        built = Some e
        \/ (built = None
            /\ Js.instanceofStagehandError e = true
            /\ requestCount evs = (Z.to_nat retries + 1)%nat
            /\ forall j, (j <= Z.to_nat retries)%nat ->
                 failed JSON_parse request (optResponseModel options) j
                 = true)).
Proof.
  cbv zeta.
  destruct (building ast JSON_parse toGeminiSchema options) as [e0|] eqn:Hb.
  - rewrite (createChatCompletion_unbuilt _ _ _ _ _ _ _ Hb). cbn [fst snd].
    split; [simpl; lia|]. split; [discriminate|].
    split; [intros e H; inversion H; split; reflexivity|].
    split; [reflexivity|]. split; [intros ms []|].
    intros e H. inversion H. left. reflexivity.
  - rewrite (createChatCompletion_built _ _ _ _ _ _ Hb).
    split; [apply attemptFrom_requests|].
    split; [intros _; apply attemptFrom_requests|].
    split; [discriminate|].
    split; [apply attemptFrom_sleeps|].
    split; [apply attemptFrom_delays|].
    intros e H. right.
    destruct (attemptFrom_throws _ _ _ _ _ _ H) as (H1 & H2 & H3).
    repeat split; try assumption.
    intros j Hj. apply H3. lia.
Qed.

(** With the default budget and a transport that never answers: four
    requests, sleeps of one, two and three seconds, then a StagehandError. *)
Lemma createChatCompletion_retry_budget_witness :
  createChatCompletion "" parseSample None unreachable (chatOptions false None)
    defaultRetries
  = (Threw (StagehandError "Code Assist API request failed: ECONNRESET"),
     [Requested 0; Slept 1000; Requested 1; Slept 2000; Requested 2;
      Slept 3000; Requested 3])
  /\ (1 <= requestCount
             (snd (createChatCompletion "" parseSample None unreachable
                     (chatOptions false None) defaultRetries))
       <= 4)%nat.
Proof.
  split; [reflexivity|].
  pose proof (createChatCompletion_retry_budget "" parseSample None unreachable
                (chatOptions false None) defaultRetries) as (Hmax & Hmin & _).
  split; [apply Hmin; reflexivity|exact Hmax].
Defined.

(** C8, as stated, fails twice.  A reply that does not parse is a failing
    request, and its retry follows with no delay in between.  And a request
    that cannot be built, here for a tool call of the conversation whose
    arguments are not JSON, makes the call throw before any attempt: what it
    throws is the SyntaxError itself, not a StagehandError. *)
Lemma parse_failure_retried_without_delay :
  (failed parseSample unparsableOnce true 0 = true
   /\ snd (createChatCompletion "" parseSample None unparsableOnce
             (chatOptions true None) defaultRetries)
      = [Requested 0; Requested 1]
   /\ sleepCount
        (snd (createChatCompletion "" parseSample None unparsableOnce
                (chatOptions true None) defaultRetries))
      = O)
  /\ createChatCompletion "" parseSample None unreachable
       {| optMessages := brokenConversation; optImage := None;
          optResponseModel := false; optTools := None |}
       defaultRetries
     = (Threw (PlainError "Unexpected token"), []).
Proof. repeat split. Qed.

(** *** formatMessages *)

Lemma roleMap_roles r role :
  roleMap r = Some role ->
  role = RoleName "user" \/ role = RoleName "model"
  \/ exists key,
       r = OtherRole key /\ Js.inherited key = true
       /\ role = InheritedMember key.
Proof.
  destruct r as [| | |name]; simpl; try (intros H; inversion H; auto; fail).
  destruct (Js.inherited name) eqn:Hi; [|discriminate].
  intros H. inversion H. right. right. exists name. auto.
Qed.

Lemma place_accepted msgs role ps f :
  (forall ps', ps' <> [] -> accepted msgs (mkContent role ps')) ->
  Forall (accepted msgs) (contents f) ->
  Forall (accepted msgs) (contents (place role ps f)).
Proof.
  intros Hrole Hf. unfold place. cbv zeta. cbn [contents].
  match goal with
  | |- Forall _ (match ?ps with [] => _ | _ :: _ => _ end) =>
      destruct ps eqn:Hps; [exact Hf|]
  end.
  apply Forall_app. split; [exact Hf|].
  constructor; [|constructor]. apply Hrole. discriminate.
Qed.

Lemma formatMessage_accepted ast parse image msgs isLast msg f f' :
  In msg msgs ->
  formatMessage ast parse image isLast msg f = Returned f' ->
  Forall (accepted msgs) (contents f) ->
  Forall (accepted msgs) (contents f').
Proof.
  intros Hin. unfold formatMessage.
  destruct (roleMap (msgRole msg)) as [role|] eqn:Hrole;
    [|intros H; inversion H; subst; auto].
  apply roleMap_roles in Hrole.
  assert (forall ps', ps' <> [] -> accepted msgs (mkContent role ps'))
    as Hacc.
  { intros ps' Hne.
    destruct Hrole as [-> |[-> |(key & Hr & Hi & ->)]].
    - left. split; [left; reflexivity|exact Hne].
    - left. split; [right; reflexivity|exact Hne].
    - right. split; [|exact Hne]. exists key. split; [reflexivity|].
      split; [exact Hi|]. exists msg. split; [exact Hin|exact Hr]. }
  destruct (msgRole msg);
    try (destruct (partsOf ast parse image isLast msg) as [ps|e];
         [|discriminate];
         intros H; inversion H; subst; apply place_accepted; assumption).
  destruct (msgContent msg); intros H; inversion H; subst; auto.
Qed.

Lemma formatEach_accepted ast parse image all msgs f f' :
  (forall msg, In msg msgs -> In msg all) ->
  formatEach ast parse image msgs f = Returned f' ->
  Forall (accepted all) (contents f) ->
  Forall (accepted all) (contents f').
Proof.
  revert f. induction msgs as [|msg rest IH]; intros f Hsub.
  - intros H. inversion H; subst. auto.
  - cbn [formatEach].
    destruct (formatMessage ast parse image _ msg f) as [f1|e] eqn:Hone;
      [|discriminate].
    intros H Hf. apply (IH f1); [intros m Hm; apply Hsub; right; exact Hm
                                |exact H|].
    eapply formatMessage_accepted; [|exact Hone|exact Hf].
    apply Hsub. left. reflexivity.
Qed.

(** X1.  Every content [formatMessages] returns has at least one part, and
    its role is "user" or "model" unless it comes from a message whose role
    names a member of [Object.prototype]: the lookup in [roleMap] finds that
    member, the message is kept, and the member becomes the role of its
    content.  So when no message has such a role all contents are
    well-formed: system messages get no content of their own role, messages
    of any other unsupported role and messages without parts are left
    out. *)
Theorem formatted_contents_are_well_formed ast parse image msgs cs :
  formatMessages ast parse image msgs = Returned cs ->
  Forall (fun c => wellFormed c \/ misrouted msgs c) cs
  /\ (Forall (fun msg => inheritedRole msg = false) msgs ->
      Forall wellFormed cs).
Proof.
  intros Hcs.
  assert (Forall (accepted msgs) cs) as Hall.
  { unfold formatMessages in Hcs.
    destruct (formatEach ast parse image msgs (mkFormatting [] None))
      as [f|e] eqn:Hf; [|discriminate].
    pose proof (formatEach_accepted ast parse image msgs msgs _ _
                  (fun _ H => H) Hf ltac:(constructor)) as H.
    inversion Hcs; subst cs.
    destruct (pending f); [|exact H].
    constructor; [|exact H]. left. split; [left; reflexivity|discriminate]. }
  split; [exact Hall|].
  intros Hnone. eapply Forall_impl; [exact Hall|].
  intros c [Hw|[(key & _ & Hi & msg & Hin & Hr) _]]; [exact Hw|].
  rewrite Forall_forall in Hnone.
  specialize (Hnone msg ltac:(apply list_elem_of_In; exact Hin)).
  unfold inheritedRole in Hnone. rewrite Hr in Hnone. congruence.
Qed.

(** A conversation with a message whose role is "constructor": the message
    is not left out, and its content has no role the API knows. *)
Lemma formatted_contents_are_well_formed_witness :
  formatMessages "" parseSample None strayConversation
  = Returned
      [mkContent (RoleName "user") [TextOf "open example.com"];
       mkContent (InheritedMember "constructor") [TextOf "hello"]]
  /\ Forall (fun c => wellFormed c \/ misrouted strayConversation c)
       [mkContent (RoleName "user") [TextOf "open example.com"];
        mkContent (InheritedMember "constructor") [TextOf "hello"]].
Proof.
  split; [reflexivity|].
  exact (proj1 (formatted_contents_are_well_formed "" parseSample None
                  strayConversation
                  [mkContent (RoleName "user") [TextOf "open example.com"];
                   mkContent (InheritedMember "constructor") [TextOf "hello"]]
                  eq_refl)).
Defined.

Lemma append_cons x (a b : string) : String x a +:+ b = String x (a +:+ b).
Proof. reflexivity. Qed.

Lemma append_assoc (a b c : string) : (a +:+ b) +:+ c = a +:+ b +:+ c.
Proof.
  induction a as [|x a IH]; [reflexivity|].
  rewrite !append_cons, IH. reflexivity.
Qed.

Lemma append_nil_r (a : string) : a +:+ "" = a.
Proof.
  induction a as [|x a IH]; [reflexivity|]. rewrite append_cons, IH.
  reflexivity.
Qed.

Lemma occursIn_refl s : occursIn s s.
Proof. exists "", "". simpl. symmetry. apply append_nil_r. Qed.

Lemma occursIn_append_l s t u : occursIn s t -> occursIn s (u +:+ t).
Proof.
  intros (b & a & ->). exists (u +:+ b), a. symmetry. apply append_assoc.
Qed.

Lemma occursIn_append_r s t u : occursIn s t -> occursIn s (t +:+ u).
Proof.
  intros (b & a & ->). exists b, (a +:+ u).
  rewrite !append_assoc. reflexivity.
Qed.

Lemma occursIn_nonempty s t : occursIn s t -> s <> "" -> Js.truthy t = true.
Proof.
  intros (b & a & ->) Hs. destruct b; [|reflexivity].
  destruct s; [congruence|reflexivity].
Qed.

Lemma prependToFirstText_carries i ps ps' :
  prependToFirstText i ps = Some ps' ->
  exists t, In (TextOf t) ps' /\ occursIn i t.
Proof.
  revert ps'. induction ps as [|p ps IH]; intros ps'; [discriminate|].
  cbn [prependToFirstText].
  assert (cons p <$> prependToFirstText i ps = Some ps' ->
          exists t, In (TextOf t) ps' /\ occursIn i t) as Hrest.
  { destruct (prependToFirstText i ps) as [qs|]; [|discriminate].
    intros H. inversion H; subst. destruct (IH qs eq_refl) as (t & Ht & Ho).
    exists t. split; [right; exact Ht|exact Ho]. }
  destruct p as [t| |]; try exact Hrest.
  destruct (Js.truthy t); [|exact Hrest].
  intros H. inversion H; subst. eexists. split; [left; reflexivity|].
  apply occursIn_append_r. apply occursIn_refl.
Qed.

Lemma applySystemInstruction_carries i ps :
  exists t, In (TextOf t) (applySystemInstruction i ps) /\ occursIn i t.
Proof.
  unfold applySystemInstruction.
  destruct (prependToFirstText i ps) as [ps'|] eqn:H; simpl.
  - eapply prependToFirstText_carries; exact H.
  - exists i. split; [left; reflexivity|apply occursIn_refl].
Qed.

Lemma kept_pending s f x :
  s <> "" -> systemInstruction f = Some x -> occursIn s x ->
  pending f = Some x.
Proof.
  intros Hs Hx Ho. unfold pending. rewrite Hx.
  rewrite (occursIn_nonempty _ _ Ho Hs). reflexivity.
Qed.

(** A system text that is kept stays kept when the parts of the next
    message are placed. *)
Lemma place_keeps role ps f s :
  s <> "" -> kept s f -> kept s (place role ps f).
Proof.
  intros Hs Hk. unfold place. cbv zeta.
  destruct Hk as [(x & Hx & Ho)|Hc].
  - rewrite (kept_pending _ _ _ Hs Hx Ho).
    destruct (contents f) as [|c cs] eqn:Hcs;
      [destruct (isUser role) eqn:Hu|].
    + right. cbn [contents].
      assert (role = RoleName "user") as ->.
      { destruct role as [name|key]; [|discriminate]. simpl in Hu.
        apply String.eqb_eq in Hu. subst name. reflexivity. }
      pose proof (applySystemInstruction_carries x ps) as (t & Ht & Hot).
      destruct (applySystemInstruction x ps) as [|p ps1] eqn:Happ;
        [destruct Ht|].
      simpl. constructor. split; [reflexivity|].
      exists t. split; [exact Ht|].
      destruct Hot as (b & a & ->). destruct Ho as (b' & a' & ->).
      exists (b +:+ b'), (a' +:+ a). rewrite !append_assoc. reflexivity.
    + left. exists x. split; [exact Hx|exact Ho].
    + left. exists x. split; [exact Hx|exact Ho].
  - right. cbn [contents].
    match goal with
    | |- Exists _ (match ?ps with [] => _ | _ :: _ => _ end) =>
        destruct ps; [exact Hc|]
    end.
    apply Exists_app. left. exact Hc.
Qed.

(** A system text that is kept stays kept when the next message is
    formatted. *)
Lemma formatMessage_keeps ast parse image isLast msg f f' s :
  s <> "" -> formatMessage ast parse image isLast msg f = Returned f' ->
  kept s f -> kept s f'.
Proof.
  intros Hs. unfold formatMessage.
  destruct (roleMap (msgRole msg)) as [role|] eqn:Hrole;
    [|intros H; inversion H; subst; auto].
  destruct (msgRole msg) eqn:Hr;
    try (destruct (partsOf ast parse image isLast msg) as [ps|e];
         [|discriminate];
         intros H; inversion H; subst; apply place_keeps; assumption).
  destruct (msgContent msg) as [s'| |];
    intros H; inversion H; subst; auto.
  intros [(x & Hx & Ho)|Hc]; [left|right; exact Hc].
  eexists. split; [reflexivity|].
  rewrite (kept_pending _ _ _ Hs Hx Ho).
  apply occursIn_append_r. apply occursIn_append_r. exact Ho.
Qed.

Lemma formatMessage_takes ast parse image isLast msg f f' s :
  systemText msg = Some s ->
  formatMessage ast parse image isLast msg f = Returned f' -> kept s f'.
Proof.
  unfold systemText, formatMessage.
  destruct (msgRole msg); try discriminate.
  destruct (msgContent msg); try discriminate.
  intros H. inversion H; subst. simpl. intros H'. inversion H'; subst.
  left. simpl. eexists. split; [reflexivity|].
  apply occursIn_append_l. apply occursIn_refl.
Qed.

Lemma formatEach_keeps ast parse image msgs f f' s :
  s <> "" -> formatEach ast parse image msgs f = Returned f' ->
  kept s f -> kept s f'.
Proof.
  intros Hs. revert f. induction msgs as [|msg rest IH]; intros f.
  - intros H. inversion H; subst. auto.
  - cbn [formatEach].
    destruct (formatMessage ast parse image _ msg f) as [f1|e] eqn:Hone;
      [|discriminate].
    intros H Hk. apply (IH f1 H).
    eapply formatMessage_keeps; eassumption.
Qed.

Lemma formatEach_takes ast parse image msgs f f' s :
  s <> "" -> In (Some s) (systemText <$> msgs) ->
  formatEach ast parse image msgs f = Returned f' -> kept s f'.
Proof.
  intros Hs. revert f. induction msgs as [|msg rest IH]; intros f; [intros []|].
  cbn [fmap list_fmap formatEach]. intros Hin.
  destruct (formatMessage ast parse image _ msg f) as [f1|e] eqn:Hone;
    [|discriminate].
  intros H. destruct Hin as [Hin|Hin].
  - eapply formatEach_keeps; [exact Hs|exact H|].
    eapply formatMessage_takes; eassumption.
  - eapply IH; eassumption.
Qed.

(** X2.  No system text is lost by [formatMessages]: in the contents it
    returns, the non-empty string content of a system message, wherever the
    message stands, occurs in a text part of a content with the role "user".
    It is merged into the first user message when that message opens the
    contents, and otherwise it is put in front as a user content of its
    own. *)
Theorem system_text_is_never_lost ast parse image msgs s cs :
  formatMessages ast parse image msgs = Returned cs ->
  In (Some s) (systemText <$> msgs) ->
  s <> "" ->
  Exists (carries s) cs.
Proof.
  intros Hcs Hin Hs. unfold formatMessages in Hcs.
  destruct (formatEach ast parse image msgs (mkFormatting [] None))
    as [f|e] eqn:Hf; [|discriminate].
  inversion Hcs; subst cs.
  pose proof (formatEach_takes ast parse image msgs _ _ s Hs Hin Hf)
    as [(x & Hx & Ho)|Hc].
  - rewrite (kept_pending _ _ _ Hs Hx Ho).
    constructor. split; [reflexivity|].
    exists x. split; [left; reflexivity|exact Ho].
  - destruct (pending _); [apply Exists_cons_tl|]; exact Hc.
Qed.

(** The conversation of the OAuth loop after one step: the system prompt
    opens the first user content, before the instruction. *)
Lemma system_text_is_never_lost_witness :
  formatMessages "" parseSample None sampleMessages
  = Returned
      [ mkContent (RoleName "user")
          [TextOf ("You are a web agent." +:+ Js.newline +:+ Js.newline
                   +:+ "open example.com")];
        mkContent (RoleName "model") [FunctionCall "goto" "{}"];
        mkContent (RoleName "user") [TextOf "{}"] ]
  /\ Exists (carries "You are a web agent.")
       [ mkContent (RoleName "user")
           [TextOf ("You are a web agent." +:+ Js.newline +:+ Js.newline
                    +:+ "open example.com")];
         mkContent (RoleName "model") [FunctionCall "goto" "{}"];
         mkContent (RoleName "user") [TextOf "{}"] ].
Proof.
  split; [reflexivity|].
  apply (system_text_is_never_lost "" parseSample None sampleMessages
           "You are a web agent." _ eq_refl).
  - simpl. left. reflexivity.
  - discriminate.
Defined.

(** *** The text handed to JSON.parse *)

Lemma rev_app_append (s t : string) :
  String.rev_app s t = String.rev s +:+ t.
Proof.
  unfold String.rev. revert t.
  induction s as [|c s IH]; intros t; [reflexivity|].
  cbn [String.rev_app]. rewrite (IH (String c t)), (IH (String c "")).
  rewrite append_assoc. reflexivity.
Qed.

Lemma rev_append (s t : string) :
  String.rev (s +:+ t) = String.rev t +:+ String.rev s.
Proof.
  induction s as [|c s IH].
  - symmetry. apply append_nil_r.
  - rewrite append_cons. unfold String.rev at 1 3. cbn [String.rev_app].
    rewrite !rev_app_append, IH, append_assoc. reflexivity.
Qed.

Lemma rev_involutive (s : string) : String.rev (String.rev s) = s.
Proof.
  induction s as [|c s IH]; [reflexivity|].
  unfold String.rev at 2. cbn [String.rev_app].
  rewrite rev_app_append, rev_append, IH. reflexivity.
Qed.

Lemma afterPrefix_append (p s : string) : Js.afterPrefix p (p +:+ s) = Some s.
Proof.
  induction p as [|c p IH]; [destruct s; reflexivity|].
  rewrite append_cons. cbn [Js.afterPrefix].
  rewrite Ascii.eqb_refl. exact IH.
Qed.

Lemma beforeSuffix_append (p s : string) :
  Js.beforeSuffix p (s +:+ p) = Some s.
Proof.
  unfold Js.beforeSuffix. rewrite rev_append, afterPrefix_append. simpl.
  rewrite rev_involutive. reflexivity.
Qed.

Lemma trimEnd_ends (s : string) c :
  Js.isSpace c = false ->
  Js.trimEnd (s +:+ String c "") = s +:+ String c "".
Proof.
  intros Hc. induction s as [|a s IH].
  - change ("" +:+ String c "") with (String c "").
    cbn [Js.trimEnd]. rewrite Hc. reflexivity.
  - rewrite append_cons. cbn [Js.trimEnd]. rewrite IH.
    destruct s; reflexivity.
Qed.

(** X3.  A reply that wraps its JSON in a fence, an opening line with the
    fence and the word json and a closing line with the fence, is handed to
    [JSON.parse] as exactly the text between the two lines, whatever that
    text is, as long as it is not empty. *)
Theorem fenced_json_is_unwrapped (body : string) :
  body <> "" ->
  potentialJson
    (Some ("```json" +:+ Js.newline +:+ body +:+ Js.newline +:+ "```"))
  = body.
Proof.
  intros Hbody. unfold potentialJson.
  assert (Js.trim ("```json" +:+ Js.newline +:+ body +:+ Js.newline +:+ "```")
          = "```json" +:+ Js.newline +:+ body +:+ Js.newline +:+ "```") as ->.
  { unfold Js.trim.
    change (Js.trimStart
              ("```json" +:+ Js.newline +:+ body +:+ Js.newline +:+ "```"))
      with ("```json" +:+ Js.newline +:+ body +:+ Js.newline +:+ "```").
    replace ("```json" +:+ Js.newline +:+ body +:+ Js.newline +:+ "```")
      with (("```json" +:+ Js.newline +:+ body +:+ Js.newline +:+ "``")
            +:+ "`") by (rewrite !append_assoc; reflexivity).
    apply trimEnd_ends. reflexivity. }
  unfold stripFences. rewrite afterPrefix_append, afterPrefix_append.
  cbn [default from_option]. unfold id.
  replace (body +:+ Js.newline +:+ "```")
    with ((body +:+ Js.newline) +:+ "```") by apply append_assoc.
  rewrite beforeSuffix_append. rewrite beforeSuffix_append.
  cbn [default from_option]. unfold id.
  unfold Js.orElse. destruct body; [congruence|reflexivity].
Qed.

(** A fenced array. *)
Lemma fenced_json_is_unwrapped_witness :
  potentialJson
    (Some ("```json" +:+ Js.newline +:+ "[1, 2]" +:+ Js.newline +:+ "```"))
  = "[1, 2]".
Proof. apply (fenced_json_is_unwrapped "[1, 2]"). discriminate. Defined.

(** *** The backoff between retries *)

Lemma attemptFrom_schedule JSON_parse request response_model built
    (n k : nat) :
  sublist
    (sleeps (snd (attemptFrom JSON_parse request response_model built n k)))
    (backoffSchedule n).
Proof.
  destruct built as [e|];
    [rewrite attemptFrom_unbuilt; apply sublist_nil_l|].
  revert k. induction n as [|n IH]; intros k.
  - destruct (attemptFrom_step JSON_parse request response_model 0 k)
      as [[_ [v ->]]|[_ [e [_ ->]]]]; constructor.
  - destruct (attemptFrom_step JSON_parse request response_model (S n) k)
      as [[_ [v ->]]|[_ ->]]; [apply sublist_nil_l|].
    cbn [snd sleeps backoffSchedule].
    destruct (transportFailed request k); cbn [app sleeps].
    + apply sublist_skip. apply IH.
    + apply sublist_cons. apply IH.
Qed.

Lemma sublist_sum (xs ys : list Z) :
  sublist xs ys -> Forall (fun y => 0 <= y) ys ->
  0 <= foldr Z.add 0 xs <= foldr Z.add 0 ys.
Proof.
  induction 1 as [|x xs ys _ IH|y xs ys _ IH]; intros Hpos.
  - simpl. lia.
  - inversion Hpos; subst. specialize (IH ltac:(assumption)). simpl. lia.
  - inversion Hpos; subst. specialize (IH ltac:(assumption)). simpl. lia.
Qed.

(** X4.  The sleeps of [createChatCompletion] follow the schedule
    [1000 * (4 - r)] ms for [r = retries, retries - 1, ..., 1], in this
    order and each at most once (an attempt that fails in parsing uses up
    its retry without sleeping); with the default budget of three retries
    that is one, two and three seconds, six seconds in all at most. *)
Theorem backoff_follows_the_schedule
    (ast : string) (JSON_parse : string -> string + string)
    (toGeminiSchema : option Thrown) (request : nat -> Reply)
    (options : ChatCompletionOptions) (retries : Z) :
  sublist
    (sleeps (snd (createChatCompletion ast JSON_parse toGeminiSchema request
                    options retries)))
    (backoffSchedule (Z.to_nat retries))
  /\ 0 <= sleptMs (snd (createChatCompletion ast JSON_parse toGeminiSchema
                          request options defaultRetries)) <= 6000.
Proof.
  unfold createChatCompletion. split; [apply attemptFrom_schedule|].
  unfold sleptMs.
  pose proof (sublist_sum _ _
                (attemptFrom_schedule JSON_parse request
                   (optResponseModel options)
                   (building ast JSON_parse toGeminiSchema options)
                   (Z.to_nat defaultRetries) 0)) as H.
  change (backoffSchedule (Z.to_nat defaultRetries)) with [1000; 2000; 3000] in H.
  simpl in H. apply H. repeat constructor; lia.
Qed.

End CodeAssistFacts.

(** ** The agent handler *)

Module HandlerFacts.
Import Handler Samples.

(** *** What the small state updates leave alone *)

Lemma state_emit opts u r : state (emit opts u r) = state r.
Proof. unfold emit. destruct (onStep opts); reflexivity. Qed.

Lemma stepNumber_emit opts u r : stepNumber (emit opts u r) = stepNumber r.
Proof. unfold emit. destruct (onStep opts); reflexivity. Qed.

Lemma log_emit opts u r :
  log (emit opts u r) = log r ++ (if onStep opts then [OnStep u] else []).
Proof.
  unfold emit. destruct (onStep opts); simpl; [reflexivity|].
  symmetry. apply app_nil_r.
Qed.

Lemma modelCalls_app evs1 evs2 :
  modelCalls (evs1 ++ evs2) = (modelCalls evs1 + modelCalls evs2)%nat.
Proof.
  induction evs1 as [|e evs1 IH]; simpl; [reflexivity|].
  destruct e; simpl; rewrite IH; reflexivity.
Qed.

Lemma updates_app evs1 evs2 :
  updates (evs1 ++ evs2) = updates evs1 ++ updates evs2.
Proof.
  induction evs1 as [|e evs1 IH]; simpl; [reflexivity|].
  destruct e; simpl; rewrite IH; reflexivity.
Qed.

Lemma modelCalls_emit opts u r :
  modelCalls (log (emit opts u r)) = modelCalls (log r).
Proof.
  rewrite log_emit, modelCalls_app. destruct (onStep opts); simpl; lia.
Qed.

(** [pushStamped] appends the stamped actions and touches nothing else. *)
Lemma pushStamped_actions w mapped s :
  AgentState.actions (pushStamped w mapped s)
  = AgentState.actions s
      ++ stampAll w (AgentState.currentPageUrl s)
           (length (AgentState.actions s)) mapped.
Proof.
  revert s. induction mapped as [|a rest IH]; intros s; simpl.
  - symmetry. apply app_nil_r.
  - rewrite IH. simpl. rewrite length_app. simpl.
    rewrite <- app_assoc. simpl.
    replace (length (AgentState.actions s) + 1)%nat
      with (S (length (AgentState.actions s))) by lia.
    reflexivity.
Qed.

Lemma pushStamped_completed w mapped s :
  AgentState.completed (pushStamped w mapped s) = AgentState.completed s.
Proof.
  revert s. induction mapped as [|a rest IH]; intros s; simpl;
    [reflexivity|]. rewrite IH. reflexivity.
Qed.



Lemma sliceLast_zero {A} (xs : list A) : Js.sliceLast 0 xs = xs.
Proof. reflexivity. Qed.

(** *** The step ceiling *)

Lemma effectiveMaxSteps_falsy v :
  Js.truthyNumber v = false -> effectiveMaxSteps v = 20.
Proof.
  destruct v as [[|z]|]; simpl; try reflexivity.
  destruct (z =? 0); [reflexivity|discriminate].
Qed.

Lemma effectiveMaxSteps_nonzero v : effectiveMaxSteps v <> 0.
Proof.
  destruct v as [[|z]|]; simpl; try lia.
  destruct (z =? 0) eqn:Hz; lia.
Qed.

(** *** The tool loop of the OAuth backend *)

Lemma state_closeToolCall w opts txt tc args r :
  AgentState.completed (state (closeToolCall w opts txt tc args r)) = true.
Proof.
  unfold closeToolCall. rewrite state_emit. simpl.
  rewrite pushStamped_completed. reflexivity.
Qed.

Lemma modelCalls_closeToolCall w opts txt tc args r :
  modelCalls (log (closeToolCall w opts txt tc args r)) = modelCalls (log r).
Proof. unfold closeToolCall. rewrite modelCalls_emit. reflexivity. Qed.

Lemma completed_toolReturned w opts step pos txt tc args out r :
  AgentState.completed (state (toolReturned w opts step pos txt tc args out r))
  = AgentState.completed (state r).
Proof.
  unfold toolReturned. rewrite state_emit. simpl.
  rewrite pushStamped_completed. reflexivity.
Qed.

Lemma modelCalls_toolReturned w opts step pos txt tc args out r :
  modelCalls (log (toolReturned w opts step pos txt tc args out r))
  = modelCalls (log r).
Proof. unfold toolReturned. rewrite modelCalls_emit. reflexivity. Qed.

(** Case analysis on the first call of the tool loop: its arguments do not
    parse; it is [close], with arguments or with [null]; or it is another
    call, whose tool returns, throws, or is not in the set. *)
Ltac tool_cases w tools tc :=
  cbn [runToolCalls];
  destruct (parsedArguments w tc) as [?parsed|?syntaxError] eqn:?;
  [destruct (isClose (toolName tc)) eqn:?;
   [match goal with
    | Hparsed : parsedArguments w tc = Returned ?a |- _ =>
        destruct a as [?closeArgs|]
    end
   |destruct (tools !! toolName tc) as [?tool|] eqn:?;
    [match goal with
     | |- context [Tool.execute ?t ?s ?p ?a] =>
         destruct (Tool.execute t s p a) as [?out|?err] eqn:?
     end|]]
  |]; cbn [toolsRun].

Lemma modelCalls_runToolCalls w opts tools step pos txt calls r results :
  modelCalls
    (log (toolsRun (runToolCalls w opts tools step pos txt calls r results)))
  = modelCalls (log r).
Proof.
  revert pos r results.
  induction calls as [|tc rest IH]; intros pos r results; [reflexivity|].
  tool_cases w tools tc.
  - apply modelCalls_closeToolCall.
  - reflexivity.
  - rewrite IH, modelCalls_toolReturned. simpl.
    rewrite modelCalls_app. simpl. lia.
  - rewrite IH. simpl. rewrite modelCalls_app. simpl. lia.
  - apply IH.
  - reflexivity.
Qed.

(** A tool loop that is left normally has completed the state exactly when
    it met a [close]. *)
Lemma completed_runToolCalls w opts tools step pos txt calls r results r'
    results' :
  runToolCalls w opts tools step pos txt calls r results
  = Finished r' results' ->
  AgentState.completed (state r')
  = hasClose calls || AgentState.completed (state r).
Proof.
  revert pos r results.
  induction calls as [|tc rest IH]; intros pos r results.
  - intros H. inversion H; subst. reflexivity.
  - unfold hasClose in *. cbn [existsb]. tool_cases w tools tc;
      try discriminate; cbn [orb].
    + intros H. inversion H; subst. apply state_closeToolCall.
    + intros H. rewrite (IH _ _ _ H), completed_toolReturned. reflexivity.
    + intros H. rewrite (IH _ _ _ H). reflexivity.
    + apply IH.
Qed.

(** However the tool loop ends, it completes the state only on a
    [close]. *)
Lemma completed_toolsRun w opts tools step pos txt calls r results :
  AgentState.completed
    (state (toolsRun (runToolCalls w opts tools step pos txt calls r results)))
  = true ->
  hasClose calls || AgentState.completed (state r) = true.
Proof.
  revert pos r results.
  induction calls as [|tc rest IH]; intros pos r results.
  - intros H. exact H.
  - unfold hasClose in *. cbn [existsb]. tool_cases w tools tc; cbn [orb];
      try reflexivity.
    + intros H. apply IH in H. rewrite completed_toolReturned in H. exact H.
    + intros H. apply IH in H. exact H.
    + apply IH.
    + intros H. rewrite H. apply orb_true_r.
Qed.

(** The [toolResults] array only grows. *)
Lemma results_runToolCalls w opts tools step pos txt calls r results r'
    results' :
  runToolCalls w opts tools step pos txt calls r results
  = Finished r' results' ->
  exists more, results' = results ++ more.
Proof.
  revert pos r results.
  induction calls as [|tc rest IH]; intros pos r results.
  - intros H. inversion H; subst. exists []. symmetry. apply app_nil_r.
  - tool_cases w tools tc; try discriminate.
    + intros H. inversion H; subst. eexists. reflexivity.
    + intros H. destruct (IH _ _ _ H) as [more ->].
      eexists. rewrite <- app_assoc. reflexivity.
    + intros H. destruct (IH _ _ _ H) as [more ->].
      eexists. rewrite <- app_assoc. reflexivity.
    + intros H. destruct (IH _ _ _ H) as [more ->].
      eexists. rewrite <- app_assoc. reflexivity.
Qed.

(** *** How the log grows *)

Lemma extendsBy_refl P r : extendsBy P r r.
Proof. exists []. split; [symmetry; apply app_nil_r|constructor]. Qed.

Lemma extendsBy_trans P r1 r2 r3 :
  extendsBy P r1 r2 -> extendsBy P r2 r3 -> extendsBy P r1 r3.
Proof.
  intros [e1 [H1 F1]] [e2 [H2 F2]]. exists (e1 ++ e2). split.
  - rewrite H2, H1, app_assoc. reflexivity.
  - apply Forall_app. split; assumption.
Qed.

Lemma extendsBy_weaken (P Q : Event -> Prop) r r' :
  (forall e, P e -> Q e) -> extendsBy P r r' -> extendsBy Q r r'.
Proof.
  intros HPQ [evs [H F]]. exists evs. split; [exact H|].
  eapply Forall_impl; eauto.
Qed.

Lemma extendsBy_in P r r' e :
  extendsBy P r r' -> In e (log r') -> In e (log r) \/ P e.
Proof.
  intros [evs [H F]] Hin. rewrite H in Hin. apply in_app_or in Hin.
  destruct Hin as [Hin|Hin]; [left; exact Hin|right].
  rewrite Forall_forall in F. apply F. apply list_elem_of_In. exact Hin.
Qed.

Lemma extendsBy_logged (P : Event -> Prop) e r :
  P e -> extendsBy P r (logged e r).
Proof. intros H. exists [e]. split; [reflexivity|]. repeat constructor. exact H. Qed.

Lemma extendsBy_onState P f r : extendsBy P r (onState f r).
Proof. exists []. split; [symmetry; apply app_nil_r|constructor]. Qed.

Lemma extendsBy_emit opts u r : extendsBy quiet r (emit opts u r).
Proof.
  unfold emit. destruct (onStep opts).
  - apply extendsBy_logged. exact I.
  - apply extendsBy_refl.
Qed.

Lemma extendsBy_startStep opts r : extendsBy quiet r (startStep opts r).
Proof.
  unfold startStep.
  eapply extendsBy_trans; [|apply extendsBy_emit].
  exists []. split; [symmetry; apply app_nil_r|constructor].
Qed.

Lemma extendsBy_collectReasoning P txt r :
  extendsBy P r (collectReasoning txt r).
Proof.
  unfold collectReasoning. destruct (Js.truthy txt);
    [apply extendsBy_onState|apply extendsBy_refl].
Qed.

Lemma extendsBy_closeToolCall w opts txt tc args r :
  extendsBy quiet r (closeToolCall w opts txt tc args r).
Proof.
  unfold closeToolCall.
  eapply extendsBy_trans; [|apply extendsBy_emit].
  repeat (eapply extendsBy_trans; [|apply extendsBy_onState]).
  apply extendsBy_refl.
Qed.

Lemma extendsBy_toolReturned w opts step pos txt tc args out r :
  extendsBy quiet r (toolReturned w opts step pos txt tc args out r).
Proof.
  unfold toolReturned.
  eapply extendsBy_trans; [|apply extendsBy_emit].
  repeat (eapply extendsBy_trans; [|apply extendsBy_onState]).
  apply extendsBy_refl.
Qed.

Lemma extendsBy_runToolCalls w opts tools step pos txt calls r results :
  extendsBy quiet r
    (toolsRun (runToolCalls w opts tools step pos txt calls r results)).
Proof.
  revert pos r results.
  induction calls as [|tc rest IH]; intros pos r results;
    [apply extendsBy_refl|].
  tool_cases w tools tc.
  - apply extendsBy_closeToolCall.
  - unfold closeWithNull.
    repeat (eapply extendsBy_trans; [|apply extendsBy_onState]).
    apply extendsBy_refl.
  - eapply extendsBy_trans; [|apply IH].
    eapply extendsBy_trans; [|apply extendsBy_toolReturned].
    apply extendsBy_logged. exact I.
  - eapply extendsBy_trans; [|apply IH]. apply extendsBy_logged. exact I.
  - apply IH.
  - apply extendsBy_refl.
Qed.

Lemma extendsBy_checkPause opts step r rej r0 :
  checkPause opts step r = (rej, r0) ->
  extendsBy (fun e => e = CheckedPause step) r r0.
Proof.
  unfold checkPause. destruct (checkPauseState opts); intros H;
    inversion H; subst.
  - apply extendsBy_logged. reflexivity.
  - apply extendsBy_refl.
Qed.

(** *** The agent loop of the OAuth backend *)

Lemma state_startStep opts r : state (startStep opts r) = state r.
Proof. unfold startStep. rewrite state_emit. reflexivity. Qed.

Lemma stepNumber_startStep opts r :
  stepNumber (startStep opts r) = S (stepNumber r).
Proof. unfold startStep. rewrite stepNumber_emit. reflexivity. Qed.

Lemma modelCalls_startStep opts r :
  modelCalls (log (startStep opts r)) = modelCalls (log r).
Proof. unfold startStep. rewrite modelCalls_emit. reflexivity. Qed.

Lemma checkPause_inv opts step r rej r0 :
  checkPause opts step r = (rej, r0) ->
  state r0 = state r /\ stepNumber r0 = stepNumber r
  /\ modelCalls (log r0) = modelCalls (log r)
  /\ rej = pauseRejects opts step.
Proof.
  unfold checkPause, pauseRejects.
  destruct (checkPauseState opts) as [check|]; intros H; inversion H; subst;
    simpl; repeat split; try reflexivity.
  rewrite modelCalls_app. simpl. lia.
Qed.

Lemma completed_collectReasoning txt r :
  AgentState.completed (state (collectReasoning txt r))
  = AgentState.completed (state r).
Proof. unfold collectReasoning. destruct (Js.truthy txt); reflexivity. Qed.

Lemma modelCalls_collectReasoning txt r :
  modelCalls (log (collectReasoning txt r)) = modelCalls (log r).
Proof. unfold collectReasoning. destruct (Js.truthy txt); reflexivity. Qed.

Lemma extendsBy_called opts step chat r rej r0 :
  checkPause opts step r = (rej, r0) ->
  extendsBy (ofIteration step chat) r
    (logged (CalledModel step chat) (startStep opts r0)).
Proof.
  intros Hp. unfold ofIteration.
  eapply extendsBy_trans.
  - eapply extendsBy_weaken; [|eapply extendsBy_checkPause; exact Hp].
    simpl. intros e ->. right. left. reflexivity.
  - eapply extendsBy_trans.
    + eapply extendsBy_weaken; [|apply extendsBy_startStep].
      simpl. intros e He. left. exact He.
    + apply extendsBy_logged. right. right. reflexivity.
Qed.

Lemma extendsBy_tools w opts tools step chat r rej r0 txt calls :
  checkPause opts step r = (rej, r0) ->
  extendsBy (ofIteration step chat) r
    (toolsRun (runToolCalls w opts tools step 0 txt calls
            (collectReasoning txt
               (logged (CalledModel step chat) (startStep opts r0))) [])).
Proof.
  intros Hp.
  eapply extendsBy_trans; [eapply extendsBy_called; exact Hp|].
  eapply extendsBy_trans; [apply extendsBy_collectReasoning|].
  eapply extendsBy_weaken; [|apply extendsBy_runToolCalls].
  intros e He. left. exact He.
Qed.

Lemma extendsBy_paused opts step chat r rej r0 :
  checkPause opts step r = (rej, r0) ->
  extendsBy (ofIteration step chat) r r0.
Proof.
  intros Hp. eapply extendsBy_weaken; [|eapply extendsBy_checkPause; exact Hp].
  simpl. intros e ->. right. left. reflexivity.
Qed.

Lemma extendsBy_collected opts step chat r rej r0 txt :
  checkPause opts step r = (rej, r0) ->
  extendsBy (ofIteration step chat) r
    (collectReasoning txt (logged (CalledModel step chat) (startStep opts r0))).
Proof.
  intros Hp.
  eapply extendsBy_trans; [eapply extendsBy_called; exact Hp|].
  apply extendsBy_collectReasoning.
Qed.

Lemma checkPause_in opts step r rej r0 e :
  checkPause opts step r = (rej, r0) ->
  In e (log r0) -> In e (log r) \/ e = CheckedPause step.
Proof.
  intros Hp Hin.
  exact (extendsBy_in _ _ _ _ (extendsBy_checkPause _ _ _ _ _ Hp) Hin).
Qed.

Lemma called_in step chat r r' k msgs :
  extendsBy (ofIteration step chat) r r' ->
  In (CalledModel k msgs) (log r') ->
  In (CalledModel k msgs) (log r) \/ (k = step /\ msgs = chat).
Proof.
  intros Hext Hin. destruct (extendsBy_in _ _ _ _ Hext Hin) as [H|H];
    [left; exact H|right].
  destruct H as [[]|[H|H]]; [discriminate|]. inversion H. split; reflexivity.
Qed.

Lemma paused_in step chat r r' k :
  extendsBy (ofIteration step chat) r r' ->
  In (CheckedPause k) (log r') ->
  In (CheckedPause k) (log r) \/ k = step.
Proof.
  intros Hext Hin. destruct (extendsBy_in _ _ _ _ Hext Hin) as [H|H];
    [left; exact H|right].
  destruct H as [[]|[H|H]]; [|discriminate]. inversion H. reflexivity.
Qed.

(** Case analysis along one iteration of the agent loop.  The equations of
    the decisions taken are kept as [Hdone], [Hpause], [Hreads], [Hllm],
    [Hchoice], [Hcalls], [Htools], [Hdone5]; [Hext] relates the log at the
    end of the iteration to the log at its start.  The cases come in this
    order: the state is completed already; the pause check rejects, with a
    value whose message cannot be read, or with another one; the answer has
    no tool calls; the tool loop is left, with the state completed or not;
    the tool loop is aborted; the answer has no choice; the provider call
    throws. *)
Ltac loop_cases :=
  match goal with
  | |- context [agentLoop ?w ?o ?t (S ?n) ?s ?c ?u ?r] =>
    cbn [agentLoop];
    destruct (AgentState.completed (state r)) eqn:Hdone;
    [|destruct (checkPause o s r) as [[?rej|] ?r0] eqn:Hpause;
      match goal with
      | Hp : checkPause o s r = _ |- _ =>
          pose proof (checkPause_inv _ _ _ _ _ Hp)
            as (Hst0 & Hnum0 & Hcalls0 & Hrej);
          pose proof (extendsBy_paused o s c r _ _ Hp) as Hext0;
          pose proof (extendsBy_called o s c r _ _ Hp) as Hext3
      end;
      [match goal with
       | |- context [Js.readingMessage ?x] =>
           destruct (Js.readingMessage x) as [?typeError|] eqn:Hreads
       end
      |destruct (createChatCompletion w s c) as [?response|?error] eqn:Hllm;
        [match goal with
         | |- context [head (choices ?resp)] =>
             destruct (head (choices resp)) as [?choice|] eqn:Hchoice
         end;
         [match goal with
          | |- context [match tool_calls ?ch with _ => _ end] =>
              match goal with
              | Hp : checkPause o s r = _ |- _ =>
                  pose proof (extendsBy_collected o s c r _ _
                                (Js.optOrElse (content ch) "") Hp) as Hext4;
                  pose proof (extendsBy_tools w o t s c _ _ _
                                (Js.optOrElse (content ch) "") (tool_calls ch)
                                Hp) as Hext
              end;
              destruct (tool_calls ch) as [|?tc ?tcs] eqn:Hcalls
          end;
          [|match goal with
            | |- context [runToolCalls w o t s ?p ?x ?cs ?r4 ?res] =>
                pose proof (modelCalls_runToolCalls w o t s p x cs r4 res)
                  as Hmc;
                pose proof (completed_toolsRun w o t s p x cs r4 res)
                  as Hclosed;
                pose proof (completed_runToolCalls w o t s p x cs r4 res)
                  as Hcompl;
                destruct (runToolCalls w o t s p x cs r4 res)
                  as [?r5 ?results|?abort ?r5] eqn:Htools;
                cbn [toolsRun] in *;
                [specialize (Hcompl _ _ eq_refl);
                 match goal with
                 | |- context [if AgentState.completed (state ?r')
                               then _ else _] =>
                     destruct (AgentState.completed (state r')) eqn:Hdone5
                 end
                |clear Hcompl]
            end]
         |]
        |]]]
  end.

(** Rewrites the bookkeeping facts of an iteration into plain form. *)
Ltac loop_norm :=
  cbn [runOf toolsRun fst snd log logged state] in *;
  rewrite ?modelCalls_collectReasoning, ?completed_collectReasoning in *;
  cbn [runOf toolsRun fst snd log logged state] in *;
  rewrite ?modelCalls_app, ?modelCalls_startStep, ?state_startStep in *;
  cbn [modelCalls] in *.



(** The tool loop is left normally on an answer with [close] exactly when
    it reaches the [close] call. *)
Lemma reachesClose_finished w opts tools step pos txt calls r results r'
    results' :
  runToolCalls w opts tools step pos txt calls r results
  = Finished r' results' ->
  reachesClose w calls = hasClose calls.
Proof.
  revert pos r results.
  induction calls as [|tc rest IH]; intros pos r results; [reflexivity|].
  unfold hasClose in *. cbn [existsb reachesClose].
  tool_cases w tools tc; try discriminate; cbn [orb]; try reflexivity;
    intros H; exact (IH _ _ _ H).
Qed.



(** A pause check that rejects at step index [k] ends the loop with the
    state the first [k - step] iterations built, not completed. *)
Lemma agentLoop_paused w opts tools remaining step chat usage r k :
  In (CheckedPause k)
    (log (runOf (agentLoop w opts tools remaining step chat usage r))) ->
  In (CheckedPause k) (log r)
  \/ ((step <= k)%nat
      /\ (pauseRejects opts k <> None ->
          AgentState.completed
            (state (runOf (agentLoop w opts tools remaining step chat usage r)))
          = false
          /\ state (runOf (agentLoop w opts tools remaining step chat usage r))
             = state (runOf (agentLoop w opts tools (k - step) step chat
                               usage r)))).
Proof.
  revert step chat usage r.
  induction remaining as [|n IH]; intros step chat usage r; [left; assumption|].
  intros Hin; revert Hin; loop_cases; cbn [runOf fst]; intros Hin.
  - left; exact Hin.
  - destruct (checkPause_in _ _ _ _ _ _ Hpause Hin) as [Hold|Hnew];
      [left; exact Hold|right]. inversion Hnew; subst k.
    split; [lia|]. intros _.
    rewrite Nat.sub_diag. simpl. rewrite Hst0. split; [exact Hdone|reflexivity].
  - destruct (checkPause_in _ _ _ _ _ _ Hpause Hin) as [Hold|Hnew];
      [left; exact Hold|right]. inversion Hnew; subst k.
    split; [lia|]. intros _.
    rewrite Nat.sub_diag. simpl. rewrite Hst0. split; [exact Hdone|reflexivity].
  - destruct (paused_in _ _ _ _ _ Hext4 Hin) as [Hold| ->];
      [left; exact Hold|right]. split; [lia|]. congruence.
  - destruct (paused_in _ _ _ _ _ Hext Hin) as [Hold| ->];
      [left; exact Hold|right]. split; [lia|]. congruence.
  - apply IH in Hin. destruct Hin as [Hin|[Hle Hright]].
    + destruct (paused_in _ _ _ _ _ Hext Hin) as [Hold| ->];
        [left; exact Hold|right]. split; [lia|]. congruence.
    + right. split; [lia|]. intros Hrejects.
      destruct (Hright Hrejects) as (Hnot & Hstate).
      split; [exact Hnot|]. rewrite Hstate.
      replace (k - step)%nat with (S (k - S step)) by lia.
      cbn [agentLoop]. rewrite Hdone, Hpause, Hllm, Hchoice, Hcalls, Htools.
      rewrite Hdone5. reflexivity.
  - destruct (paused_in _ _ _ _ _ Hext Hin) as [Hold| ->];
      [left; exact Hold|right]. split; [lia|]. congruence.
  - destruct (paused_in _ _ _ _ _ Hext3 Hin) as [Hold| ->];
      [left; exact Hold|right]. split; [lia|]. congruence.
  - destruct (paused_in _ _ _ _ _ Hext3 Hin) as [Hold| ->];
      [left; exact Hold|right]. split; [lia|]. congruence.
Qed.

(** *** The step handler and the generation of the SDK backend *)

Lemma completed_handleToolCall w event i tc s :
  AgentState.completed (handleToolCall w event i tc s)
  = isClose (toolName tc) || AgentState.completed s.
Proof.
  unfold handleToolCall. rewrite pushStamped_completed.
  destruct (isClose (toolName tc)); simpl.
  - destruct (taskCompleteTruthy (toolArgs tc)); reflexivity.
  - destruct (Js.truthy (text event)); reflexivity.
Qed.

Lemma completed_handleToolCalls w event i calls s :
  AgentState.completed (handleToolCalls w event i calls s)
  = hasClose calls || AgentState.completed s.
Proof.
  revert i s. induction calls as [|tc rest IH]; intros i s; [reflexivity|].
  simpl. rewrite IH, completed_handleToolCall. unfold hasClose. simpl.
  destruct (isClose (toolName tc)); simpl; [|reflexivity].
  apply orb_true_r.
Qed.

Lemma handleStepBody_inv w opts k event r :
  let r' := handleStepBody w opts k event r in
  stepNumber r' = stepNumber r
  /\ AgentState.completed (state r')
     = hasClose (toolCalls event) || AgentState.completed (state r)
  /\ extendsBy quiet r r'.
Proof.
  unfold handleStepBody.
  destruct (toolCalls event) as [|tc tcs] eqn:Hcalls; cbv zeta.
  - repeat split. apply extendsBy_refl.
  - rewrite stepNumber_emit, state_emit. cbn [state stepNumber onState].
    cbn [AgentState.completed AgentState.setCurrentPageUrl]. repeat split.
    + apply completed_handleToolCalls.
    + eapply extendsBy_trans; [|apply extendsBy_emit].
      repeat (eapply extendsBy_trans; [|apply extendsBy_onState]).
      apply extendsBy_refl.
Qed.

Lemma stepHandler_continues w opts event r r' :
  stepHandler w opts event r = Continues r' ->
  stepNumber r' = S (stepNumber r)
  /\ AgentState.completed (state r')
     = hasClose (toolCalls event) || AgentState.completed (state r)
  /\ pauseRejects opts (stepNumber r) = None
  /\ extendsBy (ofHandler (stepNumber r)) r r'.
Proof.
  unfold stepHandler.
  destruct (checkPause opts (stepNumber r) (startStep opts r))
    as [[rej|] r0] eqn:Hp; intros H; inversion H; subst; clear H.
  destruct (checkPause_inv _ _ _ _ _ Hp) as (Hst & Hnum & _ & Hrej).
  destruct (handleStepBody_inv w opts (stepNumber r) event r0)
    as (Hnum' & Hcompl & Hext).
  rewrite Hnum', Hnum, stepNumber_startStep, Hcompl, Hst, state_startStep.
  repeat split; [symmetry; exact Hrej|].
  eapply extendsBy_trans.
  { eapply extendsBy_weaken; [|apply extendsBy_startStep].
    intros e He. left. exact He. }
  eapply extendsBy_trans.
  { eapply extendsBy_weaken; [|eapply extendsBy_checkPause; exact Hp].
    simpl. intros e ->. right. reflexivity. }
  eapply extendsBy_weaken; [|exact Hext]. intros e He. left. exact He.
Qed.

Lemma stepHandler_throws w opts event r e r' :
  stepHandler w opts event r = Throws e r' ->
  state r' = state r
  /\ (exists rej,
        pauseRejects opts (stepNumber r) = Some rej /\ e = rethrown rej)
  /\ extendsBy (ofHandler (stepNumber r)) r r'.
Proof.
  unfold stepHandler.
  destruct (checkPause opts (stepNumber r) (startStep opts r))
    as [[rej|] r0] eqn:Hp; intros H; inversion H; subst; clear H.
  destruct (checkPause_inv _ _ _ _ _ Hp) as (Hst & Hnum & _ & Hrej).
  rewrite Hst, state_startStep.
  split; [reflexivity|]. split; [exists rej; split; [symmetry; exact Hrej|reflexivity]|].
  eapply extendsBy_trans.
  { eapply extendsBy_weaken; [|apply extendsBy_startStep].
    intros e0 He. left. exact He. }
  eapply extendsBy_weaken; [|eapply extendsBy_checkPause; exact Hp].
  simpl. intros e0 ->. right. reflexivity.
Qed.


Lemma generate_cons w opts maxSteps g rest steps r :
  generate w opts maxSteps (g :: rest) steps r
  = match g with
    | ProviderFails e => Throws e (logged (GeneratedStep (length steps)) r)
    | Produces event =>
        match stepHandler w opts event (logged (GeneratedStep (length steps)) r) with
        | Throws e r2 => Throws e r2
        | Continues r2 =>
            if handleStop (steps ++ [event]) maxSteps then Continues r2
            else generate w opts maxSteps rest (steps ++ [event]) r2
        end
    end.
Proof. reflexivity. Qed.


Lemma handleStop_close steps event maxSteps :
  hasClose (toolCalls event) = true ->
  handleStop (steps ++ [event]) maxSteps = true.
Proof.
  intros H. unfold handleStop. rewrite last_snoc.
  unfold hasClose in H. rewrite H. reflexivity.
Qed.

(** Case analysis along one generated step.  [Hstep] is the equation of the
    step handler, [Hstop] that of the stop predicate; the facts of
    [stepHandler_continues] and [stepHandler_throws] are unpacked, the
    rejection of the pause check as [Hrejects] and what is thrown for it as
    [Hrethrown]. *)
Ltac generate_cases :=
  match goal with
  | |- context [generate ?w ?o ?m (?g :: ?rest) ?steps ?r] =>
      rewrite (generate_cons w o m g rest steps r);
      destruct g as [?e|?event];
      [|destruct (stepHandler w o event (logged (GeneratedStep (length steps)) r))
          as [?r2|?e ?r2] eqn:Hstep;
        [pose proof (stepHandler_continues _ _ _ _ _ Hstep)
           as (Hnum2 & Hcompl2 & Hpass & Hext2);
         destruct (handleStop (steps ++ [event]) m) eqn:Hstop
        |pose proof (stepHandler_throws _ _ _ _ _ _ Hstep)
           as (Hst2 & (?rej & Hrejects & Hrethrown) & Hext2)]]
  end; cbn [stepNumber logged state log flowRun] in *.


Lemma paused_ofHandler k r r' j :
  extendsBy (ofHandler k) r r' ->
  In (CheckedPause j) (log r') -> In (CheckedPause j) (log r) \/ j = k.
Proof.
  intros Hext Hin. destruct (extendsBy_in _ _ _ _ Hext Hin) as [H|[[]|H]];
    [left; exact H|right]. inversion H. reflexivity.
Qed.

Lemma in_logged e e' r :
  In e (log (logged e' r)) -> In e (log r) \/ e = e'.
Proof.
  simpl. intros H. apply in_app_or in H. destruct H as [H|[H|[]]];
    [left; exact H|right; symmetry; exact H].
Qed.




(** A pause check that rejects at step index [k] ends the generation by a
    throw, of the rejection or of the [catch] that logs it, with the state
    the first [k - length steps] steps built. *)
Lemma generate_paused w opts maxSteps script steps r k :
  stepNumber r = length steps ->
  In (CheckedPause k) (log (flowRun (generate w opts maxSteps script steps r))) ->
  In (CheckedPause k) (log r)
  \/ ((length steps <= k)%nat
      /\ forall e, pauseRejects opts k = Some e ->
           exists r',
             generate w opts maxSteps script steps r = Throws (rethrown e) r'
             /\ state r'
                = state (flowRun (generate w opts maxSteps
                                    (take (k - length steps) script) steps r))).
Proof.
  revert steps r. induction script as [|g rest IH]; intros steps r Hnum Hin;
    [left; exact Hin|].
  revert Hin. generate_cases; intros Hin.
  - destruct (in_logged _ _ _ Hin) as [Hold|Hnew]; [left; exact Hold|].
    discriminate.
  - destruct (paused_ofHandler _ _ _ _ Hext2 Hin) as [Hold| ->].
    + destruct (in_logged _ _ _ Hold) as [Hold'|Hnew]; [left; exact Hold'|].
      discriminate.
    + right. split; [lia|]. intros e He. congruence.
  - apply IH in Hin; [|rewrite Hnum2, length_app; simpl; lia].
    rewrite length_app in Hin. simpl in Hin.
    destruct Hin as [Hin|[Hle Hright]].
    + destruct (paused_ofHandler _ _ _ _ Hext2 Hin) as [Hold| ->].
      * destruct (in_logged _ _ _ Hold) as [Hold'|Hnew]; [left; exact Hold'|].
        discriminate.
      * right. split; [lia|]. intros e He. congruence.
    + right. split; [lia|]. intros e He.
      destruct (Hright e He) as (r' & Heq & Hstate).
      exists r'. split; [exact Heq|]. rewrite Hstate.
      replace (k - length steps)%nat with (S (k - (length steps + 1))) by lia.
      cbn [take]. rewrite generate_cons, Hstep, Hstop. reflexivity.
  - destruct (paused_ofHandler _ _ _ _ Hext2 Hin) as [Hold| ->].
    + destruct (in_logged _ _ _ Hold) as [Hold'|Hnew]; [left; exact Hold'|].
      discriminate.
    + right. split; [lia|]. intros e' He'. rewrite Hnum in Hrejects.
      assert (e' = rej) by congruence. subst e' e.
      exists r2. split; [reflexivity|].
      rewrite Hnum, Nat.sub_diag. simpl. exact Hst2.
Qed.

(** *** Runs as a whole *)

Lemma prepareAgent_inv w opts ctx :
  prepareAgent w opts = Returned ctx ->
  options ctx = opts
  /\ ctxMaxSteps ctx = effectiveMaxSteps (maxSteps opts)
  /\ allTools ctx = mergeTools (builtinTools w) (mcpTools w).
Proof.
  unfold prepareAgent.
  destruct (negb (oauthMode w) && negb (hasLanguageModel w)); [discriminate|].
  intros H. inversion H. repeat split.
Qed.

(** What [execute] returns once [prepareAgent] has returned. *)
Lemma execute_prepared w opts ctx :
  prepareAgent w opts = Returned ctx ->
  execute w opts
  = match runAgent w ctx (initialRun ctx) with
    | (Returned result, r) => (Returned result, log r)
    | (Threw error, r) =>
        (Returned
           {| AgentResult.success := false;
              AgentResult.actions := AgentState.actions (state r);
              AgentResult.message :=
                "Failed to execute task: " +:+ Js.messageOrString error;
              AgentResult.completed := false;
              AgentResult.usage := None |},
         log r)
    end.
Proof. intros H. unfold execute. rewrite H. reflexivity. Qed.

Lemma execute_returned w opts result evs :
  execute w opts = (Returned result, evs) ->
  exists ctx, prepareAgent w opts = Returned ctx.
Proof.
  unfold execute. destruct (prepareAgent w opts) as [ctx|e];
    [eauto|discriminate].
Qed.


(** C10.  A falsy [maxSteps] (0, NaN or left out) makes [prepareAgent], which
    [execute] and [stream] share, set the step ceiling to 20; the ceiling is
    never 0, whatever the caller passes. *)
Theorem falsy_maxSteps_means_twenty w opts ctx :
  Js.truthyNumber (maxSteps opts) = false ->
  prepareAgent w opts = Returned ctx ->
  ctxMaxSteps ctx = 20 /\ forall v, effectiveMaxSteps v <> 0.
Proof.
  intros Hfalsy Hprep.
  destruct (prepareAgent_inv _ _ _ Hprep) as (_ & -> & _).
  split; [apply effectiveMaxSteps_falsy; exact Hfalsy|].
  apply effectiveMaxSteps_nonzero.
Qed.

(** With [maxSteps: 0] and a model that never closes, the OAuth loop calls
    the model twenty times. *)
Lemma falsy_maxSteps_means_twenty_witness :
  modelCalls
    (snd (execute navigatesForever (task (Some (Js.Num 0)) false None)))
  = 20%nat
  /\ exists ctx,
       prepareAgent navigatesForever (task (Some (Js.Num 0)) false None)
       = Returned ctx
       /\ ctxMaxSteps ctx = 20.
Proof.
  split; [vm_compute; reflexivity|].
  eexists. split; [reflexivity|].
  exact (proj1 (falsy_maxSteps_means_twenty navigatesForever
                  (task (Some (Js.Num 0)) false None) _ eq_refl eq_refl)).
Defined.










(** C6.  When the pause check rejects at a step boundary, [execute] returns
    (it does not throw) a result with [completed = false] whose actions are
    those of the state built by the steps that finished before. *)
Theorem pause_rejection_returns_partial_result w opts ctx k e :
  prepareAgent w opts = Returned ctx ->
  In (CheckedPause k) (snd (execute w opts)) ->
  pauseRejects opts k = Some e ->
  exists result,
    fst (execute w opts) = Returned result
    /\ AgentResult.completed result = false
    /\ AgentResult.actions result
       = AgentState.actions (stateAfterSteps w ctx k).
Proof.
  intros Hprep Hin Hrej. rewrite (execute_prepared _ _ _ Hprep) in *.
  destruct (prepareAgent_inv _ _ _ Hprep) as (Hopts & _ & _).
  unfold stateAfterSteps, runAgent, executeWithCodeAssist in *.
  rewrite <- Hopts in Hrej.
  destruct (oauthMode w).
  - pose proof (agentLoop_paused w (options ctx) (allTools ctx)
                  (Z.to_nat (ctxMaxSteps ctx)) 0
                  (SystemMessage (systemPrompt ctx) :: messages ctx)
                  (mkUsage 0 0 0) (initialRun ctx) k) as Hpaused.
    destruct (agentLoop _ _ _ (Z.to_nat (ctxMaxSteps ctx)) _ _ _ _)
      as [r' chat' usage'|e' r'] eqn:Hloop; simpl in Hin, Hpaused;
      destruct (Hpaused Hin) as [[]|[_ Hright]];
      destruct (Hright ltac:(congruence)) as (Hnot & Hst);
      rewrite Nat.sub_0_r in Hst; simpl in Hnot, Hst;
      (eexists; split; [reflexivity|]; simpl;
       split; [first [exact Hnot|reflexivity]|rewrite Hst; reflexivity]).
  - pose proof (generate_paused w (options ctx) (ctxMaxSteps ctx)
                  (generation w) [] (initialRun ctx) k eq_refl) as Hpaused.
    destruct (generate _ _ _ (generation w) _ _) as [r'|e' r'] eqn:Hgen;
      simpl in Hin, Hpaused;
      destruct (Hpaused Hin) as [[]|[_ Hright]];
      destruct (Hright e Hrej) as (r1 & Heq & Hst); inversion Heq; subst.
    eexists. split; [reflexivity|]. simpl.
    rewrite Nat.sub_0_r in Hst. split; [reflexivity|]. rewrite Hst. reflexivity.
Qed.

(** Scenario B on the OAuth backend: the check rejects at the second step;
    the result is not completed and carries the one action of the first
    step. *)
Lemma pause_rejection_returns_partial_result_witness :
  exists result,
    fst (execute navigatesForever (task (Some (Js.Num 5)) false (stopAt 1)))
    = Returned result
    /\ AgentResult.completed result = false
    /\ length (AgentResult.actions result) = 1%nat.
Proof.
  destruct (prepareAgent navigatesForever
              (task (Some (Js.Num 5)) false (stopAt 1)))
    as [ctx|e] eqn:Hprep; [|discriminate].
  destruct (pause_rejection_returns_partial_result navigatesForever
              (task (Some (Js.Num 5)) false (stopAt 1)) ctx 1
              (PlainError "stop") Hprep)
    as (result & Hres & Hnot & Hacts).
  - vm_compute. tauto.
  - reflexivity.
  - exists result. split; [exact Hres|]. split; [exact Hnot|].
    rewrite Hacts. inversion Hprep; subst ctx. vm_compute. reflexivity.
Defined.

(** *** The actions a completed update carries *)


(** *** Runs as sequences of effects *)

(** Evaluates a sample run: the result and the log become the terms the run
    computes to. *)
Ltac run_sample Hexec :=
  match goal with
  | |- context [execute ?w ?o] =>
      destruct (execute w o) as [[?result|?e] ?evs] eqn:Hexec;
      [|vm_compute in Hexec; discriminate];
      let Hc := fresh "Hc" in
      pose proof Hexec as Hc; vm_compute in Hc;
      inversion Hc; subst; clear Hc
  end.

Lemma reaches_refl w opts tools r : reaches w opts tools r r.
Proof. apply rtc_refl. Qed.

Lemma reaches_trans w opts tools r1 r2 r3 :
  reaches w opts tools r1 r2 -> reaches w opts tools r2 r3 ->
  reaches w opts tools r1 r3.
Proof. unfold reaches. intros H1 H2. etransitivity; eassumption. Qed.

Lemma reaches_then w opts tools r1 r2 r3 :
  reaches w opts tools r1 r2 -> Effect w opts tools r2 r3 ->
  reaches w opts tools r1 r3.
Proof. intros H1 H2. eapply rtc_r; eassumption. Qed.

Lemma reaches_closeToolCall w opts tools txt tc closeArgs r :
  reaches w opts tools r (closeToolCall w opts txt tc closeArgs r).
Proof.
  unfold closeToolCall.
  eapply reaches_then; [|apply (effect_update _ _ _ _ _
     (length (mappedByLoop w txt tc (Some closeArgs)
                (CloseAck (reasoning closeArgs)))));
     reflexivity].
  eapply reaches_then; [|apply effect_push].
  eapply reaches_then;
    [|apply (effect_final _ _ _ _
        (if taskCompleteTruthy closeArgs
         then closeMessage
                (AgentState.collectedReasoning
                   (state (onState AgentState.setCompleted r)))
                (reasoning closeArgs)
         else "Task could not be completed"))].
  eapply reaches_then; [apply reaches_refl|apply effect_completed].
Qed.

Lemma reaches_closeWithNull w opts tools r :
  reaches w opts tools r (closeWithNull r).
Proof.
  unfold closeWithNull.
  eapply reaches_then; [|apply effect_final].
  eapply reaches_then; [apply reaches_refl|apply effect_completed].
Qed.

Lemma reaches_toolReturned w opts tools step pos txt tc args out r :
  reaches w opts tools r (toolReturned w opts step pos txt tc args out r).
Proof.
  unfold toolReturned.
  eapply reaches_then; [|apply (effect_update _ _ _ _ _
     (length (mappedByLoop w txt tc args (ToolOutput out)))); reflexivity].
  eapply reaches_then; [|apply effect_url].
  eapply reaches_then; [apply reaches_refl|apply effect_push].
Qed.

Lemma reaches_runToolCalls w opts tools step pos txt calls r results :
  reaches w opts tools r
    (toolsRun (runToolCalls w opts tools step pos txt calls r results)).
Proof.
  revert pos r results.
  induction calls as [|tc rest IH]; intros pos r results;
    [apply reaches_refl|].
  tool_cases w tools tc; cbn [toolsRun].
  - apply reaches_closeToolCall.
  - apply reaches_closeWithNull.
  - eapply reaches_trans; [|apply IH].
    eapply reaches_trans; [|apply reaches_toolReturned].
    eapply reaches_then; [apply reaches_refl|].
    apply effect_executed; [assumption|eauto].
  - eapply reaches_trans; [|apply IH].
    eapply reaches_then; [apply reaches_refl|].
    apply effect_executed; [assumption|eauto].
  - apply IH.
  - apply reaches_refl.
Qed.

Lemma reaches_checkPause w opts tools step r rej r0 :
  checkPause opts step r = (rej, r0) -> reaches w opts tools r r0.
Proof.
  unfold checkPause. destruct (checkPauseState opts); intros H;
    inversion H; subst.
  - eapply reaches_then; [apply reaches_refl|apply effect_check].
  - apply reaches_refl.
Qed.

Lemma reaches_collectReasoning w opts tools txt r :
  reaches w opts tools r (collectReasoning txt r).
Proof.
  unfold collectReasoning. destruct (Js.truthy txt); [|apply reaches_refl].
  eapply reaches_then; [apply reaches_refl|apply effect_reasoning].
Qed.

Lemma reaches_called w opts tools step chat r rej r0 :
  checkPause opts step r = (rej, r0) ->
  reaches w opts tools r (logged (CalledModel step chat) (startStep opts r0)).
Proof.
  intros Hp.
  eapply reaches_then; [|apply effect_called].
  eapply reaches_then; [|apply effect_start].
  eapply reaches_checkPause; exact Hp.
Qed.

(** The run the tool loop of an iteration ends with is reached from the one
    the iteration started with. *)
Lemma reaches_tools w opts tools step chat r rej r0 txt calls :
  checkPause opts step r = (rej, r0) ->
  reaches w opts tools r
    (toolsRun
       (runToolCalls w opts tools step 0 txt calls
          (collectReasoning txt
             (logged (CalledModel step chat) (startStep opts r0))) [])).
Proof.
  intros Hp.
  eapply reaches_trans; [eapply reaches_called; exact Hp|].
  eapply reaches_trans; [apply reaches_collectReasoning|].
  apply reaches_runToolCalls.
Qed.

Lemma reaches_agentLoop w opts tools remaining step chat usage r :
  reaches w opts tools r
    (runOf (agentLoop w opts tools remaining step chat usage r)).
Proof.
  revert step chat usage r.
  induction remaining as [|n IH]; intros step chat usage r;
    [apply reaches_refl|].
  loop_cases; cbn [runOf];
    try (pose proof (reaches_tools w opts tools step chat r _ _
                       (Js.optOrElse (content choice) "") (tc :: tcs) Hpause)
           as Hr;
         rewrite Htools in Hr; cbn [toolsRun] in Hr).
  - apply reaches_refl.
  - eapply reaches_checkPause; exact Hpause.
  - eapply reaches_checkPause; exact Hpause.
  - eapply reaches_trans; [eapply reaches_called; exact Hpause|].
    apply reaches_collectReasoning.
  - exact Hr.
  - eapply reaches_trans; [exact Hr|apply IH].
  - exact Hr.
  - eapply reaches_called; exact Hpause.
  - eapply reaches_called; exact Hpause.
Qed.

Lemma reaches_handleToolCall w opts tools event i tc r :
  reaches w opts tools r (onState (handleToolCall w event i tc) r).
Proof.
  set (r1 := if Js.truthy (text event)
             then onState (AgentState.pushReasoning (text event)) r else r).
  set (r2 := if isClose (toolName tc) then
               if taskCompleteTruthy (toolArgs tc)
               then onState
                      (AgentState.setFinalMessage
                         (closeMessage
                            (AgentState.collectedReasoning
                               (AgentState.setCompleted (state r1)))
                            (reasoning (toolArgs tc))))
                      (onState AgentState.setCompleted r1)
               else onState AgentState.setCompleted r1
             else r1).
  assert (onState (handleToolCall w event i tc) r
          = onState (pushStamped w (mappedBySdk w event i tc)) r2) as ->.
  { unfold handleToolCall, r2, r1.
    destruct (Js.truthy (text event)), (isClose (toolName tc)),
      (taskCompleteTruthy (toolArgs tc)); reflexivity. }
  eapply reaches_then; [|apply effect_push].
  assert (reaches w opts tools r r1) as H1.
  { unfold r1. destruct (Js.truthy (text event)); [|apply reaches_refl].
    eapply reaches_then; [apply reaches_refl|apply effect_reasoning]. }
  eapply reaches_trans; [exact H1|]. unfold r2.
  destruct (isClose (toolName tc)); [|apply reaches_refl].
  destruct (taskCompleteTruthy (toolArgs tc)).
  - eapply reaches_then; [|apply effect_final].
    eapply reaches_then; [apply reaches_refl|apply effect_completed].
  - eapply reaches_then; [apply reaches_refl|apply effect_completed].
Qed.

Lemma reaches_handleToolCalls w opts tools event i calls r :
  reaches w opts tools r (onState (handleToolCalls w event i calls) r).
Proof.
  revert i r. induction calls as [|tc rest IH]; intros i r.
  - destruct r. apply reaches_refl.
  - eapply reaches_trans; [apply (reaches_handleToolCall _ _ _ event i tc)|].
    apply (IH (S i) (onState (handleToolCall w event i tc) r)).
Qed.

Lemma reaches_handleStepBody w opts tools k event r :
  reaches w opts tools r (handleStepBody w opts k event r).
Proof.
  unfold handleStepBody.
  destruct (toolCalls event) as [|tc tcs] eqn:Hcalls; [apply reaches_refl|].
  cbv zeta.
  eapply reaches_then;
    [|apply (effect_update _ _ _ _ _ (length (tc :: tcs))); reflexivity].
  eapply reaches_then; [|apply effect_url].
  apply reaches_handleToolCalls.
Qed.

Lemma reaches_stepHandler w opts tools event r :
  reaches w opts tools r (flowRun (stepHandler w opts event r)).
Proof.
  unfold stepHandler.
  destruct (checkPause opts (stepNumber r) (startStep opts r))
    as [[rej|] r0] eqn:Hp; cbn [flowRun].
  - eapply reaches_trans; [|eapply reaches_checkPause; exact Hp].
    eapply reaches_then; [apply reaches_refl|apply effect_start].
  - eapply reaches_trans; [|apply reaches_handleStepBody].
    eapply reaches_trans; [|eapply reaches_checkPause; exact Hp].
    eapply reaches_then; [apply reaches_refl|apply effect_start].
Qed.

Lemma reaches_generate w opts tools maxSteps script steps r :
  reaches w opts tools r (flowRun (generate w opts maxSteps script steps r)).
Proof.
  revert steps r. induction script as [|g rest IH]; intros steps r;
    [apply reaches_refl|].
  rewrite generate_cons. destruct g as [e|event]; cbn [flowRun].
  - eapply reaches_then; [apply reaches_refl|apply effect_generated].
  - pose proof (reaches_stepHandler w opts tools event
                  (logged (GeneratedStep (length steps)) r)) as Hs.
    assert (reaches w opts tools r (logged (GeneratedStep (length steps)) r))
      as Hg.
    { eapply reaches_then; [apply reaches_refl|apply effect_generated]. }
    destruct (stepHandler w opts event (logged (GeneratedStep (length steps)) r))
      as [r2|e r2]; cbn [flowRun] in *.
    + destruct (handleStop (steps ++ [event]) maxSteps).
      * eapply reaches_trans; eassumption.
      * eapply reaches_trans; [|apply IH]. eapply reaches_trans; eassumption.
    + eapply reaches_trans; eassumption.
Qed.

Lemma reaches_runAgent w ctx r :
  reaches w (options ctx) (allTools ctx) r (snd (runAgent w ctx r)).
Proof.
  unfold runAgent. destruct (oauthMode w).
  - unfold executeWithCodeAssist.
    pose proof (reaches_agentLoop w (options ctx) (allTools ctx)
                  (Z.to_nat (ctxMaxSteps ctx)) 0
                  (SystemMessage (systemPrompt ctx) :: messages ctx)
                  (mkUsage 0 0 0) r) as H.
    destruct (agentLoop w (options ctx) (allTools ctx)
                (Z.to_nat (ctxMaxSteps ctx)) 0
                (SystemMessage (systemPrompt ctx) :: messages ctx)
                (mkUsage 0 0 0) r); exact H.
  - pose proof (reaches_generate w (options ctx) (allTools ctx)
                  (ctxMaxSteps ctx) (generation w) [] r) as H.
    destruct (generate w (options ctx) (ctxMaxSteps ctx) (generation w) [] r);
      exact H.
Qed.

(** What [execute] returns has the actions and the log of a run reached from
    the initial one. *)
Lemma execute_reaches w opts result evs :
  execute w opts = (Returned result, evs) ->
  exists ctx r,
    prepareAgent w opts = Returned ctx
    /\ reaches w opts (allTools ctx) (initialRun ctx) r
    /\ evs = log r
    /\ AgentResult.actions result = AgentState.actions (state r).
Proof.
  intros Hex. destruct (execute_returned _ _ _ _ Hex) as [ctx Hctx].
  rewrite (execute_prepared _ _ _ Hctx) in Hex.
  destruct (prepareAgent_inv _ _ _ Hctx) as (Hopts & _ & _).
  pose proof (reaches_runAgent w ctx (initialRun ctx)) as Hr.
  rewrite Hopts in Hr.
  exists ctx, (snd (runAgent w ctx (initialRun ctx))).
  split; [exact Hctx|]. split; [exact Hr|].
  unfold runAgent in *. destruct (oauthMode w).
  - unfold executeWithCodeAssist in *.
    destruct (agentLoop w (options ctx) (allTools ctx)
                (Z.to_nat (ctxMaxSteps ctx)) 0
                (SystemMessage (systemPrompt ctx) :: messages ctx)
                (mkUsage 0 0 0) (initialRun ctx));
      inversion Hex; subst; split; reflexivity.
  - destruct (generate w (options ctx) (ctxMaxSteps ctx) (generation w) []
                (initialRun ctx));
      inversion Hex; subst; split; reflexivity.
Qed.

(** *** What effects preserve *)

Lemma stamped_stampAll w url k mapped :
  Forall stamped (stampAll w url k mapped).
Proof.
  revert k. induction mapped as [|a rest IH]; intros k; simpl;
    constructor; [split; eexists; reflexivity|apply IH].
Qed.

(** An effect appends stamped actions to [state.actions], or leaves them. *)
Lemma Effect_actions w opts tools r r' :
  Effect w opts tools r r' ->
  exists new,
    AgentState.actions (state r') = AgentState.actions (state r) ++ new
    /\ Forall stamped new.
Proof.
  intros [] ; try (exists []; split; [|constructor]; simpl;
                   rewrite ?state_startStep, ?state_emit, ?app_nil_r;
                   reflexivity).
  eexists. split; [apply pushStamped_actions|apply stamped_stampAll].
Qed.

(** A property every effect preserves holds all along a run. *)
Lemma reaches_invariant w opts tools (P : Run -> Prop) :
  (forall y z, Effect w opts tools y z -> P y -> P z) ->
  forall r r', reaches w opts tools r r' -> P r -> P r'.
Proof.
  intros Hstep r r' H Hr. unfold reaches in H.
  revert r' H. apply (rtc_ind_r P r Hr).
  intros y z _ Hyz Hy. exact (Hstep y z Hyz Hy).
Qed.

Lemma reaches_actions w opts tools r r' :
  reaches w opts tools r r' ->
  exists new,
    AgentState.actions (state r') = AgentState.actions (state r) ++ new
    /\ Forall stamped new.
Proof.
  intros H.
  apply (reaches_invariant w opts tools
           (fun x => exists new,
                AgentState.actions (state x)
                = AgentState.actions (state r) ++ new
                /\ Forall stamped new) ) with (r := r); [|exact H|].
  - intros y z Hyz (new1 & E1 & F1).
    destruct (Effect_actions _ _ _ _ _ Hyz) as (new2 & E2 & F2).
    exists (new1 ++ new2). split.
    + rewrite E2, E1, app_assoc. reflexivity.
    + apply Forall_app. split; assumption.
  - exists []. split; [symmetry; apply app_nil_r|constructor].
Qed.

(** *** What a failed run keeps *)






(** X5.  Every action of a result [execute] returns carries the stamp of
    the loop, a page URL and a time: actions reach [state.actions] only
    through the loops that stamp them, on both backends, and the result of a
    failed run has the actions of the same state. *)
Theorem result_actions_are_stamped w opts result evs :
  execute w opts = (Returned result, evs) ->
  Forall stamped (AgentResult.actions result).
Proof.
  intros Hex.
  destruct (execute_reaches _ _ _ _ Hex) as (ctx & r & _ & Hr & _ & ->).
  destruct (reaches_actions _ _ _ _ _ Hr) as (new & -> & F). exact F.
Qed.

Lemma result_actions_are_stamped_witness :
  exists result evs,
    execute twoCallsThenDone (task None true None) = (Returned result, evs)
    /\ length (AgentResult.actions result) = 2%nat
    /\ Forall stamped (AgentResult.actions result).
Proof.
  run_sample Hexec. eexists _, _. split; [reflexivity|].
  split; [reflexivity|].
  exact (result_actions_are_stamped _ _ _ _ Hexec).
Defined.

Lemma in_updates u evs : In u (updates evs) <-> In (OnStep u) evs.
Proof.
  induction evs as [|e evs IH]; simpl; [tauto|].
  destruct e; simpl; rewrite IH; split; intros H;
    try (right; exact H); try (destruct H as [H|H]; [discriminate|exact H]).
  - destruct H as [->|H]; [left; reflexivity|right; exact H].
  - destruct H as [H|H]; [left; congruence|right; exact H].
Qed.

Lemma in_sliceLast {A} n (xs : list A) a :
  In a (Js.sliceLast n xs) -> In a xs.
Proof.
  unfold Js.sliceLast. destruct n; [tauto|].
  intros H. rewrite <- (take_drop (length xs - S n) xs).
  apply in_or_app. right. exact H.
Qed.

Lemma Effect_updatesWithin w opts tools r r' :
  Effect w opts tools r r' -> updatesWithin r -> updatesWithin r'.
Proof.
  intros Heff Hr u a Hu Ha.
  destruct (Effect_actions _ _ _ _ _ Heff) as (new & -> & _).
  apply in_or_app.
  destruct Heff; simpl in Hu;
    try (apply in_app_or in Hu; destruct Hu as [Hu|[Hu|[]]];
         [left; eapply Hr; eassumption|discriminate]);
    try (left; eapply Hr; eassumption).
  - unfold startStep in Hu. rewrite log_emit in Hu. simpl in Hu.
    apply in_app_or in Hu. destruct Hu as [Hu|Hu];
      [left; eapply Hr; eassumption|].
    destruct (onStep opts); [|destruct Hu].
    destruct Hu as [Hu|[]]. inversion Hu; subst u. destruct Ha.
  - rewrite log_emit in Hu. apply in_app_or in Hu.
    destruct Hu as [Hu|Hu]; [left; eapply Hr; eassumption|].
    destruct (onStep opts); [|destruct Hu].
    destruct Hu as [Hu|[]]. inversion Hu; subst u0. left.
    match goal with H : AgentStepUpdate.actions _ = _ |- _ => rewrite H in Ha end.
    eapply in_sliceLast; exact Ha.
Qed.

(** X6.  An action shown in an update sent to [onStep] is an action of the
    result [execute] returns at the end: [state.actions] only grows, and
    every update carries a slice of it. *)
Theorem update_actions_are_result_actions w opts result evs u a :
  execute w opts = (Returned result, evs) ->
  In (OnStep u) evs ->
  In a (AgentStepUpdate.actions u) ->
  In a (AgentResult.actions result).
Proof.
  intros Hex Hu Ha.
  destruct (execute_reaches _ _ _ _ Hex) as (ctx & r & _ & Hr & -> & ->).
  refine (reaches_invariant _ _ _ updatesWithin _ _ _ Hr _ u a Hu Ha).
  - intros y z. apply Effect_updatesWithin.
  - intros u' a' [].
Qed.

Lemma update_actions_are_result_actions_witness :
  exists result evs u a,
    execute twoCallsThenDone (task None true None) = (Returned result, evs)
    /\ In (OnStep u) evs
    /\ AgentStepUpdate.actions u = [a]
    /\ In a (AgentResult.actions result).
Proof.
  run_sample Hexec. eexists _, _, _, _. split; [reflexivity|].
  assert (forall (P Q R : Prop), P -> Q -> (P -> Q -> R) -> P /\ Q /\ R)
    as Hand by tauto.
  apply Hand.
  - do 3 right. left. reflexivity.
  - reflexivity.
  - intros Hu Ha.
    refine (update_actions_are_result_actions _ _ _ _ _ _ Hexec Hu _).
    rewrite Ha. left. reflexivity.
Defined.

Lemma startedCount_snoc us u :
  startedCount (us ++ [u])
  = (startedCount us + if AgentStepUpdate.completed u then 0 else 1)%nat.
Proof.
  unfold startedCount. rewrite filter_app, length_app.
  destruct (AgentStepUpdate.completed u) eqn:Hc.
  - rewrite filter_cons_False; [reflexivity|]. congruence.
  - rewrite filter_cons_True; [reflexivity|exact Hc].
Qed.

Lemma numberedFrom_snoc n us u :
  numberedFrom n (us ++ [u])
  = numberedFrom n us
    && (AgentStepUpdate.stepNumber u
        =? n + startedCount us
           + if AgentStepUpdate.completed u then 0 else 1)%nat.
Proof.
  revert n. induction us as [|v us IH]; intros n.
  - simpl. unfold startedCount. simpl.
    destruct (AgentStepUpdate.completed u); rewrite andb_true_r;
      f_equal; lia.
  - cbn [app numberedFrom]. rewrite !IH. unfold startedCount.
    destruct (AgentStepUpdate.completed v) eqn:Hv.
    + rewrite filter_cons_False by congruence.
      rewrite andb_assoc. reflexivity.
    + rewrite filter_cons_True by exact Hv. cbn [length].
      rewrite andb_assoc. do 2 f_equal. lia.
Qed.

Lemma updates_logged e r :
  updates (log (logged e r))
  = updates (log r) ++ match e with OnStep u => [u] | _ => [] end.
Proof. simpl. rewrite updates_app. destruct e; reflexivity. Qed.

Lemma Effect_numbered w opts tools r r' :
  Effect w opts tools r r' -> numbered opts r -> numbered opts r'.
Proof.
  unfold numbered. intros Heff [Hn Hc].
  destruct Heff; try (rewrite updates_logged, app_nil_r; simpl;
                      split; assumption);
    try (simpl; split; assumption).
  - unfold startStep. rewrite log_emit, stepNumber_emit. simpl.
    destruct (onStep opts).
    + rewrite updates_app. simpl. rewrite numberedFrom_snoc, startedCount_snoc.
      cbn -[Nat.eqb Nat.add]. rewrite Hn, <- Hc. cbn -[Nat.eqb Nat.add].
      split; [|lia]. apply Nat.eqb_eq. lia.
    + rewrite app_nil_r. split; assumption.
  - rewrite log_emit, stepNumber_emit. destruct (onStep opts).
    + rewrite updates_app. simpl. rewrite numberedFrom_snoc, startedCount_snoc.
      match goal with H : AgentStepUpdate.completed _ = true |- _ =>
        rewrite H end.
      rewrite Hn, <- Hc. cbn -[Nat.eqb Nat.add]. split; [|lia].
      apply Nat.eqb_eq. lia.
    + rewrite app_nil_r. split; assumption.
Qed.

(** X7.  The updates sent to [onStep] during a run are numbered by step:
    the step-started updates carry 1, 2, 3, ... without a gap, and every
    step-completed update carries the number of the step started last
    before it. *)
Theorem updates_are_numbered_by_step w opts result evs :
  execute w opts = (Returned result, evs) ->
  numberedFrom 0 (updates evs) = true.
Proof.
  intros Hex.
  destruct (execute_reaches _ _ _ _ Hex) as (ctx & r & _ & Hr & -> & _).
  apply (reaches_invariant _ _ _ (numbered opts)
           (Effect_numbered w opts (allTools ctx)) _ _ Hr).
  split; [reflexivity|]. destruct (onStep opts); reflexivity.
Qed.

Lemma updates_are_numbered_by_step_witness :
  exists result evs,
    execute twoCallsThenDone (task None true None) = (Returned result, evs)
    /\ AgentStepUpdate.stepNumber <$> updates evs = [1; 1; 1; 2]%nat
    /\ numberedFrom 0 (updates evs) = true.
Proof.
  run_sample Hexec. eexists _, _. split; [reflexivity|].
  split; [reflexivity|].
  exact (updates_are_numbered_by_step _ _ _ _ Hexec).
Defined.

Lemma Effect_known w opts tools r r' :
  Effect w opts tools r r' ->
  Forall (executesKnownTool tools) (log r) ->
  Forall (executesKnownTool tools) (log r').
Proof.
  intros Heff Hr.
  destruct Heff; simpl; try exact Hr;
    try (apply Forall_app; split; [exact Hr|]; repeat constructor; assumption).
  - unfold startStep. rewrite log_emit. simpl.
    apply Forall_app. split; [exact Hr|].
    destruct (onStep opts); repeat constructor.
  - rewrite log_emit. apply Forall_app. split; [exact Hr|].
    destruct (onStep opts); repeat constructor.
Qed.

(** X8.  A tool the loop of [executeWithCodeAssist] executes is a tool of
    the merged tool set and is never [close]: a [close] call is handled by
    the loop itself, also when the tool set has a tool of that name, and a
    call of an unknown name is answered with an error payload, not executed.
    (With the SDK backend the handler executes no tool at all.) *)
Theorem only_tools_of_the_set_are_executed w opts result evs step pos name :
  execute w opts = (Returned result, evs) ->
  In (ExecutedTool step pos name) evs ->
  name <> "close"
  /\ is_Some (mergeTools (builtinTools w) (mcpTools w) !! name).
Proof.
  intros Hex Hin.
  destruct (execute_reaches _ _ _ _ Hex) as (ctx & r & Hctx & Hr & -> & _).
  destruct (prepareAgent_inv _ _ _ Hctx) as (_ & _ & Htools).
  assert (Forall (executesKnownTool (allTools ctx)) (log r)) as Hall.
  { apply (reaches_invariant _ _ _ _ (Effect_known w opts (allTools ctx))
             _ _ Hr). constructor. }
  rewrite Forall_forall in Hall. apply list_elem_of_In in Hin.
  specialize (Hall _ Hin). simpl in Hall. rewrite Htools in Hall.
  destruct Hall as [Hclose Hsome]. split; [|exact Hsome].
  intros ->. discriminate.
Qed.

Lemma only_tools_of_the_set_are_executed_witness :
  exists result evs,
    execute mixedThenDone (task None false None) = (Returned result, evs)
    /\ In (ExecutedTool 0 1 "click") evs
    /\ is_Some (sampleTools !! "click").
Proof.
  run_sample Hexec. eexists _, _. split; [reflexivity|].
  assert (forall (P Q : Prop), P -> (P -> Q) -> P /\ Q) as Hand by tauto.
  apply Hand.
  - right. left. reflexivity.
  - intros Hin.
    exact (proj2 (only_tools_of_the_set_are_executed _ _ _ _ _ _ _ Hexec Hin)).
Defined.

Lemma extendsBy_keeps P r r' e :
  extendsBy P r r' -> In e (log r) -> In e (log r').
Proof. intros [evs [-> _]] H. apply in_or_app. left. exact H. Qed.

Lemma extendsBy_any P r r' :
  extendsBy P r r' -> extendsBy (fun _ => True) r r'.
Proof. apply extendsBy_weaken. intros; exact I. Qed.


Lemma called_logged step chat r r' :
  extendsBy quiet (logged (CalledModel step chat) r) r' ->
  In (CalledModel step chat) (log r').
Proof.
  intros H. eapply extendsBy_keeps; [exact H|].
  simpl. apply in_or_app. right. left. reflexivity.
Qed.

Lemma generate_extends w opts maxSteps script steps r :
  extendsBy (fun _ => True) r
    (flowRun (generate w opts maxSteps script steps r)).
Proof.
  revert steps r. induction script as [|g rest IH]; intros steps r;
    [apply extendsBy_refl|].
  assert (extendsBy (fun _ => True) r
            (logged (GeneratedStep (length steps)) r)) as Hg.
  { apply extendsBy_logged. exact I. }
  generate_cases;
    try (eapply extendsBy_trans; [exact Hg|];
         eapply extendsBy_any; exact Hext2).
  - exact Hg.
  - eapply extendsBy_trans; [|apply IH].
    eapply extendsBy_trans; [exact Hg|]. eapply extendsBy_any; exact Hext2.
Qed.

(** The loop is left with a completed state only after an answer that
    carries a [close] call the tool loop reached. *)
Lemma agentLoop_completed w opts tools remaining step chat usage r r' chat'
    usage' :
  agentLoop w opts tools remaining step chat usage r = Exited r' chat' usage' ->
  AgentState.completed (state r') = true ->
  AgentState.completed (state r) = true
  \/ exists k msgs,
       In (CalledModel k msgs) (log r')
       /\ answersClose w k msgs = true
       /\ closeReached w k msgs = true.
Proof.
  revert step chat usage r.
  induction remaining as [|n IH]; intros step chat usage r.
  - intros H Hc. inversion H; subst. left. exact Hc.
  - loop_cases; intros H Hc; try discriminate;
      try (inversion H; subst; loop_norm; left; congruence).
    + inversion H; subst. right. exists step, chat.
      assert (hasClose (tc :: tcs) = true) as Hhas.
      { loop_norm. rewrite Hst0, Hdone, orb_false_r in Hcompl.
        symmetry. exact Hcompl. }
      split; [|split].
      * pose proof (extendsBy_runToolCalls w opts tools step 0
                      (Js.optOrElse (content choice) "") (tc :: tcs)
                      (collectReasoning (Js.optOrElse (content choice) "")
                         (logged (CalledModel step chat) (startStep opts r0)))
                      []) as Hq.
        rewrite Htools in Hq. cbn [toolsRun] in Hq.
        eapply extendsBy_keeps; [exact Hq|].
        unfold collectReasoning. destruct (Js.truthy _); simpl;
          apply in_or_app; right; left; reflexivity.
      * unfold answersClose. rewrite Hllm, Hchoice, Hcalls. exact Hhas.
      * unfold closeReached. rewrite Hllm, Hchoice, Hcalls.
        rewrite (reachesClose_finished _ _ _ _ _ _ _ _ _ _ _ Htools).
        exact Hhas.
    + destruct (IH _ _ _ _ H Hc) as [Hold|Hnew];
        [congruence|right; exact Hnew].
Qed.

(** The generation completes the state only on a generated step that
    carries [close] and whose pause check passed. *)
Lemma generate_completed w opts maxSteps script steps r :
  stepNumber r = length steps ->
  AgentState.completed
    (state (flowRun (generate w opts maxSteps script steps r))) = true ->
  AgentState.completed (state r) = true
  \/ exists k event,
       In (GeneratedStep k)
         (log (flowRun (generate w opts maxSteps script steps r)))
       /\ (length steps <= k)%nat
       /\ script !! (k - length steps)%nat = Some (Produces event)
       /\ hasClose (toolCalls event) = true
       /\ pauseRejects opts k = None.
Proof.
  revert steps r. induction script as [|g rest IH]; intros steps r Hnum;
    [left; assumption|].
  generate_cases; intros Hc.
  - left. exact Hc.
  - rewrite Hcompl2 in Hc. apply orb_prop in Hc.
    destruct Hc as [Hc|Hc]; [right|left; exact Hc].
    exists (length steps), event. split.
    { eapply extendsBy_keeps; [exact Hext2|].
      apply in_or_app. right. left. reflexivity. }
    split; [lia|]. split; [rewrite Nat.sub_diag; reflexivity|].
    split; [exact Hc|]. rewrite <- Hnum. exact Hpass.
  - assert (stepNumber r2 = length (steps ++ [event])) as Hnum'
        by (rewrite Hnum2, length_app; simpl; lia).
    destruct (IH _ _ Hnum' Hc) as [Hold|(k & ev & Hin & Hle & Hk & Hcl & Hp)].
    + rewrite Hcompl2 in Hold. apply orb_prop in Hold.
      destruct Hold as [Hold|Hold]; [|left; exact Hold].
      rewrite (handleStop_close _ _ _ Hold) in Hstop. discriminate.
    + right. exists k, ev. rewrite length_app in Hle, Hk. simpl in Hle, Hk.
      split; [exact Hin|]. split; [lia|]. split; [|split; assumption].
      replace (k - length steps)%nat with (S (k - (length steps + 1))) by lia.
      exact Hk.
  - left. rewrite Hst2 in Hc. exact Hc.
Qed.

(** X9.  A result with [success = true] comes only from a [close] call that
    was processed: in the OAuth loop some provider answer that was received
    carried one, and the tool loop reached it; with the SDK backend some step
    that was generated carried one, and the pause check of that step passed.
    Reaching the step ceiling, an answer without tool calls or a pause never
    give success. *)
Theorem success_only_after_close w opts result evs :
  execute w opts = (Returned result, evs) ->
  AgentResult.success result = true ->
  if oauthMode w
  then exists k msgs,
         In (CalledModel k msgs) evs
         /\ answersClose w k msgs = true
         /\ closeReached w k msgs = true
  else exists k event,
         In (GeneratedStep k) evs
         /\ generation w !! k = Some (Produces event)
         /\ hasClose (toolCalls event) = true
         /\ pauseRejects opts k = None.
Proof.
  intros Hex Hs. destruct (execute_returned _ _ _ _ Hex) as [ctx Hctx].
  rewrite (execute_prepared _ _ _ Hctx) in Hex.
  destruct (prepareAgent_inv _ _ _ Hctx) as (Hopts & _ & _).
  unfold runAgent in Hex. destruct (oauthMode w).
  - unfold executeWithCodeAssist in Hex.
    destruct (agentLoop w (options ctx) (allTools ctx)
                (Z.to_nat (ctxMaxSteps ctx)) 0
                (SystemMessage (systemPrompt ctx) :: messages ctx)
                (mkUsage 0 0 0) (initialRun ctx))
      as [r' chat' usage'|e r'] eqn:Hloop;
      inversion Hex; subst; [|discriminate].
    destruct (agentLoop_completed _ _ _ _ _ _ _ _ _ _ _ Hloop Hs)
      as [Hinit|Hnew]; [discriminate|exact Hnew].
  - pose proof (generate_completed w (options ctx) (ctxMaxSteps ctx)
                  (generation w) [] (initialRun ctx) eq_refl) as H.
    destruct (generate w (options ctx) (ctxMaxSteps ctx) (generation w) []
                (initialRun ctx));
      inversion Hex; subst; [|discriminate].
    destruct (H Hs) as [Hinit|(k & ev & Hin & _ & Hk & Hcl & Hp)];
      [discriminate|].
    rewrite Nat.sub_0_r in Hk. exists k, ev. repeat split; assumption.
Qed.

(** The SDK backend, a model that closes in its first step. *)
Lemma success_only_after_close_witness :
  exists result evs,
    execute (givesUp false) (task None false None) = (Returned result, evs)
    /\ AgentResult.success result = true
    /\ exists k event,
         In (GeneratedStep k) evs
         /\ generation (givesUp false) !! k = Some (Produces event)
         /\ hasClose (toolCalls event) = true
         /\ pauseRejects (task None false None) k = None.
Proof.
  run_sample Hexec. eexists _, _. split; [reflexivity|].
  assert (forall (P Q : Prop), P -> (P -> Q) -> P /\ Q) as Hand by tauto.
  apply Hand; [reflexivity|]. intros Hs.
  exact (success_only_after_close (givesUp false) _ _ _ Hexec Hs).
Defined.

(** X10.  In the tool loop of [executeWithCodeAssist] the calls that follow
    a [close] call in the same answer are dropped: the loop does for the
    whole answer exactly what it does for the answer cut after [close], so
    the later calls are not executed, add no action and no entry of
    [toolResults], and send no update. *)
Theorem calls_after_close_are_dropped w opts tools step pos txt before tc
    after r results :
  isClose (toolName tc) = true ->
  runToolCalls w opts tools step pos txt (before ++ tc :: after) r results
  = runToolCalls w opts tools step pos txt (before ++ [tc]) r results.
Proof.
  intros Hclose. revert pos r results.
  induction before as [|b rest IH]; intros pos r results.
  - cbn [app runToolCalls]. rewrite Hclose. reflexivity.
  - cbn [app runToolCalls].
    destruct (parsedArguments w b) as [parsed|syntaxError]; [|reflexivity].
    destruct (isClose (toolName b)); [reflexivity|].
    destruct (tools !! toolName b) as [tool|]; [|apply IH].
    destruct (Tool.execute tool step pos parsed); apply IH.
Qed.

Lemma calls_after_close_are_dropped_witness :
  runToolCalls navigatesForever (task None false None) sampleTools 0 0 ""
    ([call "goto"] ++ closeCall (Some true) :: [call "act"; call "click"])
    (initialRun
       {| options := task None false None; ctxMaxSteps := 20;
          systemPrompt := ""; allTools := sampleTools; messages := [];
          ctxInitialPageUrl := "about:blank" |}) []
  = runToolCalls navigatesForever (task None false None) sampleTools 0 0 ""
      ([call "goto"] ++ [closeCall (Some true)])
      (initialRun
         {| options := task None false None; ctxMaxSteps := 20;
            systemPrompt := ""; allTools := sampleTools; messages := [];
            ctxInitialPageUrl := "about:blank" |}) [].
Proof.
  apply (calls_after_close_are_dropped navigatesForever (task None false None)
           sampleTools 0 0 "" [call "goto"] (closeCall (Some true))
           [call "act"; call "click"]).
  reflexivity.
Defined.

(** *** What is fed back to the model *)




(** What the OAuth backend makes of [execute]. *)
Lemma execute_oauth w opts ctx :
  oauthMode w = true ->
  prepareAgent w opts = Returned ctx ->
  snd (execute w opts)
  = log (runOf (agentLoop w opts (allTools ctx) (Z.to_nat (ctxMaxSteps ctx)) 0
                  [SystemMessage
                     (buildSystemPrompt (instruction opts)
                        (systemInstructions w));
                   UserMessage (instruction opts)]
                  (mkUsage 0 0 0) (initialRun ctx))).
Proof.
  intros Hmode Hctx. rewrite (execute_prepared _ _ _ Hctx).
  unfold runAgent, executeWithCodeAssist. rewrite Hmode.
  pose proof Hctx as Hctx'. unfold prepareAgent in Hctx'.
  destruct (negb (oauthMode w) && negb (hasLanguageModel w));
    [discriminate|]. inversion Hctx' as [Hc]. cbn [options allTools
    ctxMaxSteps systemPrompt messages].
  match goal with
  | |- context [agentLoop ?a ?b ?c ?d ?e ?f ?g ?h] =>
      destruct (agentLoop a b c d e f g h)
  end; reflexivity.
Qed.






(** *** The update of a tool call *)


















(** With the SDK and a mapping that returns two actions for a call, the
    completed update of a one-call step carries the last action only. *)
Lemma sdk_slice_counts_tool_calls :
  exists result evs a1 a2,
    execute doublingWorld (task None true None) = (Returned result, evs)
    /\ AgentResult.actions result = [a1; a2]
    /\ completedUpdatesOf 1 evs = [[a2]].
Proof.
  eexists _, _, _, _. split; [vm_compute; reflexivity|].
  split; [reflexivity|]. vm_compute. reflexivity.
Qed.

(** *** Usage accounting of the OAuth loop *)

Lemma callsUsage_app w evs1 evs2 total :
  callsUsage w (evs1 ++ evs2) total
  = callsUsage w evs2 (callsUsage w evs1 total).
Proof. unfold callsUsage. apply fold_left_app. Qed.

Lemma callsUsage_silent w (P : Event -> Prop) r r' total :
  (forall e, P e -> silent e) ->
  extendsBy P r r' ->
  callsUsage w (log r') total = callsUsage w (log r) total.
Proof.
  intros HP [evs [-> F]]. rewrite callsUsage_app.
  generalize (callsUsage w (log r) total) as t.
  induction F as [|e evs He F IH]; intros t; [reflexivity|].
  specialize (HP e He). destruct e; try destruct HP; simpl; apply IH.
Qed.

Lemma silent_quiet e : quiet e -> silent e.
Proof. destruct e; simpl; tauto. Qed.

Lemma callsUsage_called w opts step chat r rej r0 response total :
  checkPause opts step r = (rej, r0) ->
  createChatCompletion w step chat = Returned response ->
  callsUsage w (log (logged (CalledModel step chat) (startStep opts r0))) total
  = addUsage (callsUsage w (log r) total) (usage response).
Proof.
  intros Hp Hllm. cbn [log logged]. rewrite callsUsage_app. simpl.
  rewrite Hllm. f_equal.
  rewrite (callsUsage_silent w quiet r0 (startStep opts r0));
    [|apply silent_quiet|apply extendsBy_startStep].
  eapply callsUsage_silent; [|eapply extendsBy_checkPause; exact Hp].
  intros e ->. exact I.
Qed.

Lemma callsUsage_collectReasoning w txt r total :
  callsUsage w (log (collectReasoning txt r)) total
  = callsUsage w (log r) total.
Proof. unfold collectReasoning. destruct (Js.truthy txt); reflexivity. Qed.

(** The usage the loop hands on is the sum over the answers received. *)
Lemma agentLoop_usage w opts tools remaining step chat usage r r' chat' usage'
    total :
  agentLoop w opts tools remaining step chat usage r = Exited r' chat' usage' ->
  usage = callsUsage w (log r) total ->
  usage' = callsUsage w (log r') total.
Proof.
  revert step chat usage r.
  induction remaining as [|n IH]; intros step chat usage r.
  { simpl. intros H ->. inversion H; subst. reflexivity. }
  loop_cases; intros H Hu; try discriminate;
    try match type of H with
        | Exited _ _ _ = Exited _ _ _ => inversion H; subst; clear H
        end.
  - reflexivity.
  - symmetry. eapply callsUsage_silent; [|eapply extendsBy_checkPause; exact Hpause].
    intros e ->. exact I.
  - rewrite callsUsage_collectReasoning.
    symmetry. eapply callsUsage_called; eassumption.
  - pose proof (extendsBy_runToolCalls w opts tools step 0
                  (Js.optOrElse (content choice) "") (tc :: tcs)
                  (collectReasoning (Js.optOrElse (content choice) "")
                     (logged (CalledModel step chat) (startStep opts r0))) [])
      as Hq.
    rewrite Htools in Hq. cbn [toolsRun] in Hq.
    rewrite (callsUsage_silent w quiet _ _ total silent_quiet Hq).
    rewrite callsUsage_collectReasoning.
    symmetry. eapply callsUsage_called; eassumption.
  - apply (IH _ _ _ _ H).
    pose proof (extendsBy_runToolCalls w opts tools step 0
                  (Js.optOrElse (content choice) "") (tc :: tcs)
                  (collectReasoning (Js.optOrElse (content choice) "")
                     (logged (CalledModel step chat) (startStep opts r0))) [])
      as Hq.
    rewrite Htools in Hq. cbn [toolsRun] in Hq.
    rewrite (callsUsage_silent w quiet _ _ total silent_quiet Hq).
    rewrite callsUsage_collectReasoning.
    subst usage. symmetry. eapply callsUsage_called; eassumption.
  - symmetry. eapply callsUsage_called; eassumption.
Qed.

(** X12.  The usage in a result of the OAuth backend is the sum over the
    provider answers received during the run: [input_tokens] adds up their
    [prompt_tokens], [output_tokens] their [completion_tokens]; reasoning and
    cached-input tokens are 0. *)
Theorem oauth_usage_sums_the_answers w opts result evs u :
  oauthMode w = true ->
  execute w opts = (Returned result, evs) ->
  AgentResult.usage result = Some u ->
  AgentResult.input_tokens u
  = prompt_tokens (callsUsage w evs (mkUsage 0 0 0))
  /\ AgentResult.output_tokens u
     = completion_tokens (callsUsage w evs (mkUsage 0 0 0))
  /\ AgentResult.reasoning_tokens u = 0
  /\ AgentResult.cached_input_tokens u = 0.
Proof.
  intros Hmode Hex Hu.
  destruct (execute_returned _ _ _ _ Hex) as [ctx Hctx].
  rewrite (execute_prepared _ _ _ Hctx) in Hex.
  unfold runAgent, executeWithCodeAssist in Hex. rewrite Hmode in Hex.
  destruct (agentLoop w (options ctx) (allTools ctx)
              (Z.to_nat (ctxMaxSteps ctx)) 0
              (SystemMessage (systemPrompt ctx) :: messages ctx)
              (mkUsage 0 0 0) (initialRun ctx))
    as [r' chat' usage'|e r'] eqn:Hloop;
    inversion Hex; subst; [|discriminate].
  simpl in Hu. inversion Hu; subst u. simpl.
  rewrite (agentLoop_usage _ _ _ _ _ _ _ _ _ _ _ (mkUsage 0 0 0) Hloop);
    [repeat split|reflexivity].
Qed.

Lemma oauth_usage_sums_the_answers_witness :
  exists result evs u,
    execute metered (task None false None) = (Returned result, evs)
    /\ AgentResult.usage result = Some u
    /\ AgentResult.input_tokens u = 17
    /\ AgentResult.output_tokens u = 3.
Proof.
  run_sample Hexec. eexists _, _, _. split; [reflexivity|].
  assert (forall (P Q : Prop), P -> (P -> Q) -> P /\ Q) as Hand by tauto.
  apply Hand; [reflexivity|]. intros Hu.
  destruct (oauth_usage_sums_the_answers metered _ _ _ _ eq_refl Hexec Hu)
    as (Hin & Hout & _).
  split; [rewrite Hin|rewrite Hout]; reflexivity.
Defined.

(** *** Where the pause check sits *)

Lemma agentLoop_called_after_checks w opts tools remaining step chat usage r
    j msgs :
  In (CalledModel j msgs)
    (log (runOf (agentLoop w opts tools remaining step chat usage r))) ->
  In (CalledModel j msgs) (log r)
  \/ ((step <= j)%nat
      /\ forall i, (step <= i <= j)%nat -> pauseRejects opts i = None).
Proof.
  revert step chat usage r.
  induction remaining as [|n IH]; intros step chat usage r; [left; assumption|].
  assert (forall s : nat, None = pauseRejects opts s ->
            (s <= s)%nat
            /\ forall i, (s <= i <= s)%nat -> pauseRejects opts i = None)
    as Hone.
  { intros s Hs. split; [lia|]. intros i Hi.
    assert (i = s) by lia. subst i. symmetry. exact Hs. }
  intros Hin; revert Hin; loop_cases; cbn [runOf fst] in *; intros Hin.
  - left; exact Hin.
  - destruct (checkPause_in _ _ _ _ _ _ Hpause Hin) as [Hold|Hnew];
      [left; exact Hold|discriminate].
  - destruct (checkPause_in _ _ _ _ _ _ Hpause Hin) as [Hold|Hnew];
      [left; exact Hold|discriminate].
  - destruct (called_in _ _ _ _ _ _ Hext4 Hin) as [Hold|[-> ->]];
      [left; exact Hold|right; apply Hone; exact Hrej].
  - destruct (called_in _ _ _ _ _ _ Hext Hin) as [Hold|[-> ->]];
      [left; exact Hold|right; apply Hone; exact Hrej].
  - apply IH in Hin. destruct Hin as [Hin|[Hle Hall]].
    + destruct (called_in _ _ _ _ _ _ Hext Hin) as [Hold|[-> ->]];
        [left; exact Hold|right; apply Hone; exact Hrej].
    + right. split; [lia|]. intros i Hi.
      destruct (Nat.eq_dec i step) as [->|Hne];
        [symmetry; exact Hrej|apply Hall; lia].
  - destruct (called_in _ _ _ _ _ _ Hext Hin) as [Hold|[-> ->]];
      [left; exact Hold|right; apply Hone; exact Hrej].
  - destruct (called_in _ _ _ _ _ _ Hext3 Hin) as [Hold|[-> ->]];
      [left; exact Hold|right; apply Hone; exact Hrej].
  - destruct (called_in _ _ _ _ _ _ Hext3 Hin) as [Hold|[-> ->]];
      [left; exact Hold|right; apply Hone; exact Hrej].
Qed.

(** X13.  In the OAuth loop the provider is called at a step only when the
    pause check has passed at that step and at every step before it: from
    the step at which [checkPauseState] rejects, no provider call is made. *)
Theorem oauth_model_called_only_after_pause_checks w opts result evs j msgs i :
  oauthMode w = true ->
  execute w opts = (Returned result, evs) ->
  In (CalledModel j msgs) evs ->
  (i <= j)%nat ->
  pauseRejects opts i = None.
Proof.
  intros Hmode Hex Hin Hi.
  destruct (execute_returned _ _ _ _ Hex) as [ctx Hctx].
  pose proof (execute_oauth _ _ _ Hmode Hctx) as Hlog.
  rewrite Hex in Hlog. cbn [snd] in Hlog. subst evs.
  apply agentLoop_called_after_checks in Hin.
  destruct Hin as [[]|[_ Hall]]. apply Hall. lia.
Qed.

Lemma oauth_model_called_only_after_pause_checks_witness :
  exists result evs msgs,
    execute navigatesForever (task (Some (Js.Num 5)) false (stopAt 2))
    = (Returned result, evs)
    /\ In (CalledModel 1 msgs) evs
    /\ pauseRejects (task (Some (Js.Num 5)) false (stopAt 2)) 0 = None.
Proof.
  run_sample Hexec. eexists _, _, _. split; [reflexivity|].
  assert (forall (P Q : Prop), P -> (P -> Q) -> P /\ Q) as Hand by tauto.
  apply Hand.
  - do 4 right. left. reflexivity.
  - intros Hin.
    refine (oauth_model_called_only_after_pause_checks navigatesForever
              _ _ _ 1 _ 0 eq_refl Hexec Hin _). lia.
Defined.

Lemma generate_checks_after_step w opts maxSteps script steps r k :
  stepNumber r = length steps ->
  In (CheckedPause k) (log (flowRun (generate w opts maxSteps script steps r))) ->
  In (CheckedPause k) (log r)
  \/ In (GeneratedStep k)
       (log (flowRun (generate w opts maxSteps script steps r))).
Proof.
  revert steps r. induction script as [|g rest IH]; intros steps r Hnum Hin;
    [left; exact Hin|].
  pose proof (generate_extends w opts maxSteps (g :: rest) steps r) as Hall.
  revert Hin Hall. generate_cases; intros Hin Hall.
  - destruct (in_logged _ _ _ Hin) as [Hold|Hnew]; [left; exact Hold|].
    discriminate.
  - destruct (paused_ofHandler _ _ _ _ Hext2 Hin) as [Hold| ->].
    + destruct (in_logged _ _ _ Hold) as [Hold'|Hnew]; [left; exact Hold'|].
      discriminate.
    + right. eapply extendsBy_keeps; [exact Hext2|]. rewrite Hnum.
      apply in_or_app. right. left. reflexivity.
  - apply IH in Hin; [|rewrite Hnum2, length_app; simpl; lia].
    destruct Hin as [Hin|Hgen]; [|right; exact Hgen].
    destruct (paused_ofHandler _ _ _ _ Hext2 Hin) as [Hold| ->].
    + destruct (in_logged _ _ _ Hold) as [Hold'|Hnew]; [left; exact Hold'|].
      discriminate.
    + right. eapply extendsBy_keeps; [apply generate_extends|].
      eapply extendsBy_keeps; [exact Hext2|]. rewrite Hnum.
      apply in_or_app. right. left. reflexivity.
  - destruct (paused_ofHandler _ _ _ _ Hext2 Hin) as [Hold| ->].
    + destruct (in_logged _ _ _ Hold) as [Hold'|Hnew]; [left; exact Hold'|].
      discriminate.
    + right. eapply extendsBy_keeps; [exact Hext2|]. rewrite Hnum.
      apply in_or_app. right. left. reflexivity.
Qed.

(** X14.  With the SDK backend the pause check of a step runs in the step
    handler, after the model has generated that step: a pause check at step
    index [k] in the log comes with the generation of step [k], so a
    rejection does not save that model invocation. *)
Theorem sdk_pause_check_follows_the_step w opts result evs k :
  oauthMode w = false ->
  execute w opts = (Returned result, evs) ->
  In (CheckedPause k) evs ->
  In (GeneratedStep k) evs.
Proof.
  intros Hmode Hex Hin.
  destruct (execute_returned _ _ _ _ Hex) as [ctx Hctx].
  rewrite (execute_prepared _ _ _ Hctx) in Hex.
  unfold runAgent in Hex. rewrite Hmode in Hex.
  pose proof (generate_checks_after_step w (options ctx) (ctxMaxSteps ctx)
                (generation w) [] (initialRun ctx) k eq_refl) as H.
  destruct (generate w (options ctx) (ctxMaxSteps ctx) (generation w) []
              (initialRun ctx));
    inversion Hex; subst; cbn [flowRun] in H;
    (destruct (H Hin) as [[]|Hgen]; exact Hgen).
Qed.

Lemma sdk_pause_check_follows_the_step_witness :
  exists result evs,
    execute navigatesLong (task None false (stopAt 0)) = (Returned result, evs)
    /\ In (CheckedPause 0) evs
    /\ In (GeneratedStep 0) evs.
Proof.
  run_sample Hexec. eexists _, _. split; [reflexivity|].
  assert (forall (P Q : Prop), P -> (P -> Q) -> P /\ Q) as Hand by tauto.
  apply Hand.
  - right. left. reflexivity.
  - intros Hin.
    exact (sdk_pause_check_follows_the_step navigatesLong _ _ _ 0 eq_refl
             Hexec Hin).
Defined.

(** *** The message of a result *)

Lemma orElse_nonempty s d : d <> "" -> Js.orElse s d <> "".
Proof.
  intros Hd. unfold Js.orElse. destruct s; simpl; [exact Hd|discriminate].
Qed.

(** X15.  The message of a result [execute] returns is never the empty
    string: a run without final message and without reasoning text reports
    the text Task execution completed, and a failed run a text that starts
    with Failed to execute task. *)
Theorem result_message_is_never_empty w opts result evs :
  execute w opts = (Returned result, evs) ->
  AgentResult.message result <> "".
Proof.
  intros Hex. destruct (execute_returned _ _ _ _ Hex) as [ctx Hctx].
  rewrite (execute_prepared _ _ _ Hctx) in Hex.
  unfold runAgent, executeWithCodeAssist, consolidateMetricsAndResult in Hex.
  destruct (oauthMode w).
  - destruct (agentLoop w (options ctx) (allTools ctx)
                (Z.to_nat (ctxMaxSteps ctx)) 0
                (SystemMessage (systemPrompt ctx) :: messages ctx)
                (mkUsage 0 0 0) (initialRun ctx)) as [r' chat' usage'|e r'];
      inversion Hex; subst; cbn [AgentResult.message]; [|discriminate].
    destruct (AgentState.finalMessage (state r')) eqn:Hfm; simpl;
      [|discriminate]. apply orElse_nonempty. discriminate.
  - destruct (generate w (options ctx) (ctxMaxSteps ctx) (generation w) []
                (initialRun ctx)) as [r'|e r'];
      inversion Hex; subst; cbn [AgentResult.message]; [|discriminate].
    apply orElse_nonempty. discriminate.
Qed.

Lemma result_message_is_never_empty_witness :
  exists result evs,
    execute twoCallsThenDone (task None false None) = (Returned result, evs)
    /\ AgentResult.message result = "Task execution completed"
    /\ AgentResult.message result <> "".
Proof.
  run_sample Hexec. eexists _, _. split; [reflexivity|].
  split; [reflexivity|].
  exact (result_message_is_never_empty _ _ _ _ Hexec).
Defined.

(** *** Tool declarations *)

Lemma lookupMember_setMember key v members :
  Js.lookupMember key (Js.setMember key v members) = Some v.
Proof.
  induction members as [|[k old] rest IH]; simpl.
  - rewrite String.eqb_refl. reflexivity.
  - destruct (String.eqb k key) eqn:E; simpl; rewrite E; [reflexivity|exact IH].
Qed.

(** X16.  [convertToolsToLLMFormat] declares every tool of the set: as a
    function, under its own name, with its description, and with parameters
    whose [type] is object, whatever schema the tool has. *)
Theorem tools_are_declared_with_object_parameters jsonSchemaOf tools name tool :
  tools !! name = Some tool ->
  exists v,
    In v (convertToolsToLLMFormat jsonSchemaOf tools)
    /\ Js.member "type" v = Some (Js.Str "function")
    /\ Js.member "name" v = Some (Js.Str name)
    /\ Js.member "description" v
       = Some (Js.Str (Js.orElse (Tool.description tool) ""))
    /\ (Js.member "parameters" v ≫= Js.member "type")
       = Some (Js.Str "object").
Proof.
  intros Hlook. exists (convertTool jsonSchemaOf name tool). split.
  - unfold convertToolsToLLMFormat. apply list_elem_of_In.
    apply list_elem_of_fmap. exists (name, tool). split; [reflexivity|].
    apply elem_of_map_to_list. exact Hlook.
  - unfold convertTool. repeat split; try reflexivity.
    simpl. apply lookupMember_setMember.
Qed.

Lemma tools_are_declared_with_object_parameters_witness :
  exists v,
    In v (convertToolsToLLMFormat noSchema sampleTools)
    /\ Js.member "name" v = Some (Js.Str "goto")
    /\ (Js.member "parameters" v ≫= Js.member "type")
       = Some (Js.Str "object").
Proof.
  destruct (tools_are_declared_with_object_parameters noSchema sampleTools
              "goto" okTool eq_refl) as (v & Hin & _ & Hname & _ & Hparams).
  exists v. split; [exact Hin|]. split; [exact Hname|exact Hparams].
Defined.

Lemma declarationOf_converted jsonSchemaOf name tool :
  CodeAssist.declarationOf (convertTool jsonSchemaOf name tool)
  = Threw (Js.typeErrorReading "name").
Proof. reflexivity. Qed.

Lemma declarationsOf_converted jsonSchemaOf (tools : gmap string Tool.t) :
  tools <> ∅ ->
  CodeAssist.functionDeclarations
    (Some (convertToolsToLLMFormat jsonSchemaOf tools))
  = Threw (Js.typeErrorReading "name").
Proof.
  intros Hne. unfold CodeAssist.functionDeclarations, convertToolsToLLMFormat.
  destruct (map_to_list tools) as [|[name tool] rest] eqn:E.
  - apply map_to_list_empty_iff in E. contradiction.
  - cbn [fmap list_fmap CodeAssist.declarationsOf fst snd].
    rewrite declarationOf_converted. reflexivity.
Qed.

(** X17.  The declarations [convertToolsToLLMFormat] produces have the
    members [type], [name], [description] and [parameters] and no member
    [function], while [createChatCompletion] reads [t.function.name] of every
    entry of [options.tools] when it builds the request.  With at least one
    tool the call throws before its [try], whatever the messages, the image
    and the response model are: no request is made and nothing is retried.
    What is thrown is the TypeError of that read, not wrapped in a
    StagehandError, unless a statement before it has thrown: [formatMessages]
    on a tool call whose arguments are not JSON, or the conversion of the
    schema of a response model. *)
Theorem converted_tools_make_the_request_throw
    (AnnotatedScreenshotText : string)
    (JSON_parse : string -> string + string) (toGeminiSchema : option Thrown)
    (request : nat -> CodeAssist.Reply) (msgs : list CodeAssist.Message)
    (image : option CodeAssist.Image) (response_model : bool)
    jsonSchemaOf (tools : gmap string Tool.t) (retries : Z) :
  tools <> ∅ ->
  CodeAssist.createChatCompletion AnnotatedScreenshotText JSON_parse
    toGeminiSchema request
    {| CodeAssist.optMessages := msgs; CodeAssist.optImage := image;
       CodeAssist.optResponseModel := response_model;
       CodeAssist.optTools :=
         Some (convertToolsToLLMFormat jsonSchemaOf tools) |}
    retries
  = (Threw
       match CodeAssist.formatMessages AnnotatedScreenshotText JSON_parse
               image msgs with
       | Threw e => e
       | Returned _ =>
           match (if response_model then toGeminiSchema else None) with
           | Some e => e
           | None => Js.typeErrorReading "name"
           end
       end,
     []).
Proof.
  intros Hne. apply CodeAssistFacts.createChatCompletion_unbuilt.
  unfold CodeAssist.building.
  cbn [CodeAssist.optMessages CodeAssist.optImage CodeAssist.optResponseModel
       CodeAssist.optTools].
  destruct (CodeAssist.formatMessages _ _ _ _) as [cs|e]; [|reflexivity].
  destruct (if response_model then toGeminiSchema else None) as [e|];
    [reflexivity|].
  rewrite (declarationsOf_converted jsonSchemaOf tools Hne). reflexivity.
Qed.

Lemma converted_tools_make_the_request_throw_witness :
  CodeAssist.createChatCompletion "" parseSample None unreachable
    (chatOptions false (Some (convertToolsToLLMFormat noSchema sampleTools)))
    CodeAssist.defaultRetries
  = (Threw (Js.typeErrorReading "name"), []).
Proof.
  unfold chatOptions.
  rewrite (converted_tools_make_the_request_throw "" parseSample None
             unreachable sampleMessages None false noSchema sampleTools
             CodeAssist.defaultRetries).
  - reflexivity.
  - intros H. apply (f_equal (fun m => m !! "goto")) in H.
    vm_compute in H. discriminate.
Defined.

End HandlerFacts.

(** ** The cache around a run *)

Module V3Facts.
Import V3 Samples.

(** C2.  In a non-streaming [execute] whose preparation gave a cache context
    and whose [tryReplay] gave a result, that result is returned at once:
    the only call made is the replay itself; no recording is begun and no
    handler, hence no model, is run. *)
Theorem replay_hit_returns_at_once v config opts c replayed :
  cua config = true \/ stream config = false ->
  experimentalGuard v config = None ->
  cacheContextFor v opts = Returned (Some c) ->
  tryReplay (agentCache v) c = Returned (Some replayed) ->
  execute v config opts = (Returned (Result replayed), [TriedReplay c])
  /\ Forall (fun e => startsRun e = false) (snd (execute v config opts)).
Proof.
  intros Hmode Hguard Hctx Hreplay.
  assert (execute v config opts = (Returned (Result replayed), [TriedReplay c]))
    as Heq.
  { unfold execute.
    assert (negb (cua config) && stream config = false) as ->
        by (destruct Hmode as [-> | ->];
            [reflexivity|apply andb_false_r]).
    unfold executeNonStreaming. rewrite Hguard, Hctx, Hreplay. reflexivity. }
  split; [exact Heq|]. rewrite Heq. repeat constructor.
Qed.

(** A tools agent whose cache holds a replay for the instruction. *)
Lemma replay_hit_returns_at_once_witness :
  execute (instance (cache (Some storedResult) []) navigatesForever)
    toolsAgent (task None false None)
  = (Returned (Result storedResult), [TriedReplay (mkCacheContext "k")]).
Proof.
  exact (proj1 (replay_hit_returns_at_once
                  (instance (cache (Some storedResult) []) navigatesForever)
                  toolsAgent (task None false None) (mkCacheContext "k")
                  storedResult (or_intror eq_refl) eq_refl eq_refl eq_refl)).
Defined.

(** The runner itself never stores. *)
Lemma runHandler_not_stored v config opts c steps result :
  ~ In (Stored c steps result) (snd (runHandler v config opts)).
Proof.
  unfold runHandler.
  destruct (apiClient v && negb (experimental v));
    [simpl; intros [H|[]]; discriminate|].
  destruct (cua config); [simpl; intros [H|[]]; discriminate|].
  destruct (Handler.execute (handlerWorld v) opts) as [res evs]. simpl.
  intros H. apply list_elem_of_In, list_elem_of_fmap in H.
  destruct H as (e & He & _). discriminate.
Qed.

(** Splits a membership in a log written as a concatenation. *)
Ltac split_log H :=
  repeat rewrite in_app_iff in H; simpl in H;
  repeat match type of H with
         | _ \/ _ => destruct H as [H|H]
         | False => destruct H
         end;
  try discriminate; try contradiction.

Lemma recordAndRun_stored v config opts ctx c steps result :
  In (Stored c steps result) (snd (recordAndRun v config opts ctx)) ->
  ctx = Some c
  /\ AgentResult.success result = true
  /\ steps <> []
  /\ steps = endRecording (agentCache v)
  /\ fst (runHandler v config opts) = Returned result.
Proof.
  unfold recordAndRun.
  pose proof (runHandler_not_stored v config opts c steps result) as Hno.
  destruct (runHandler v config opts) as [[res|err] evs]; simpl in Hno.
  - destruct ctx as [c'|]; simpl.
    + destruct (AgentResult.success res) eqn:Hs; simpl;
        [destruct (length (endRecording (agentCache v)) =? 0)%nat eqn:Hl; simpl;
         [|destruct (store (agentCache v) c' (endRecording (agentCache v)) res)]
        |]; simpl; intros H; split_log H.
      all: inversion H; subst; apply Nat.eqb_neq in Hl;
        repeat split; try assumption;
        intros Hnil; rewrite Hnil in Hl; simpl in Hl; congruence.
    + intros H. split_log H.
  - destruct ctx as [c'|]; simpl; intros H; split_log H.
Qed.

(** C5.  [execute] calls [agentCache.store] only for a run that returned a
    result with [success = true] and a recording that is not empty, under the
    cache context prepared for the call. *)
Theorem store_only_after_success v config opts c steps result :
  In (Stored c steps result) (snd (execute v config opts)) ->
  AgentResult.success result = true
  /\ steps <> []
  /\ steps = endRecording (agentCache v)
  /\ cacheContextFor v opts = Returned (Some c)
  /\ fst (runHandler v config opts) = Returned result.
Proof.
  unfold execute.
  destruct (negb (cua config) && stream config).
  - unfold executeStreaming.
    destruct (negb (experimental v)); [intros []|].
    destruct (experimentalGuard v config); [intros []|].
    destruct (cacheContextFor v opts) as [[c'|]|e]; simpl;
      [destruct (tryReplayAsStream (agentCache v) c') as [[|]|e]; simpl| |];
      solve [intros H; split_log H].
  - unfold executeNonStreaming.
    destruct (experimentalGuard v config); [intros []|].
    destruct (cacheContextFor v opts) as [[c'|]|e]; simpl.
    + destruct (tryReplay (agentCache v) c') as [[replayed|]|e]; simpl;
        try solve [intros H; split_log H].
      pose proof (recordAndRun_stored v config opts (Some c') c steps result)
        as Hrun.
      destruct (recordAndRun v config opts (Some c')) as [res evs].
      simpl in *. intros [H|H]; [discriminate|].
      destruct (Hrun H) as (Hc & Hrest). inversion Hc; subst c'.
      repeat split; apply Hrest.
    + intros H. destruct (recordAndRun_stored _ _ _ _ _ _ _ H) as (Hc & _).
      discriminate.
    + intros [].
Qed.

(** A run that gives up by [close] still has [success = true]; with one
    recorded step it is stored. *)
Lemma store_only_after_success_witness :
  exists result,
    In (Stored (mkCacheContext "k") [mkReplayStep "goto"] result)
      (snd (execute (instance (cache None [mkReplayStep "goto"]) (givesUp true))
              toolsAgent (task None false None)))
    /\ AgentResult.success result = true.
Proof.
  eexists. split.
  - vm_compute. do 4 right. left. reflexivity.
  - match goal with
    | |- AgentResult.success ?r = true =>
        exact (proj1 (store_only_after_success
                        (instance (cache None [mkReplayStep "goto"])
                           (givesUp true))
                        toolsAgent (task None false None)
                        (mkCacheContext "k") [mkReplayStep "goto"] r
                        ltac:(vm_compute; do 4 right; left; reflexivity)))
    end.
Defined.

Lemma runHandler_ofRunner v config opts :
  Forall (fun e => ofRunner e = true) (snd (runHandler v config opts)).
Proof.
  unfold runHandler.
  destruct (apiClient v && negb (experimental v)); [repeat constructor|].
  destruct (cua config); [repeat constructor|].
  destruct (Handler.execute (handlerWorld v) opts) as [res evs]. simpl.
  apply Forall_fmap. apply Forall_forall. intros e _. reflexivity.
Qed.

(** Without a cache context the run is the runner's, and nothing else. *)
Lemma recordAndRun_plain v config opts :
  recordAndRun v config opts None
  = (resolved (fst (runHandler v config opts)),
     snd (runHandler v config opts)).
Proof.
  unfold recordAndRun.
  destruct (runHandler v config opts) as [[res|err] evs]; simpl;
    rewrite ?app_nil_r; reflexivity.
Qed.

(** With a cache context: the recording brackets the runner. *)
Lemma recordAndRun_recording v config opts c :
  recordAndRun v config opts (Some c)
  = match runHandler v config opts with
    | (Threw err, evs) =>
        (Threw err,
         BeganRecording :: evs ++ [DiscardedRecording; DiscardedRecording])
    | (Returned result, evs) =>
        let agentSteps := endRecording (agentCache v) in
        if AgentResult.success result && negb (length agentSteps =? 0)%nat
        then
          match store (agentCache v) c agentSteps result with
          | None =>
              (Returned (Result result),
               BeganRecording
                 :: evs ++ [EndedRecording; Stored c agentSteps result;
                            DiscardedRecording])
          | Some err =>
              (Threw err,
               BeganRecording
                 :: evs ++ [EndedRecording; Stored c agentSteps result;
                            DiscardedRecording; DiscardedRecording])
          end
        else
          (Returned (Result result),
           BeganRecording :: evs ++ [EndedRecording; DiscardedRecording])
    end.
Proof.
  unfold recordAndRun.
  destruct (runHandler v config opts) as [[res|err] evs]; simpl;
    [|reflexivity].
  destruct (AgentResult.success res && _); [|reflexivity].
  destruct (store (agentCache v) c (endRecording (agentCache v)) res);
    reflexivity.
Qed.

Lemma last_app_some {A} (xs ys : list A) (z : A) :
  last ys = Some z -> last (xs ++ ys) = Some z.
Proof.
  intros H. induction xs as [|x xs IH]; [exact H|].
  cbn [app last]. destruct (xs ++ ys) eqn:E; [|exact IH].
  cbn [last] in IH. discriminate.
Qed.

Lemma recordAndRun_discards v config opts c :
  last (snd (recordAndRun v config opts (Some c))) = Some DiscardedRecording.
Proof.
  rewrite recordAndRun_recording.
  destruct (runHandler v config opts) as [[res|err] evs]; cbv zeta;
    [destruct (AgentResult.success res && _);
     [destruct (store (agentCache v) c (endRecording (agentCache v)) res)|]|];
    cbn [snd]; apply (last_app_some [BeganRecording]);
    apply last_app_some; reflexivity.
Qed.

(** X18.  Whenever [execute] began a recording, the last thing it does is
    to discard it: after a result, after a throw of the runner and after a
    throw of [store] alike. *)
Theorem recording_is_always_discarded v config opts :
  In BeganRecording (snd (execute v config opts)) ->
  last (snd (execute v config opts)) = Some DiscardedRecording.
Proof.
  unfold execute.
  destruct (negb (cua config) && stream config).
  - unfold executeStreaming.
    destruct (negb (experimental v)); [intros []|].
    destruct (experimentalGuard v config); [intros []|].
    destruct (cacheContextFor v opts) as [[c'|]|e]; simpl;
      [destruct (tryReplayAsStream (agentCache v) c') as [[|]|e]; simpl| |];
      solve [intros H; split_log H].
  - unfold executeNonStreaming.
    destruct (experimentalGuard v config); [intros []|].
    destruct (cacheContextFor v opts) as [[c'|]|e]; simpl.
    + destruct (tryReplay (agentCache v) c') as [[replayed|]|e]; simpl;
        try solve [intros H; split_log H].
      pose proof (recordAndRun_discards v config opts c') as Hlast.
      destruct (recordAndRun v config opts (Some c')) as [res evs].
      cbn [snd] in *. intros _.
      apply (last_app_some [TriedReplay c']). exact Hlast.
    + rewrite recordAndRun_plain. cbn [snd]. intros H. exfalso.
      pose proof (runHandler_ofRunner v config opts) as Hall.
      rewrite Forall_forall in Hall. apply list_elem_of_In in H.
      specialize (Hall _ H). discriminate.
    + intros [].
Qed.

Lemma recording_is_always_discarded_witness :
  In BeganRecording
    (snd (execute (instance (cache None [mkReplayStep "goto"]) (givesUp true))
            toolsAgent (task None false None)))
  /\ last (snd (execute (instance (cache None [mkReplayStep "goto"])
                           (givesUp true))
                  toolsAgent (task None false None)))
     = Some DiscardedRecording.
Proof.
  assert (forall (P Q : Prop), P -> (P -> Q) -> P /\ Q) as Hand by tauto.
  apply Hand.
  - vm_compute. right. left. reflexivity.
  - apply recording_is_always_discarded.
Defined.

(** X19.  The result a non-streaming [execute] returns is the replayed
    result of a cache hit or the result of the runner, unchanged. *)
Theorem execute_returns_replay_or_runner_result v config opts result :
  fst (executeNonStreaming v config opts) = Returned (Result result) ->
  (exists c, cacheContextFor v opts = Returned (Some c)
             /\ tryReplay (agentCache v) c = Returned (Some result))
  \/ fst (runHandler v config opts) = Returned result.
Proof.
  unfold executeNonStreaming.
  destruct (experimentalGuard v config); [discriminate|].
  destruct (cacheContextFor v opts) as [[c|]|e] eqn:Hc; [| |discriminate].
  - destruct (tryReplay (agentCache v) c) as [[replayed|]|e] eqn:Hr;
      [| |discriminate].
    + intros H. inversion H; subst. left. exists c.
      split; [reflexivity|exact Hr].
    + rewrite recordAndRun_recording.
      destruct (runHandler v config opts) as [[res|err] evs]; cbv zeta;
        [destruct (AgentResult.success res && _);
         [destruct (store (agentCache v) c (endRecording (agentCache v)) res)|]|];
        cbn [fst]; intros H; inversion H; subst; right; reflexivity.
  - rewrite recordAndRun_plain. cbn [fst].
    destruct (fst (runHandler v config opts)); intros H; inversion H; subst.
    right. reflexivity.
Qed.

Lemma execute_returns_replay_or_runner_result_witness :
  exists result,
    fst (executeNonStreaming (instance noCache (givesUp true)) toolsAgent
           (task None false None))
    = Returned (Result result)
    /\ fst (runHandler (instance noCache (givesUp true)) toolsAgent
              (task None false None))
       = Returned result.
Proof.
  destruct (fst (executeNonStreaming (instance noCache (givesUp true))
                   toolsAgent (task None false None)))
    as [[result|replayed]|e] eqn:Hexec;
    [|vm_compute in Hexec; discriminate|vm_compute in Hexec; discriminate].
  exists result. split; [reflexivity|].
  destruct (execute_returns_replay_or_runner_result _ _ _ _ Hexec)
    as [(c & Hctx & _)|Hrun]; [vm_compute in Hctx; discriminate|exact Hrun].
Defined.

(** X20.  A [store] that fails turns a successful run into a throw: after
    a cache miss, a run that returned a result with [success = true] and a
    recording that is not empty, the error of [store] is what [execute]
    throws; the result is not returned, and the recording is discarded
    twice, by the [catch] and by the [finally]. *)
Theorem failing_store_fails_the_run v config opts c result evs err :
  experimentalGuard v config = None ->
  cacheContextFor v opts = Returned (Some c) ->
  tryReplay (agentCache v) c = Returned None ->
  runHandler v config opts = (Returned result, evs) ->
  AgentResult.success result = true ->
  endRecording (agentCache v) <> [] ->
  store (agentCache v) c (endRecording (agentCache v)) result = Some err ->
  executeNonStreaming v config opts
  = (Threw err,
     TriedReplay c :: BeganRecording
       :: evs ++ [EndedRecording;
                  Stored c (endRecording (agentCache v)) result;
                  DiscardedRecording; DiscardedRecording]).
Proof.
  intros Hguard Hctx Hreplay Hrun Hs Hsteps Hstore.
  unfold executeNonStreaming. rewrite Hguard, Hctx, Hreplay.
  rewrite recordAndRun_recording, Hrun. cbv zeta. rewrite Hs, Hstore.
  destruct (endRecording (agentCache v)); [congruence|]. reflexivity.
Qed.

Lemma failing_store_fails_the_run_witness :
  fst (executeNonStreaming
         (instance (failingStore [mkReplayStep "goto"]) (givesUp true))
         toolsAgent (task None false None))
  = Threw (PlainError "disk full").
Proof.
  destruct (runHandler
              (instance (failingStore [mkReplayStep "goto"]) (givesUp true))
              toolsAgent (task None false None))
    as [[result|e] evs] eqn:Hrun; [|vm_compute in Hrun; discriminate].
  pose proof Hrun as Hc. vm_compute in Hc. inversion Hc; subst; clear Hc.
  rewrite (failing_store_fails_the_run
             (instance (failingStore [mkReplayStep "goto"]) (givesUp true))
             toolsAgent (task None false None) (mkCacheContext "k")
             _ _ (PlainError "disk full") eq_refl eq_refl eq_refl Hrun
             eq_refl ltac:(discriminate) eq_refl).
  reflexivity.
Defined.

(** X21.  Without the experimental flag, an agent with integrations, a
    tools agent with custom tools and a tools agent that streams are refused
    by a throw before anything else is done: no cache lookup, no recording,
    no runner. *)
Theorem experimental_features_are_refused_first v config opts :
  experimental v = false ->
  integrations config = true
  \/ (cua config = false /\ (tools config = true \/ stream config = true)) ->
  exists err, execute v config opts = (Threw err, []).
Proof.
  intros Hexp Hfeature. unfold execute, executeStreaming, executeNonStreaming,
    experimentalGuard. rewrite Hexp.
  destruct (cua config), (stream config), (integrations config),
    (tools config), (isCua v config); simpl; try (eexists; reflexivity);
    destruct Hfeature as [H|[H1 [H|H]]]; discriminate.
Qed.

Lemma experimental_features_are_refused_first_witness :
  exists err,
    execute (instance noCache (givesUp true)) customToolsAgent
      (task None false None)
    = (Threw err, []).
Proof.
  apply experimental_features_are_refused_first; [reflexivity|].
  right. split; [reflexivity|left; reflexivity].
Defined.

(** X22.  When no cache context applies (the cache declines the
    instruction, or prepares none), a non-streaming [execute] is the runner
    and nothing else: it returns or throws what the runner does, and makes
    no call to the cache and no recording. *)
Theorem without_cache_context_execute_is_the_runner v config opts :
  experimentalGuard v config = None ->
  cacheContextFor v opts = Returned None ->
  executeNonStreaming v config opts
  = (resolved (fst (runHandler v config opts)),
     snd (runHandler v config opts)).
Proof.
  intros Hguard Hctx. unfold executeNonStreaming.
  rewrite Hguard, Hctx. apply recordAndRun_plain.
Qed.

Lemma without_cache_context_execute_is_the_runner_witness :
  executeNonStreaming (instance noCache (givesUp true)) toolsAgent
    (task None false None)
  = (resolved (fst (runHandler (instance noCache (givesUp true)) toolsAgent
                      (task None false None))),
     snd (runHandler (instance noCache (givesUp true)) toolsAgent
            (task None false None))).
Proof.
  apply without_cache_context_execute_is_the_runner; reflexivity.
Defined.

End V3Facts.

(** ** The usage counters *)

Module MetricsFacts.
Import Metrics.

Lemma roundToDouble_exact z :
  0 <= z <= 2 ^ 53 -> roundToDouble z = z.
Proof.
  intros Hz. unfold roundToDouble. cbv zeta.
  destruct (Z.abs z <=? 2 ^ 53) eqn:E; [reflexivity|].
  apply Z.leb_gt in E. lia.
Qed.

Lemma plus_exact x y : 0 <= x -> 0 <= y -> x + y <= 2 ^ 53 -> plus x y = x + y.
Proof. intros Hx Hy H. apply roundToDouble_exact. lia. Qed.

Section OneCounter.

(** One of the five counters: [add] adds it up. *)
Variable f : Counters -> Z.
Hypothesis f_add : forall c inc, f (add c inc) = plus (f c) (f inc).

Lemma updateMetrics_balanced functionName inc room m :
  functionName <> OtherFunction ->
  0 <= f inc -> 0 <= room ->
  balanced f (f inc + room) m ->
  balanced f room (updateMetrics functionName inc m).
Proof.
  intros Hname Hinc Hroom (Ha & He & Ho & Hg & Ht & Hr).
  unfold balanced.
  destruct functionName; [| | | |congruence];
    cbn [updateMetrics updateTotalMetrics act extract observe agent total];
    rewrite !f_add, !plus_exact by lia; lia.
Qed.

Lemma after_balanced calls m :
  Forall (fun call => fst call <> OtherFunction) calls ->
  Forall (fun call => 0 <= f (snd call)) calls ->
  balanced f (sumOf f calls) m ->
  balanced f 0 (after calls m).
Proof.
  intros Hnames. revert m.
  induction Hnames as [|call calls Hname _ IH]; intros m Hpos Hm;
    [exact Hm|].
  inversion Hpos as [|? ? Hcall Hrest]; subst.
  assert (0 <= sumOf f calls) as Hsum.
  { clear -Hrest. induction Hrest as [|c cs Hc _ IHc]; simpl; lia. }
  cbn [after fold_left]. apply IH; [exact Hrest|].
  apply updateMetrics_balanced; [exact Hname|exact Hcall|exact Hsum|].
  exact Hm.
Qed.

Lemma balanced_breakdown m :
  balanced f 0 m -> f (total m) = f (breakdown m).
Proof.
  intros (Ha & He & Ho & Hg & Ht & Hr). unfold breakdown.
  rewrite !f_add.
  rewrite (plus_exact (f (act m)) (f (extract m))) by lia.
  rewrite (plus_exact (f (act m) + f (extract m)) (f (observe m))) by lia.
  rewrite plus_exact by lia. exact Ht.
Qed.

End OneCounter.

(** X23.  After any sequence of [updateMetrics] calls for act, extract,
    observe and agent on a fresh instance, whose increments are natural
    numbers that add up, for each counter, to at most 2^53, each of the five
    total counters equals the sum of the four per-function counters of its
    kind. *)
Theorem totals_equal_the_breakdown calls :
  Forall (fun call => fst call <> OtherFunction) calls ->
  countsExactly calls ->
  total (after calls initial) = breakdown (after calls initial).
Proof.
  intros Hnames [Hpos Hsums].
  assert (forall f : Counters -> Z,
             (forall c inc, f (add c inc) = plus (f c) (f inc)) ->
             (forall c, In (f c) (fields c)) ->
             f zero = 0 ->
             sumOf f calls <= 2 ^ 53 ->
             f (total (after calls initial))
             = f (breakdown (after calls initial))) as Hone.
  { intros f Hadd Hfield Hzero Hsum.
    apply (balanced_breakdown f Hadd).
    apply (after_balanced f Hadd); [exact Hnames| |].
    - eapply Forall_impl; [exact Hpos|]. intros call Hcall. cbv beta in *.
      rewrite Forall_forall in Hcall. apply Hcall.
      apply list_elem_of_In. apply Hfield.
    - unfold balanced, initial.
      cbn [act extract observe agent total]. rewrite Hzero. lia. }
  repeat match goal with
         | H : Forall _ (_ :: _) |- _ =>
             let Hf := fresh "Hf" in
             apply Forall_cons_1 in H; destruct H as [Hf H]
         end.
  pose proof (Hone promptTokens ltac:(reflexivity)
                ltac:(intros; simpl; tauto) eq_refl ltac:(assumption)) as H1.
  pose proof (Hone completionTokens ltac:(reflexivity)
                ltac:(intros; simpl; tauto) eq_refl ltac:(assumption)) as H2.
  pose proof (Hone reasoningTokens ltac:(reflexivity)
                ltac:(intros; simpl; tauto) eq_refl ltac:(assumption)) as H3.
  pose proof (Hone cachedInputTokens ltac:(reflexivity)
                ltac:(intros; simpl; tauto) eq_refl ltac:(assumption)) as H4.
  pose proof (Hone inferenceTimeMs ltac:(reflexivity)
                ltac:(intros; simpl; tauto) eq_refl ltac:(assumption)) as H5.
  destruct (total (after calls initial)), (breakdown (after calls initial)).
  cbn in H1, H2, H3, H4, H5. congruence.
Qed.

(** An act call and an agent call. *)
Lemma totals_equal_the_breakdown_witness :
  total (after [(ACT, mkCounters 10 2 0 0 30); (AGENT, mkCounters 7 1 0 0 50)]
           initial)
  = mkCounters 17 3 0 0 80.
Proof.
  rewrite (totals_equal_the_breakdown
             [(ACT, mkCounters 10 2 0 0 30); (AGENT, mkCounters 7 1 0 0 50)]).
  - reflexivity.
  - repeat constructor; discriminate.
  - split; repeat constructor; simpl; lia.
Defined.

(** Beyond 2^53 the totals drift from the breakdown: after an act call with
    2^53 prompt tokens, each of two extract calls with one token is lost in
    the total and kept in the extract counter. *)
Lemma large_counters_drift :
  let m := after [(ACT, mkCounters (2 ^ 53) 0 0 0 0);
                  (EXTRACT, mkCounters 1 0 0 0 0);
                  (EXTRACT, mkCounters 1 0 0 0 0)] initial in
  promptTokens (total m) = 2 ^ 53
  /\ promptTokens (breakdown m) = 2 ^ 53 + 2.
Proof. split; vm_compute; reflexivity. Qed.

End MetricsFacts.

(** ** The choice of a client *)

Module LLMProviderFacts.
Import LLMProvider.

(** X24.  [getClient] returns the OAuth client, [CodeAssistClient], exactly
    for a model name without a slash that the model table gives to google,
    called with options that hold an [authClient] and a non-empty [project];
    the client gets that model name and that project.  A name in the
    provider/model form never gets it, whatever the options. *)
Theorem oauth_client_needs_a_bare_google_model modelName clientOptions m p :
  getClient modelName clientOptions = inr (CodeAssistClient m p)
  <-> splitAtSlash modelName = None
      /\ providerOf modelToProviderMap modelName = Some "google"
      /\ m = modelName
      /\ exists googleOpts,
           clientOptions = Some googleOpts
           /\ authClient googleOpts = true
           /\ truthyOption (project googleOpts) = Some p.
Proof.
  split.
  - unfold getClient.
    destruct (splitAtSlash modelName) as [[sp sm]|].
    { destruct (getAISDKLanguageModel _ _ _ _); discriminate. }
    destruct (providerOf modelToProviderMap modelName) as [provider|];
      [|discriminate].
    destruct (String.eqb provider "openai"); [discriminate|].
    destruct (String.eqb provider "anthropic"); [discriminate|].
    destruct (String.eqb provider "cerebras"); [discriminate|].
    destruct (String.eqb provider "groq"); [discriminate|].
    destruct (String.eqb provider "google") eqn:Hg; [|discriminate].
    apply String.eqb_eq in Hg. subst provider.
    destruct clientOptions as [googleOpts|]; [|discriminate].
    destruct (authClient googleOpts) eqn:Ha; [|discriminate].
    destruct (truthyOption (project googleOpts)) as [p'|] eqn:Hp;
      [|discriminate].
    intros H. inversion H; subst. repeat split. eauto.
  - intros (Hs & Hp & -> & googleOpts & -> & Ha & Hproject).
    unfold getClient. rewrite Hs, Hp, Ha, Hproject. reflexivity.
Qed.

Lemma getClient_google modelName clientOptions :
  splitAtSlash modelName = None ->
  providerOf modelToProviderMap modelName = Some "google" ->
  exists client,
    getClient modelName clientOptions = inr client
    /\ clientProvider client = "google".
Proof.
  intros Hs Hp. unfold getClient. rewrite Hs, Hp.
  change ("google" =? "openai")%string with false.
  change ("google" =? "anthropic")%string with false.
  change ("google" =? "cerebras")%string with false.
  change ("google" =? "groq")%string with false.
  change ("google" =? "google")%string with true. cbv iota.
  destruct clientOptions as [o|]; [|eexists; split; reflexivity].
  destruct (authClient o), (truthyOption (project o));
    eexists; split; reflexivity.
Qed.

(** X25.  For every model the table [modelToProviderMap] lists,
    [getModelProvider] answers with the provider of the table.  [getClient]
    returns a client of that provider when the name has no slash; a listed
    name with a slash never reaches the table: [getClient] takes the part
    before the slash for an AI SDK provider and throws
    UnsupportedAISDKModelProviderError, whatever the options. *)
Theorem listed_models_resolve_unless_slashed modelName provider clientOptions :
  In (modelName, provider) modelToProviderMap ->
  getModelProvider modelName = Some provider
  /\ match splitAtSlash modelName with
     | None =>
         exists client,
           getClient modelName clientOptions = inr client
           /\ clientProvider client = provider
     | Some (sub, _) =>
         exists supported,
           getClient modelName clientOptions
           = inl (UnsupportedAISDKModelProviderError sub supported)
     end.
Proof.
  intros Hin. unfold modelToProviderMap in Hin. cbn [In] in Hin.
  repeat (destruct Hin as [Hin|Hin];
          [inversion Hin; subst modelName provider; clear Hin;
           (split; [reflexivity|]);
           first [ apply getClient_google; reflexivity
                 | eexists; split; reflexivity
                 | unfold getClient, getAISDKLanguageModel;
                   vm_compute (splitAtSlash _);
                   cbv iota beta;
                   destruct (truthyOption (clientOptions ≫= apiKey));
                   eexists; reflexivity ]
          |]).
  destruct Hin.
Qed.

(** The one listed name with a slash: the table gives it to groq, and no
    client can be made for it. *)
Lemma listed_models_resolve_unless_slashed_witness :
  getModelProvider "moonshotai/kimi-k2-instruct" = Some "groq"
  /\ exists supported,
       getClient "moonshotai/kimi-k2-instruct" None
       = inl (UnsupportedAISDKModelProviderError "moonshotai" supported).
Proof.
  apply (listed_models_resolve_unless_slashed "moonshotai/kimi-k2-instruct"
           "groq" None).
  simpl. do 22 right. left. reflexivity.
Defined.

End LLMProviderFacts.

(** ** V3.act and V3.close *)

Module V3MethodsFacts.
Import V3Methods Samples.

Lemma lookupCache_events w text c r :
  ~ In (Stored c r) (snd (lookupCache w text))
  /\ ~ In (Stored c r) (ResolvedPage :: snd (lookupCache w text)).
Proof.
  assert (~ In (Stored c r) (snd (lookupCache w text))) as H.
  { unfold lookupCache.
    destruct (negb (isAgentReplayRecording w) && actCacheEnabled w);
      [|intros []].
    destruct (prepareContext w text) as [[c'|]|e]; simpl;
      [destruct (tryReplay w c') as [[cached|]|e]; simpl| |];
      intuition discriminate. }
  split; [exact H|]. intros [Hd|Hin]; [discriminate|exact (H Hin)].
Qed.

Lemma lookupCache_miss w text c evs :
  lookupCache w text = (Miss (Some c), evs) ->
  isAgentReplayRecording w = false
  /\ actCacheEnabled w = true
  /\ prepareContext w text = Returned (Some c)
  /\ tryReplay w c = Returned None.
Proof.
  unfold lookupCache.
  destruct (isAgentReplayRecording w), (actCacheEnabled w); simpl;
    try discriminate.
  destruct (prepareContext w text) as [[c'|]|e]; try discriminate.
  destruct (tryReplay w c') as [[cached|]|e] eqn:Hr; try discriminate.
  intros H. inversion H; subst. repeat split. exact Hr.
Qed.

Lemma worthStoring_inv r :
  worthStoring r = true ->
  success r = true /\ exists a rest, actions r = Some (a :: rest).
Proof.
  unfold worthStoring. intros H. apply andb_prop in H. destruct H as [Hs Ha].
  split; [exact Hs|]. destruct (actions r) as [[|a rest]|]; try discriminate.
  eauto.
Qed.

Lemma addToHistory_recorded w params r history :
  recorded w history r (addToHistory w "act" params r history).
Proof. exists params. reflexivity. Qed.

Lemma close_closed res force :
  releasesNothing (snd (close res force closed))
  /\ snd (fst (close res force closed)) = closed.
Proof.
  unfold close, releasesNothing. simpl.
  destruct (apiClient res); [destruct (apiEnd res)|]; simpl; split;
    try reflexivity; repeat constructor.
Qed.

Lemma close_resets res force v :
  refused res force v = false -> snd (fst (close res force v)) = closed.
Proof.
  unfold close, refused.
  destruct (apiClient res); simpl;
    [destruct (apiEnd res) as [e|]; simpl; [discriminate|]|];
    destruct (isClosing v), force; simpl; try discriminate; reflexivity.
Qed.

(** X26.  Whatever act writes to the act cache is the answer to an
    instruction that missed the cache: the input is an instruction string,
    no agent replay is being recorded, the cache is enabled and gave a
    context for the instruction, the replay under that context found
    nothing, and the stored value is the result the API client or the act
    handler returned, which succeeded with at least one action. *)
Theorem act_stores_only_what_succeeded w input history c r :
  In (Stored c r) (snd (act w input history)) ->
  exists text,
    input = Instruction text
    /\ isAgentReplayRecording w = false
    /\ actCacheEnabled w = true
    /\ prepareContext w text = Returned (Some c)
    /\ tryReplay w c = Returned None
    /\ (if hasApiClient w then apiAct w input else handlerAct w text)
       = Returned r
    /\ success r = true
    /\ exists a rest, actions r = Some (a :: rest).
Proof.
  unfold act. destruct (hasActHandler w); simpl; [|intros []].
  destruct input as [text|selector|]; [| |intros []].
  - destruct (Js.truthy (Js.trim text)); simpl; [|intros []].
    destruct (resolvePage w) as [[]|e]; [|simpl; intuition discriminate].
    pose proof (lookupCache_events w text c r) as [Hno Hno'].
    pose proof (lookupCache_miss w text) as Hmiss.
    destruct (lookupCache w text) as [[cached|ctx|e] evs]; cbn [snd] in *;
      try (intros H; exfalso; exact (Hno' H)).
    assert (forall l, In (Stored c r) (ResolvedPage :: evs ++ l) ->
                      In (Stored c r) l) as Htail.
    { intros l [Hd|Hin]; [discriminate|].
      apply in_app_or in Hin. destruct Hin as [Hin|Hin];
        [exfalso; exact (Hno Hin)|exact Hin]. }
    assert (forall call answer,
              (call = CalledApi (Instruction text)
               \/ call = CalledHandler text) ->
              In (Stored c r)
                (snd (match answer with
                      | Threw e =>
                          (Threw e, history, ResolvedPage :: evs ++ [call])
                      | Returned actResult =>
                          match ctx with
                          | Some c0 =>
                              if worthStoring actResult
                              then
                                match store w c0 actResult with
                                | Some e =>
                                    (Threw e,
                                     addToHistory w "act"
                                       (FromInstruction text false) actResult
                                       history,
                                     ResolvedPage
                                       :: evs ++ [call; Stored c0 actResult])
                                | None =>
                                    (Returned actResult,
                                     addToHistory w "act"
                                       (FromInstruction text false) actResult
                                       history,
                                     ResolvedPage
                                       :: evs ++ [call; Stored c0 actResult])
                                end
                              else
                                (Returned actResult,
                                 addToHistory w "act"
                                   (FromInstruction text false) actResult
                                   history,
                                 ResolvedPage :: evs ++ [call])
                          | None =>
                              (Returned actResult,
                               addToHistory w "act"
                                 (FromInstruction text false) actResult
                                 history,
                               ResolvedPage :: evs ++ [call])
                          end
                      end)) ->
              answer = Returned r
              /\ isAgentReplayRecording w = false
              /\ actCacheEnabled w = true
              /\ prepareContext w text = Returned (Some c)
              /\ tryReplay w c = Returned None
              /\ success r = true
              /\ exists a rest, actions r = Some (a :: rest)) as Hmain.
    { intros call answer Hcall.
      assert (~ In (Stored c r) [call]) as Hcall'.
      { intros [H|[]]. destruct Hcall as [-> | ->]; discriminate. }
      destruct answer as [actResult|e]; cbn [snd];
        [|intros H; apply Htail in H; contradiction].
      destruct ctx as [c0|];
        [|intros H; apply Htail in H; contradiction].
      destruct (worthStoring actResult) eqn:Hworth;
        [|intros H; apply Htail in H; contradiction].
      assert (In (Stored c r) [call; Stored c0 actResult] ->
              c0 = c /\ actResult = r) as Hst.
      { intros [H|[H|[]]];
          [destruct Hcall as [-> | ->]; discriminate|].
        inversion H. split; reflexivity. }
      destruct (store w c0 actResult); cbn [snd]; intros H;
        apply Htail, Hst in H; destruct H as [-> ->];
        destruct (Hmiss c evs eq_refl) as (H1 & H2 & H3 & H4);
        destruct (worthStoring_inv _ Hworth) as [H5 H6];
        repeat split; auto. }
    destruct (hasApiClient w); intros H.
    + destruct (Hmain (CalledApi (Instruction text))
                  (apiAct w (Instruction text)) (or_introl eq_refl))
        as (H0 & H1 & H2 & H3 & H4 & H5 & H6);
        [destruct (apiAct w (Instruction text)); exact H|].
      exists text. repeat split; assumption.
    + destruct (Hmain (CalledHandler text) (handlerAct w text)
                  (or_intror eq_refl))
        as (H0 & H1 & H2 & H3 & H4 & H5 & H6);
        [destruct (handlerAct w text); exact H|].
      exists text. repeat split; assumption.
  - destruct (resolvePage w) as [[]|e]; [|simpl; intuition discriminate].
    destruct (hasApiClient w);
      [destruct (apiAct w (ObserveResultInput selector))
      |destruct (handlerActFromObserveResult w selector)];
      simpl; intuition discriminate.
Qed.

Lemma act_stores_only_what_succeeded_witness :
  In (Stored (mkActCacheContext "k") clicked)
    (snd (act (actWorld None) (Instruction "click the button") []))
  /\ exists text,
       Instruction "click the button" = Instruction text
       /\ isAgentReplayRecording (actWorld None) = false
       /\ actCacheEnabled (actWorld None) = true
       /\ prepareContext (actWorld None) text
          = Returned (Some (mkActCacheContext "k"))
       /\ tryReplay (actWorld None) (mkActCacheContext "k") = Returned None
       /\ (if hasApiClient (actWorld None)
           then apiAct (actWorld None) (Instruction "click the button")
           else handlerAct (actWorld None) text) = Returned clicked
       /\ success clicked = true
       /\ exists a rest, actions clicked = Some (a :: rest).
Proof.
  assert (forall P Q : Prop, P -> (P -> Q) -> P /\ Q) as Hand by tauto.
  apply Hand.
  - vm_compute. do 4 right. left. reflexivity.
  - apply (act_stores_only_what_succeeded (actWorld None)
             (Instruction "click the button") []).
Defined.

(** X27.  The result act returns is always the entry it has just appended
    to the history, and act appends nothing else.  When act throws, the
    history is as it was, with one exception: when it is the write to the
    act cache that threw, the result of the action is in the history
    although the caller never receives it. *)
Theorem act_records_what_it_returns w input history out history' evs :
  act w input history = (out, history', evs) ->
  match out with
  | Returned r => recorded w history r history'
  | Threw e =>
      history' = history
      \/ exists c r,
           In (Stored c r) evs /\ store w c r = Some e
           /\ recorded w history r history'
  end.
Proof.
  unfold act. destruct (hasActHandler w); simpl;
    [|intros H; inversion H; subst; left; reflexivity].
  destruct input as [text|selector|];
    [| |intros H; inversion H; subst; left; reflexivity].
  - destruct (Js.truthy (Js.trim text)); simpl;
      [|intros H; inversion H; subst; left; reflexivity].
    destruct (resolvePage w) as [[]|e];
      [|intros H; inversion H; subst; left; reflexivity].
    destruct (lookupCache w text) as [[cached|ctx|e] levs];
      [intros H; inversion H; subst; apply addToHistory_recorded| |
       intros H; inversion H; subst; left; reflexivity].
    destruct (hasApiClient w);
      [destruct (apiAct w (Instruction text)) as [r|e]
      |destruct (handlerAct w text) as [r|e]];
      try (intros H; inversion H; subst; left; reflexivity);
      (destruct ctx as [c|];
       [destruct (worthStoring r);
        [destruct (store w c r) as [e|] eqn:Hstore|]|]);
      intros H; inversion H; subst;
      try apply addToHistory_recorded;
      right; exists c, r; (split; [|split;
        [exact Hstore|apply addToHistory_recorded]]);
      right; apply in_or_app; right; right; left; reflexivity.
  - destruct (resolvePage w) as [[]|e];
      [|intros H; inversion H; subst; left; reflexivity].
    destruct (hasApiClient w);
      [destruct (apiAct w (ObserveResultInput selector)) as [r|e]
      |destruct (handlerActFromObserveResult w selector) as [r|e]];
      intros H; inversion H; subst;
      try apply addToHistory_recorded; left; reflexivity.
Qed.

Lemma act_records_what_it_returns_witness :
  let w := actWorld (Some (PlainError "disk full")) in
  let entry :=
    mkHistoryEntry "act" (FromInstruction "click the button" false)
      (Some clicked) "2025-01-01T00:00:00.000Z" in
  let evs :=
    [ResolvedPage; PreparedContext "click the button";
     TriedReplay (mkActCacheContext "k"); CalledHandler "click the button";
     Stored (mkActCacheContext "k") clicked] in
  act w (Instruction "click the button") []
  = (Threw (PlainError "disk full"), [entry], evs)
  /\ ([entry] = []
      \/ exists c r,
           In (Stored c r) evs
           /\ store w c r = Some (PlainError "disk full")
           /\ recorded w [] r [entry]).
Proof.
  intros w entry evs.
  assert (forall P Q : Prop, P -> (P -> Q) -> P /\ Q) as Hand by tauto.
  apply Hand.
  - vm_compute. reflexivity.
  - intros H.
    exact (act_records_what_it_returns w (Instruction "click the button") []
             (Threw (PlainError "disk full")) [entry] evs H).
Defined.

(** X28.  close is all or nothing.  When apiClient.end() throws, or a close
    is under way and this one is not forced, the instance is left exactly as
    it was and no step touched the browser or the disk.  In every other case
    close returns, whatever the cleanup calls throw, with the instance reset
    and out of the registry, after closing the context if there was one and
    killing Chrome if the browser was a local one. *)
Theorem close_is_all_or_nothing res force v out v' evs :
  close res force v = (out, v', evs) ->
  if refused res force v
  then v' = v /\ releasesNothing evs
  else out = Returned tt /\ v' = closed
       /\ (hasContext v = true ->
           In (ClosedContext (failed (ctxClose res))) evs)
       /\ (forall created preserve dir,
             state v = LOCAL created preserve dir ->
             In (KilledChrome (failed (chromeKill res))) evs).
Proof.
  unfold close, refused, releasesNothing.
  destruct (apiClient res); simpl;
    [destruct (apiEnd res) as [e|]; simpl|];
    try (intros H; inversion H; subst;
         split; [reflexivity|repeat constructor]; fail);
    destruct (isClosing v), force; simpl; intros H; inversion H; subst;
    first [ solve [split; [reflexivity|repeat constructor]]
          | split; [reflexivity|split; [reflexivity|split]] ];
    try (intros ->; simpl; tauto);
    intros a b d ->; destruct (hasContext v); simpl; tauto.
Qed.

Lemma close_is_all_or_nothing_witness :
  close (stubborn false) false localInstance
  = (Returned tt, closed,
     [UnhookedTransport true; ClosedContext true; KilledChrome true;
      RemovedProfile "/tmp/profile" true; UnboundLogger true])
  /\ close (stubborn true) true localInstance
     = (Threw (PlainError "socket hang up"), localInstance, [EndedApi])
  /\ (localInstance = localInstance /\ releasesNothing [EndedApi]).
Proof.
  split; [vm_compute; reflexivity|].
  assert (forall P Q : Prop, P -> (P -> Q) -> P /\ Q) as Hand by tauto.
  apply Hand.
  - vm_compute. reflexivity.
  - intros H.
    exact (close_is_all_or_nothing (stubborn true) true localInstance
             (Threw (PlainError "socket hang up")) localInstance [EndedApi]
             H).
Defined.

(** X29.  Closing is idempotent.  After a close that went through, a second
    close, forced or not and whether or not its apiClient.end() throws, and
    likewise the forced shutdown of the process guards, leaves the instance
    reset and touches neither the browser nor the disk. *)
Theorem closing_again_releases_nothing res force v res' force' :
  refused res force v = false ->
  let v1 := snd (fst (close res force v)) in
  (let '(_, v2, evs) := close res' force' v1 in
   v2 = closed /\ releasesNothing evs)
  /\ (let '(v2, evs) := immediateShutdown res' v1 in
      v2 = closed /\ releasesNothing evs).
Proof.
  intros Href. rewrite (close_resets _ _ _ Href). cbn zeta.
  unfold immediateShutdown.
  pose proof (close_closed res' force') as [Hq Hv].
  pose proof (close_closed res' true) as [Hq' Hv'].
  split.
  - destruct (close res' force' closed) as [[out2 v2] evs2].
    split; [exact Hv|exact Hq].
  - destruct (close res' true closed) as [[out2 v2] evs2].
    split; [exact Hv'|exact Hq'].
Qed.

Lemma closing_again_releases_nothing_witness :
  refused (stubborn false) false localInstance = false
  /\ (let v1 := snd (fst (close (stubborn false) false localInstance)) in
      (let '(_, v2, evs) := close (stubborn true) false v1 in
       v2 = closed /\ releasesNothing evs)
      /\ (let '(v2, evs) := immediateShutdown (stubborn true) v1 in
          v2 = closed /\ releasesNothing evs)).
Proof.
  assert (forall P Q : Prop, P -> (P -> Q) -> P /\ Q) as Hand by tauto.
  apply Hand.
  - reflexivity.
  - exact (closing_again_releases_nothing (stubborn false) false
             localInstance (stubborn true) false).
Defined.

End V3MethodsFacts.
